(** * PhotoPrism [reset] command: a shallow embedding and its properties

    The development follows [internal/commands/reset.go].  The command talks
    to a terminal prompt, a database and the file system; those collaborators
    are an interface ([Env]) that the command is run against, and the
    command itself is a term of a small state-and-trace monad.

    The two standard-library functions that decide what the command
    enumerates, [regexp.QuoteMeta] and [path/filepath.Glob] (with
    [filepath.Match], [filepath.Clean] and [utf8.DecodeRuneInString]
    underneath), are embedded as they are in Go 1.19 with their Unix
    behaviour: the separator is [/] and a backslash escapes the next
    pattern byte. *)

From Stdlib Require Import Ascii String.
From stdpp Require Import base option list strings gmap.

Local Open Scope string_scope.
Local Open Scope list_scope.

(** ** Go strings

    A Go string is a sequence of bytes; [string] (a list of 8-bit [ascii])
    is the same thing. *)
Module GoString.

Fixpoint take (n : nat) (s : string) : string :=
  match n, s with
  | S n', String c s' => String c (take n' s')
  | _, _ => EmptyString
  end.

Fixpoint drop (n : nat) (s : string) : string :=
  match n, s with
  | S n', String _ s' => drop n' s'
  | _, _ => s
  end.

Definition is_empty (s : string) : bool :=
  match s with EmptyString => true | String _ _ => false end.

(** [strings.Contains(s, string(c))] for a single byte [c]. *)
Fixpoint contains_byte (c : ascii) (s : string) : bool :=
  match s with
  | EmptyString => false
  | String d s' => if Ascii.eqb c d then true else contains_byte c s'
  end.

(** [strings.ContainsAny(s, chars)]. *)
Fixpoint contains_any (s chars : string) : bool :=
  match s with
  | EmptyString => false
  | String d s' => if contains_byte d chars then true else contains_any s' chars
  end.

(** [strings.LastIndexByte]: the part up to and including the last [c],
    and the part after it. *)
Fixpoint split_last (c : ascii) (s : string) : option (string * string) :=
  match s with
  | EmptyString => None
  | String d s' =>
      match split_last c s' with
      | Some (l, r) => Some (String d l, r)
      | None => if Ascii.eqb c d then Some (String d EmptyString, s') else None
      end
  end.

(** The byte-wise order that Go's [<] on strings and [slices.Sort] use. *)
Definition leb (a b : string) : bool := String.leb a b.

Fixpoint insert_sorted (x : string) (l : list string) : list string :=
  match l with
  | [] => [x]
  | y :: l' => if leb x y then x :: l else y :: insert_sorted x l'
  end.

(** [slices.Sort(names)]. *)
Definition sort (l : list string) : list string :=
  foldr insert_sorted [] l.

End GoString.

(** ** Errors

    A Go [error] is observed through its message; [nil] is [None]. *)
Definition error : Type := string.

(** [filepath.ErrBadPattern]. *)
Definition ErrBadPattern : error := "syntax error in pattern".

(** ** [regexp.QuoteMeta] *)
Module Regexp.

(** The bytes of [`\.+*?()|[]{}^$`]. *)
Definition special (b : ascii) : bool :=
  GoString.contains_byte b "\.+*?()|[]{}^$".

(** [QuoteMeta] copies [s], putting a backslash before each special
    byte. *)
Fixpoint QuoteMeta (s : string) : string :=
  match s with
  | EmptyString => EmptyString
  | String b s' =>
      if special b then String "\" (String b (QuoteMeta s'))
      else String b (QuoteMeta s')
  end.

End Regexp.

(** ** [utf8.DecodeRuneInString] *)
Module Utf8.

Definition rune : Type := N.

Definition RuneError : rune := 65533%N.

Definition byte_val (c : ascii) : N := N_of_ascii c.

(** What the table [first] and [acceptRanges] say about a leading byte:
    the length of the sequence and the range accepted for the second
    byte; [None] for an invalid leading byte. *)
Definition lead (b0 : N) : option (nat * N * N) :=
  if (b0 <? 0xC2)%N then None
  else if (b0 <? 0xE0)%N then Some (2, 0x80%N, 0xBF%N)
  else if (b0 =? 0xE0)%N then Some (3, 0xA0%N, 0xBF%N)
  else if (b0 =? 0xED)%N then Some (3, 0x80%N, 0x9F%N)
  else if (b0 <? 0xF0)%N then Some (3, 0x80%N, 0xBF%N)
  else if (b0 =? 0xF0)%N then Some (4, 0x90%N, 0xBF%N)
  else if (b0 <? 0xF4)%N then Some (4, 0x80%N, 0xBF%N)
  else if (b0 =? 0xF4)%N then Some (4, 0x80%N, 0x8F%N)
  else None.

Definition in_range (lo hi b : N) : bool := (lo <=? b)%N && (b <=? hi)%N.

Definition cont (b : N) : N := N.land b 0x3F%N.

Definition DecodeRuneInString (s : string) : rune * nat :=
  match s with
  | EmptyString => (RuneError, 0)
  | String c0 s1 =>
      let b0 := byte_val c0 in
      if (b0 <? 0x80)%N then (b0, 1)
      else
        match lead b0 with
        | None => (RuneError, 1)
        | Some (sz, lo, hi) =>
            if (String.length s <? sz)%nat then (RuneError, 1)
            else
              match s1 with
              | EmptyString => (RuneError, 1)
              | String c1 s2 =>
                  let b1 := byte_val c1 in
                  if negb (in_range lo hi b1) then (RuneError, 1)
                  else if (sz <=? 2)%nat then
                    (N.lor (N.shiftl (N.land b0 0x1F%N) 6%N) (cont b1), 2)
                  else
                    match s2 with
                    | EmptyString => (RuneError, 1)
                    | String c2 s3 =>
                        let b2 := byte_val c2 in
                        if negb (in_range 0x80%N 0xBF%N b2) then (RuneError, 1)
                        else if (sz <=? 3)%nat then
                          (N.lor (N.shiftl (N.land b0 0x0F%N) 12%N)
                             (N.lor (N.shiftl (cont b1) 6%N) (cont b2)), 3)
                        else
                          match s3 with
                          | EmptyString => (RuneError, 1)
                          | String c3 _ =>
                              let b3 := byte_val c3 in
                              if negb (in_range 0x80%N 0xBF%N b3) then (RuneError, 1)
                              else
                                (N.lor (N.shiftl (N.land b0 0x07%N) 18%N)
                                   (N.lor (N.shiftl (cont b1) 12%N)
                                      (N.lor (N.shiftl (cont b2) 6%N) (cont b3))), 4)
                          end
                    end
              end
        end
  end.

End Utf8.

(** ** [path/filepath]: [Match] *)
Module Filepath.

Import GoString Utf8.

Definition Separator : ascii := "/"%char.

Definition byte_is (c d : ascii) : bool := Ascii.eqb c d.

Definition head_is (d : ascii) (s : string) : bool :=
  match s with
  | String c _ => byte_is c d
  | EmptyString => false
  end.

Definition tail (s : string) : string := drop 1 s.

(** [getEsc] gets a possibly-escaped character from a character class. *)
Definition getEsc (chunk : string) : rune * string * option error :=
  match chunk with
  | EmptyString => (0%N, "", Some ErrBadPattern)
  | String c rest =>
      if byte_is c "-" || byte_is c "]" then (0%N, "", Some ErrBadPattern)
      else if byte_is c "\" && is_empty rest then (0%N, "", Some ErrBadPattern)
      else
        let chunk1 := if byte_is c "\" then rest else chunk in
        let '(r, n) := DecodeRuneInString chunk1 in
        let err1 :=
          if (r =? RuneError)%N && (n =? 1)%nat then Some ErrBadPattern else None in
        let nchunk := drop n chunk1 in
        (r, nchunk, if is_empty nchunk then Some ErrBadPattern else err1)
  end.

(** The loop of [matchChunk] that parses the ranges of a character class.
    It returns whether [r] is in one of them and what follows the closing
    bracket.  Each round consumes at least one byte of [chunk]. *)
Fixpoint classLoop (fuel : nat) (chunk : string) (r : rune)
    (matched : bool) (nrange : nat) : option (bool * string * option error) :=
  match fuel with
  | O => None
  | S fuel' =>
      if head_is "]" chunk && (0 <? nrange)%nat then
        Some (matched, tail chunk, None)
      else
        let '(lo, chunk1, err) := getEsc chunk in
        match err with
        | Some e => Some (matched, chunk1, Some e)
        | None =>
            let '(hi, chunk2, err2) :=
              if head_is "-" chunk1 then getEsc (tail chunk1)
              else (lo, chunk1, None) in
            match err2 with
            | Some e => Some (matched, chunk2, Some e)
            | None =>
                let matched' :=
                  if (lo <=? r)%N && (r <=? hi)%N then true else matched in
                classLoop fuel' chunk2 r matched' (S nrange)
            end
        end
  end.

(** [matchChunk]'s loop.  [failed] records that the match has failed;
    the loop then goes on over [chunk] to check that the pattern is
    well-formed, no longer reading [s]. *)
Fixpoint matchChunk_loop (fuel : nat) (chunk s : string) (failed : bool)
    : option (string * bool * option error) :=
  match fuel with
  | O => None
  | S fuel' =>
      match chunk with
      | EmptyString =>
          Some (if failed then ("", false, None) else (s, true, None))
      | String c chunk1 =>
          let failed := failed || is_empty s in
          if byte_is c "[" then
            let '(r, s1) :=
              if failed then (0%N, s)
              else let '(r, n) := DecodeRuneInString s in (r, drop n s) in
            let '(negated, chunk2) :=
              if head_is "^" chunk1 then (true, tail chunk1)
              else (false, chunk1) in
            match classLoop (S (String.length chunk2)) chunk2 r false 0 with
            | None => None
            | Some (_, _, Some e) => Some ("", false, Some e)
            | Some (m, chunk3, None) =>
                matchChunk_loop fuel' chunk3 s1 (failed || Bool.eqb m negated)
            end
          else if byte_is c "?" then
            if failed then matchChunk_loop fuel' chunk1 s true
            else
              matchChunk_loop fuel' chunk1
                (drop (snd (DecodeRuneInString s)) s) (head_is Separator s)
          else if byte_is c "\" && is_empty chunk1 then
            Some ("", false, Some ErrBadPattern)
          else
            let chunk' := if byte_is c "\" then chunk1 else chunk in
            match chunk' with
            | EmptyString => None
            | String c0 chunk2 =>
                if failed then matchChunk_loop fuel' chunk2 s true
                else
                  match s with
                  | EmptyString => None
                  | String s0 s' =>
                      matchChunk_loop fuel' chunk2 s' (negb (byte_is c0 s0))
                  end
            end
      end
  end.

(** [matchChunk] checks whether [chunk] matches the beginning of [s]; if
    so it returns the remainder of [s].  The loop takes one round per
    pattern element and one to return. *)
Definition matchChunk_opt (chunk s : string) : option (string * bool * option error) :=
  matchChunk_loop (S (String.length chunk)) chunk s false.

Definition matchChunk (chunk s : string) : string * bool * option error :=
  default ("", false, None) (matchChunk_opt chunk s).

Fixpoint skipStars (pattern : string) (star : bool) : bool * string :=
  match pattern with
  | String c p => if byte_is c "*" then skipStars p true else (star, pattern)
  | EmptyString => (star, pattern)
  end.

(** The [Scan] loop of [scanChunk]: the index at which the chunk ends. *)
Fixpoint scanIndex (pattern : string) (inrange : bool) : nat :=
  match pattern with
  | EmptyString => 0
  | String c rest =>
      if byte_is c "\" then
        match rest with
        | String _ rest' => 2 + scanIndex rest' inrange
        | EmptyString => 1
        end
      else if byte_is c "[" then S (scanIndex rest true)
      else if byte_is c "]" then S (scanIndex rest false)
      else if byte_is c "*" then
        if inrange then S (scanIndex rest inrange) else 0
      else S (scanIndex rest inrange)
  end.

(** [scanChunk] gets the next segment of [pattern]: a non-star string
    possibly preceded by a star. *)
Definition scanChunk (pattern : string) : bool * string * string :=
  let '(star, pattern) := skipStars pattern false in
  let i := scanIndex pattern false in
  (star, take i pattern, drop i pattern).

Inductive star_result :=
| StarFound (t : string)
| StarError (e : error)
| StarNone.

(** The loop of [Match] that looks for a match of [chunk] after skipping
    [i+1] bytes of [name]; it cannot skip the separator. *)
Fixpoint starLoop (chunk : string) (last : bool) (name : string) : star_result :=
  match name with
  | EmptyString => StarNone
  | String c rest =>
      if byte_is c Separator then StarNone
      else
        match matchChunk chunk rest with
        | (t, true, _) =>
            if last && negb (is_empty t) then starLoop chunk last rest
            else StarFound t
        | (_, false, Some e) => StarError e
        | (_, false, None) => starLoop chunk last rest
        end
  end.

(** The loop that [Match] runs before it returns false with no error: it
    checks that the remainder of the pattern is syntactically valid. *)
Fixpoint remainder_loop (fuel : nat) (pattern : string) : option (option error) :=
  match fuel with
  | O => None
  | S fuel' =>
      if is_empty pattern then Some None
      else
        let '(_, chunk, pattern') := scanChunk pattern in
        match matchChunk chunk "" with
        | (_, _, Some e) => Some (Some e)
        | (_, _, None) => remainder_loop fuel' pattern'
        end
  end.

(** The [Pattern] loop of [Match]; every round shortens [pattern]. *)
Fixpoint Match_loop (fuel : nat) (pattern name : string) : option (bool * option error) :=
  match fuel with
  | O => None
  | S fuel' =>
      if is_empty pattern then Some (is_empty name, None)
      else
        let '(star, chunk, pattern') := scanChunk pattern in
        if star && is_empty chunk then
          Some (negb (contains_byte Separator name), None)
        else
          let '(t, ok, err) := matchChunk chunk name in
          if ok && (is_empty t || negb (is_empty pattern')) then
            Match_loop fuel' pattern' t
          else
            match err with
            | Some e => Some (false, Some e)
            | None =>
                match
                  (if star then starLoop chunk (is_empty pattern') name
                   else StarNone)
                with
                | StarFound t' => Match_loop fuel' pattern' t'
                | StarError e => Some (false, Some e)
                | StarNone =>
                    match remainder_loop fuel' pattern' with
                    | Some e => Some (false, e)
                    | None => None
                    end
                end
            end
  end.

Definition Match_opt (pattern name : string) : option (bool * option error) :=
  Match_loop (S (String.length pattern)) pattern name.

(** The syntax error in [pattern], if there is one, as the loop of [Match]
    over the remainder of a pattern finds it. *)
Definition remainder (pattern : string) : option error :=
  default None (remainder_loop (S (String.length pattern)) pattern).

(** [Match] reports whether [name] matches the shell file name
    [pattern]. *)
Definition Match (pattern name : string) : bool * option error :=
  default (false, None) (Match_opt pattern name).

(** *** [Clean], [Join], [Split] *)

Definition is_sep (c : ascii) : bool := byte_is c Separator.

(** [out.index(i)] of [Clean]'s buffer; the buffer is read only below its
    write index. *)
Definition index (out : string) (i : nat) : ascii :=
  default "000"%char (String.get i out).

(** The loop [for out.w > dotdot && !IsPathSeparator(out.index(out.w))]
    of the [..] case; it returns the new write index. *)
Fixpoint backtrack (out : string) (dotdot w : nat) : nat :=
  match w with
  | O => O
  | S w' =>
      if (dotdot <? w)%nat && negb (is_sep (index out w))
      then backtrack out dotdot w'
      else w
  end.

(** The bytes of the path element at the head of [path], and what
    follows it. *)
Fixpoint span_elem (path : string) : string * string :=
  match path with
  | EmptyString => ("", "")
  | String c rest =>
      if is_sep c then ("", path)
      else let '(e, r) := span_elem rest in (String c e, r)
  end.

Definition ends_elem (rest : string) : bool :=
  is_empty rest || head_is Separator rest.

(** The main loop of [Clean]: [path] is what remains to be read, [out]
    the buffer written so far ([out.w] is its length) and [dotdot] the
    index where [..] must stop. *)
Fixpoint Clean_loop (fuel : nat) (rooted : bool) (path out : string)
    (dotdot : nat) : string :=
  match fuel with
  | O => out
  | S fuel' =>
      match path with
      | EmptyString => out
      | String c rest =>
          if is_sep c then Clean_loop fuel' rooted rest out dotdot
          else if byte_is c "." && ends_elem rest then
            Clean_loop fuel' rooted rest out dotdot
          else if byte_is c "." && head_is "." rest && ends_elem (tail rest) then
            let w := String.length out in
            if (dotdot <? w)%nat then
              Clean_loop fuel' rooted (tail rest)
                (take (backtrack out dotdot (w - 1)) out) dotdot
            else if negb rooted then
              let out1 := if (0 <? w)%nat then out +:+ "/" else out in
              let out2 := out1 +:+ ".." in
              Clean_loop fuel' rooted (tail rest) out2 (String.length out2)
            else Clean_loop fuel' rooted (tail rest) out dotdot
          else
            let w := String.length out in
            let out1 :=
              if (rooted && negb (w =? 1)%nat) || (negb rooted && negb (w =? 0)%nat)
              then out +:+ "/" else out in
            let '(e, r) := span_elem path in
            Clean_loop fuel' rooted r (out1 +:+ e) dotdot
      end
  end.

(** [Clean] returns the shortest path name equivalent to [path] by purely
    lexical processing. *)
Definition Clean (path : string) : string :=
  if is_empty path then "."
  else
    let rooted := head_is Separator path in
    let out :=
      if rooted then Clean_loop (String.length path) true (tail path) "/" 1
      else Clean_loop (String.length path) false path "" 0 in
    if is_empty out then "." else out.

(** [Join(dir, name)]. *)
Definition Join (dir name : string) : string :=
  if negb (is_empty dir) then Clean (dir +:+ "/" +:+ name)
  else if negb (is_empty name) then Clean name
  else "".

(** [Split] splits [path] immediately following the final separator. *)
Definition Split (path : string) : string * string :=
  match split_last Separator path with
  | Some (dir, file) => (dir, file)
  | None => ("", path)
  end.

(** *** [Glob] *)

(** [hasMeta] reports whether [path] contains any of the magic characters
    recognized by [Match]. *)
Definition hasMeta (path : string) : bool := contains_any path "*?[\".

(** [cleanGlobPath] prepares [path] for glob matching. *)
Definition cleanGlobPath (path : string) : string :=
  if is_empty path then "."
  else if String.eqb path "/" then path
  else take (String.length path - 1) path.

(** What [Glob] asks the operating system: [os.Lstat] (does it
    succeed?), [os.Stat] followed by [IsDir] ([None] when [Stat] fails),
    and [os.Open] followed by [Readdirnames] ([None] when [Open]
    fails). *)
Record FsView := {
  lstat : string -> bool;
  stat_is_dir : string -> option bool;
  readdirnames : string -> option (list string);
}.

Section Glob.

Variable os : FsView.

(** The loop of [glob] over the sorted names of a directory. *)
Fixpoint glob_names (dir pattern : string) (names : list string)
    (m : list string) : list string * option error :=
  match names with
  | [] => (m, None)
  | n :: names' =>
      match Match pattern n with
      | (_, Some e) => (m, Some e)
      | (matched, None) =>
          glob_names dir pattern names'
            (if matched then m ++ [Join dir n] else m)
      end
  end.

(** [glob] searches for files matching [pattern] in the directory [dir]
    and appends them to [matches]; I/O errors are ignored. *)
Definition glob (dir pattern : string) (matches : list string)
    : list string * option error :=
  match stat_is_dir os dir with
  | None => (matches, None)
  | Some false => (matches, None)
  | Some true =>
      match readdirnames os dir with
      | None => (matches, None)
      | Some names => glob_names dir pattern (sort names) matches
      end
  end.

(** The loop of [globWithLimit] over the matches of the directory
    part. *)
Fixpoint glob_dirs (file : string) (m : list string) (matches : list string)
    : list string * option error :=
  match m with
  | [] => (matches, None)
  | d :: m' =>
      match glob d file matches with
      | (matches', Some e) => (matches', Some e)
      | (matches', None) => glob_dirs file m' matches'
      end
  end.

Definition pathSeparatorsLimit : nat := 100 * 100.

(** [globWithLimit pattern depth], with [remaining] standing for
    [pathSeparatorsLimit - depth]. *)
Fixpoint globWithLimit (remaining : nat) (pattern : string)
    : list string * option error :=
  match remaining with
  | O => ([], Some ErrBadPattern)
  | S remaining' =>
      match snd (Match pattern "") with
      | Some e => ([], Some e)
      | None =>
          if negb (hasMeta pattern) then
            if lstat os pattern then ([pattern], None) else ([], None)
          else
            let '(dir, file) := Split pattern in
            let dir := cleanGlobPath dir in
            if negb (hasMeta dir) then glob dir file []
            else if String.eqb dir pattern then ([], Some ErrBadPattern)
            else
              match globWithLimit remaining' dir with
              | (_, Some e) => ([], Some e)
              | (m, None) => glob_dirs file m []
              end
      end
  end.

(** [Glob] returns the names of all files matching [pattern]. *)
Definition Glob (pattern : string) : list string * option error :=
  globWithLimit pathSeparatorsLimit pattern.

End Glob.

End Filepath.

(** ** A Unix file system

    The collaborator behind [os.Lstat], [os.Stat], [os.Open], [os.Remove] and
    [os.RemoveAll]: a tree of directories and files, kept as a finite map
    from the list of names leading to a node (from the root) to its kind.
    There are no symbolic links and no permissions. *)
Module Unix.

Import GoString.

Inductive kind := File | Dir.

Global Instance kind_eq_dec : EqDecision kind.
Proof. solve_decision. Defined.

Inductive errno := ENOENT | ENOTDIR | ENOTEMPTY | EINVAL | EBUSY.

Global Instance errno_eq_dec : EqDecision errno.
Proof. solve_decision. Defined.

Definition errno_message (e : errno) : string :=
  match e with
  | ENOENT => "no such file or directory"
  | ENOTDIR => "not a directory"
  | ENOTEMPTY => "directory not empty"
  | EINVAL => "invalid argument"
  | EBUSY => "device or resource busy"
  end.

(** The message of an [*os.PathError]. *)
Definition PathError (op path : string) (e : errno) : error :=
  op +:+ " " +:+ path +:+ ": " +:+ errno_message e.

Record FS := {
  nodes : gmap (list string) kind;
  cwd : list string;
}.

(** The names between the separators of [path]: ["a/b"] has two,
    ["/a"] an empty one and ["a"], ["a/"] has ["a"] and an empty one. *)
Fixpoint components (path : string) : list string :=
  match path with
  | EmptyString => [""]
  | String c rest =>
      if Ascii.eqb c "/" then "" :: components rest
      else
        match components rest with
        | n :: ns => String c n :: ns
        | [] => [String c ""]
        end
  end.

Definition parent (p : list string) : list string := removelast p.

(** Path resolution, one name at a time from [cur]; a name is looked up
    in a directory only. *)
Fixpoint walk (m : gmap (list string) kind) (cur : list string)
    (names : list string) : errno + list string :=
  match names with
  | [] => match m !! cur with Some _ => inr cur | None => inl ENOENT end
  | n :: names' =>
      match m !! cur with
      | None => inl ENOENT
      | Some File => inl ENOTDIR
      | Some Dir =>
          if String.eqb n "" || String.eqb n "." then walk m cur names'
          else if String.eqb n ".." then walk m (parent cur) names'
          else walk m (cur ++ [n]) names'
      end
  end.

Definition resolve (fs : FS) (path : string) : errno + list string :=
  if is_empty path then inl ENOENT
  else
    walk (nodes fs)
      (if Filepath.head_is "/" path then [] else cwd fs)
      (components path).

(** The names in the directory [p]. *)
Definition children (m : gmap (list string) kind) (p : list string) : list string :=
  omap (fun k =>
          match last k with
          | Some n => if decide (k = p ++ [n]) then Some n else None
          | None => None
          end)
       (map_to_list m).*1.

Definition view (fs : FS) : Filepath.FsView := {|
  Filepath.lstat path :=
    match resolve fs path with inr _ => true | inl _ => false end;
  Filepath.stat_is_dir path :=
    match resolve fs path with
    | inr p => match nodes fs !! p with
               | Some Dir => Some true
               | Some File => Some false
               | None => None
               end
    | inl _ => None
    end;
  Filepath.readdirnames path :=
    match resolve fs path with
    | inr p => match nodes fs !! p with
               | Some Dir => Some (children (nodes fs) p)
               | _ => None
               end
    | inl _ => None
    end;
|}.

(** [filepath.Glob] on this file system. *)
Definition Glob (pattern : string) (fs : FS) : list string * option error :=
  Filepath.Glob (view fs) pattern.

(** Whether the last name of [path] is [.] or [..]; [unlink] and [rmdir]
    refuse such a path. *)
Definition last_is_dot (path : string) : bool :=
  match last (components path) with
  | Some n => String.eqb n "." || String.eqb n ".."
  | None => false
  end.

Definition set_nodes (fs : FS) (m : gmap (list string) kind) : FS :=
  {| nodes := m; cwd := cwd fs |}.

(** [unlink(2)], then [rmdir(2)] when the first fails, as [os.Remove]
    does: a file or an empty directory is removed. *)
Definition remove (name : string) (fs : FS) : FS * option errno :=
  match resolve fs name with
  | inl e => (fs, Some e)
  | inr p =>
      match nodes fs !! p with
      | None => (fs, Some ENOENT)
      | Some File => (set_nodes fs (delete p (nodes fs)), None)
      | Some Dir =>
          if last_is_dot name then (fs, Some EINVAL)
          else if decide (p = []) then (fs, Some EBUSY)
          else if decide (children (nodes fs) p = []) then
            (set_nodes fs (delete p (nodes fs)), None)
          else (fs, Some ENOTEMPTY)
      end
  end.

(** [os.Remove]. *)
Definition Remove (name : string) (fs : FS) : FS * option error :=
  match remove name fs with
  | (fs', None) => (fs', None)
  | (fs', Some e) => (fs', Some (PathError "remove" name e))
  end.

(** [endsWithDot] of [os.RemoveAll]. *)
Definition endsWithDot (path : string) : bool :=
  String.eqb path "." ||
  (let n := String.length path in
   (2 <=? n)%nat && String.eqb (drop (n - 2) path) "/.").

(** The nodes that are not [p] or below it. *)
Definition without_subtree (p : list string) (m : gmap (list string) kind)
    : gmap (list string) kind :=
  filter (fun kv => ¬ p `prefix_of` kv.1) m.

(** [os.RemoveAll] removes [path] and any children it contains; a path
    that does not exist is no error.  The root directory itself stays. *)
Definition RemoveAll (path : string) (fs : FS) : FS * option error :=
  if is_empty path then (fs, None)
  else if endsWithDot path then (fs, Some (PathError "RemoveAll" path EINVAL))
  else
    match resolve fs path with
    | inl ENOENT => (fs, None)
    | inl e => (fs, Some (PathError "remove" path e))
    | inr p =>
        if last_is_dot path then (fs, Some (PathError "remove" path EINVAL))
        else if decide (p = []) then
          (set_nodes fs (<[ [] := Dir ]> (without_subtree [] (nodes fs))),
           Some (PathError "unlinkat" path EBUSY))
        else (set_nodes fs (without_subtree p (nodes fs)), None)
    end.

(** Building a file system from a listing of absolute paths; the
    directories on the way to a node are made with it. *)
Fixpoint mkdir_all (p : list string) (m : gmap (list string) kind)
    (names : list string) : gmap (list string) kind :=
  match names with
  | [] => <[ p := Dir ]> m
  | n :: names' => mkdir_all (p ++ [n]) (<[ p := Dir ]> m) names'
  end.

Definition names_of (path : string) : list string :=
  filter (fun n => n ≠ "") (components path).

Definition add_node (k : kind) (path : string) (m : gmap (list string) kind)
    : gmap (list string) kind :=
  let p := names_of path in
  <[ p := k ]> (mkdir_all [] m (removelast p)).

Definition mkfs (dirs files : list string) : FS :=
  {| nodes := foldr (add_node File) (foldr (add_node Dir) {[ [] := Dir ]} dirs) files;
     cwd := [] |}.

End Unix.

(** ** The command's collaborators *)

(** The flags of the command line: [index, i], [trace, t] and [yes, y]. *)
Record Context := {
  flag_index : bool;
  flag_trace : bool;
  flag_yes : bool;
}.

(** [ctx.Bool(name)]. *)
Definition ctx_Bool (ctx : Context) (name : string) : bool :=
  if String.eqb name "index" then flag_index ctx
  else if String.eqb name "trace" then flag_trace ctx
  else if String.eqb name "yes" then flag_yes ctx
  else false.

(** What the command reads from [*config.Config]. *)
Record Config := {
  CachePath : string;
  SidecarPath : string;
  AlbumsPath : string;
  AdminPassword : string;
}.

Inductive Level := TraceLevel | InfoLevel | WarnLevel | ErrorLevel.

(** An argument of a log format. *)
Inductive Arg :=
| ArgInt (n : nat)
| ArgError (e : error)
| ArgDuration (d : Z).

(** What the command does to the outside, with the answer it got. *)
Inductive Obs :=
| ConfigInit (r : option error)
| ConfigShutdown
| SetDbProvider
| LogSetLevel (l : Level)
| Log (l : Level) (format : string) (args : list Arg)
| Print (s : string)
| PromptRun (label : string) (r : string * option error)
| TimeNow (t : Z)
| FilepathGlob (pattern : string) (r : list string * option error)
| OsRemove (name : string) (r : option error)
| OsRemoveAll (name : string) (r : option error)
| TablesDrop (r : option error)
| MigrateDb (dropDeprecated runFailed : bool) (r : option error)
| AdminInitPassword (password : string) (r : option error).

(** The collaborators, as operations on a state of the outside world.
    [tables.Drop], [entity.MigrateDb] and [Admin.InitPassword] are called
    as statements: whatever they return is dropped.  The interface lets
    them report an error, so that a collaborator that fails can be told
    from one that works; a panic inside a collaborator is not modelled. *)
Class Env (W : Type) := {
  config_NewConfig : Context -> Config;
  config_Init : W -> W * option error;
  config_Shutdown : W -> W;
  entity_SetDbProvider : W -> W;
  log_SetLevel : Level -> W -> W;
  prompt_Run : string -> W -> W * (string * option error);
  time_Now : W -> W * Z;
  filepath_Glob : string -> W -> W * (list string * option error);
  os_Remove : string -> W -> W * option error;
  os_RemoveAll : string -> W -> W * option error;
  tables_Drop : W -> W * option error;
  entity_MigrateDb : bool -> bool -> W -> W * option error;
  admin_InitPassword : string -> W -> W * option error;
}.

(** ** The monad of the command: state of the world and trace *)
Definition M (W A : Type) : Type := W -> list Obs * W * A.

Global Instance M_ret {W} : MRet (M W) := fun A a w => ([], w, a).

Global Instance M_bind {W} : MBind (M W) := fun A B k m w =>
  let '(t1, w1, a) := m w in
  let '(t2, w2, b) := k a w1 in
  (t1 ++ t2, w2, b).

(** An operation that answers: the world moves and the answer is
    recorded. *)
Definition call {W A} (f : W -> W * A) (obs : A -> Obs) : M W A :=
  fun w => let '(w', a) := f w in ([obs a], w', a).

(** An operation that answers: the world moves, the answer is recorded
    and dropped. *)
Definition call_ {W A} (f : W -> W * A) (obs : A -> Obs) : M W unit :=
  fun w => let '(w', a) := f w in ([obs a], w', tt).

(** An operation that answers nothing. *)
Definition exec {W} (f : W -> W) (obs : Obs) : M W unit :=
  fun w => ([obs], f w, tt).

(** Output: the world is not consulted. *)
Definition emit {W} (obs : Obs) : M W unit := fun w => ([obs], w, tt).

Definition trace_of {W A} (r : list Obs * W * A) : list Obs := r.1.1.
Definition world_of {W A} (r : list Obs * W * A) : W := r.1.2.
Definition value_of {W A} (r : list Obs * W * A) : A := r.2.

Definition newline : string := String "010"%char "".

(** ** [reset.go] *)
Section Reset.

Context {W : Type} {E : Env W}.

Definition logf (l : Level) (format : string) (args : list Arg) : M W unit :=
  emit (Log l format args).

Definition now : M W Z := call time_Now TimeNow.

(** [time.Since(start)]. *)
Definition since (start : Z) : M W Z :=
  t ← now; mret (t - start)%Z.

Definition Glob (pattern : string) : M W (list string * option error) :=
  call (filepath_Glob pattern) (FilepathGlob pattern).

Definition Remove (name : string) : M W (option error) :=
  call (os_Remove name) (OsRemove name).

Definition RemoveAll (name : string) : M W (option error) :=
  call (os_RemoveAll name) (OsRemoveAll name).

Definition Run (label : string) : M W (string * option error) :=
  call (prompt_Run label) (PromptRun label).

(** The loop [for _, name := range matches] of the four removal stages,
    over the removal primitive of the stage. *)
Fixpoint remove_each (rm : string -> M W (option error)) (matches : list string)
    : M W unit :=
  match matches with
  | [] => mret tt
  | name :: rest =>
      err ← rm name;
      match err with
      | Some _ => emit (Print "E")
      | None => emit (Print ".")
      end;;
      remove_each rm rest
  end.

(** [resetIndexDb] resets the index database schema. *)
Definition resetIndexDb (conf : Config) : M W unit :=
  start ← now;
  logf InfoLevel "dropping existing tables" [];;
  call_ tables_Drop TablesDrop;;
  logf InfoLevel "restoring default schema" [];;
  call_ (entity_MigrateDb true false) (MigrateDb true false);;
  (if negb (String.eqb (AdminPassword conf) "") then
     logf InfoLevel "restoring initial admin password" [];;
     call_ (admin_InitPassword (AdminPassword conf))
           (AdminInitPassword (AdminPassword conf))
   else mret tt);;
  d ← since start;
  logf InfoLevel "database reset completed in %s" [ArgDuration d].

(** [resetCache] removes all cache files and folders. *)
Definition resetCache (conf : Config) : M W unit :=
  start ← now;
  '(matches, err) ← Glob (Regexp.QuoteMeta (CachePath conf) +:+ "/**");
  match err with
  | Some e => logf ErrorLevel "reset: %s (find cache files)" [ArgError e]
  | None =>
      if (0 <? length matches)%nat then
        logf InfoLevel "clearing cache" [];;
        remove_each RemoveAll matches;;
        emit (Print newline);;
        d ← since start;
        logf InfoLevel "removed cache files [%s]" [ArgDuration d]
      else logf InfoLevel "found no cache files" []
  end.

(** [resetSidecarJson] removes generated *.json sidecar files. *)
Definition resetSidecarJson (conf : Config) : M W unit :=
  start ← now;
  '(matches, err) ← Glob (Regexp.QuoteMeta (SidecarPath conf) +:+ "/**/*.json");
  match err with
  | Some e => logf ErrorLevel "reset: %s (find *.json sidecar files)" [ArgError e]
  | None =>
      if (0 <? length matches)%nat then
        logf InfoLevel "removing %d *.json sidecar files" [ArgInt (length matches)];;
        remove_each Remove matches;;
        emit (Print newline);;
        d ← since start;
        logf InfoLevel "removed *.json sidecar files [%s]" [ArgDuration d]
      else logf InfoLevel "found no *.json sidecar files" []
  end.

(** [resetSidecarYaml] removes generated *.yml files. *)
Definition resetSidecarYaml (conf : Config) : M W unit :=
  start ← now;
  '(matches, err) ← Glob (Regexp.QuoteMeta (SidecarPath conf) +:+ "/**/*.yml");
  match err with
  | Some e => logf ErrorLevel "reset: %s (find *.yml metadata files)" [ArgError e]
  | None =>
      if (0 <? length matches)%nat then
        logf InfoLevel "%d *.yml metadata files will be removed" [ArgInt (length matches)];;
        remove_each Remove matches;;
        emit (Print newline);;
        d ← since start;
        logf InfoLevel "removed all *.yml metadata files [%s]" [ArgDuration d]
      else logf InfoLevel "found no *.yml metadata files" []
  end.

(** The part of [resetAction] from the album prompt to the end. *)
Definition resetAlbumYaml (conf : Config) : M W (option error) :=
  r ← Run "Delete all *.yml album files?";
  match r.2 with
  | None =>
      start ← now;
      '(matches, err) ← Glob (Regexp.QuoteMeta (AlbumsPath conf) +:+ "/**/*.yml");
      match err with
      | Some e => mret (Some e)
      | None =>
          (if (0 <? length matches)%nat then
             logf InfoLevel "%d *.yml album files will be removed" [ArgInt (length matches)];;
             remove_each Remove matches;;
             emit (Print newline);;
             d ← since start;
             logf InfoLevel "removed all *.yml album files [%s]" [ArgDuration d]
           else logf InfoLevel "found no *.yml album files" []);;
          mret None
      end
  | Some _ =>
      logf InfoLevel "keeping *.yml album files" [];;
      mret None
  end.

(** The body of [resetAction] once [conf.Init] has succeeded, up to the
    deferred [conf.Shutdown]. *)
Definition resetAction_body (ctx : Context) (conf : Config) : M W (option error) :=
  exec entity_SetDbProvider SetDbProvider;;
  (if negb (ctx_Bool ctx "yes") then
     logf WarnLevel "This will delete and recreate your index database after confirmation" [];;
     if negb (ctx_Bool ctx "index") then
       logf WarnLevel "You will be asked next if you also want to remove cache and sidecar files" []
     else mret tt
   else mret tt);;
  (if ctx_Bool ctx "trace" then
     exec (log_SetLevel TraceLevel) (LogSetLevel TraceLevel);;
     logf InfoLevel "reset: enabled trace mode" []
   else mret tt);;
  let resetIndex := ctx_Bool ctx "yes" in
  (* Show prompt? *)
  resetIndex ←
    (if negb resetIndex then
       r ← Run "Delete and recreate index database?";
       match r.2 with
       | None => mret true
       | Some _ => logf InfoLevel "keeping index database" [] ;; mret resetIndex
       end
     else mret resetIndex);
  (* Reset index? *)
  (if resetIndex : bool then resetIndexDb conf else mret tt);;
  (* Reset index only? *)
  if ctx_Bool ctx "index" || ctx_Bool ctx "yes" then mret None
  else
    (* Clear cache. *)
    r ← Run "Clear cache incl thumbnails?";
    match r.2 with
    | None => resetCache conf
    | Some _ => logf InfoLevel "keeping cache files" []
    end;;
    (* *.json sidecar files. *)
    r ← Run "Delete all *.json sidecar files?";
    match r.2 with
    | None => resetSidecarJson conf
    | Some _ => logf InfoLevel "keeping *.json sidecar files" []
    end;;
    (* *.yml metadata files. *)
    r ← Run "Delete all *.yml metadata files?";
    match r.2 with
    | None => resetSidecarYaml conf
    | Some _ => logf InfoLevel "keeping *.yml metadata files" []
    end;;
    (* *.yml album files. *)
    resetAlbumYaml conf.

(** [resetAction] resets the index and removes sidecar files after
    confirmation.  [context.WithCancel] and the deferred [cancel] do
    nothing that is observed; the deferred [conf.Shutdown] runs once
    [conf.Init] has succeeded. *)
Definition resetAction (ctx : Context) : M W (option error) :=
  let conf := config_NewConfig ctx in
  err ← call config_Init ConfigInit;
  match err with
  | Some e => mret (Some e)
  | None =>
      r ← resetAction_body ctx conf;
      exec config_Shutdown ConfigShutdown;;
      mret r
  end.

End Reset.

(** ** A scripted environment

    Every collaborator answers from a script: the test double for the
    prompt, the enumerator and the removal primitives.  An exhausted script
    answers end-of-input to a prompt, no match to an enumeration and
    success to a removal; the database answers [db_error] to every
    call. *)
Module Scripted.

Record Script := {
  conf : Config;
  init : option error;
  answers : list (string * option error);
  globs : list (list string * option error);
  removals : list (option error);
  db_error : option error;
  clock : Z;
}.

Definition set_answers (s : Script) (a : list (string * option error)) : Script :=
  {| conf := conf s; init := init s; answers := a; globs := globs s;
     removals := removals s; db_error := db_error s; clock := clock s |}.

Definition set_globs (s : Script) (g : list (list string * option error)) : Script :=
  {| conf := conf s; init := init s; answers := answers s; globs := g;
     removals := removals s; db_error := db_error s; clock := clock s |}.

Definition set_removals (s : Script) (r : list (option error)) : Script :=
  {| conf := conf s; init := init s; answers := answers s; globs := globs s;
     removals := r; db_error := db_error s; clock := clock s |}.

Definition tick (s : Script) : Script :=
  {| conf := conf s; init := init s; answers := answers s; globs := globs s;
     removals := removals s; db_error := db_error s; clock := (clock s + 1)%Z |}.

Definition run_prompt (s : Script) : Script * (string * option error) :=
  match answers s with
  | a :: rest => (set_answers s rest, a)
  | [] => (s, ("", Some "^D"))
  end.

Definition run_glob (s : Script) : Script * (list string * option error) :=
  match globs s with
  | g :: rest => (set_globs s rest, g)
  | [] => (s, ([], None))
  end.

Definition run_remove (s : Script) : Script * option error :=
  match removals s with
  | r :: rest => (set_removals s rest, r)
  | [] => (s, None)
  end.

(** The configuration does not depend on the flags here; it is that of
    [default_conf]. *)
Definition default_conf : Config :=
  {| CachePath := "/data/cache"; SidecarPath := "/data/sidecar";
     AlbumsPath := "/data/albums"; AdminPassword := "secret123" |}.

Global Instance env : Env Script := {|
  config_NewConfig _ := default_conf;
  config_Init s := (s, init s);
  config_Shutdown s := s;
  entity_SetDbProvider s := s;
  log_SetLevel _ s := s;
  prompt_Run _ s := run_prompt s;
  time_Now s := (tick s, clock s);
  filepath_Glob _ s := run_glob s;
  os_Remove _ s := run_remove s;
  os_RemoveAll _ s := run_remove s;
  tables_Drop s := (s, db_error s);
  entity_MigrateDb _ _ s := (s, db_error s);
  admin_InitPassword _ s := (s, db_error s);
|}.

Definition script (a : list (string * option error))
    (g : list (list string * option error)) (r : list (option error)) : Script :=
  {| conf := default_conf; init := None; answers := a; globs := g;
     removals := r; db_error := None; clock := 0 |}.

(** The same with a database that fails. *)
Definition with_db_error (e : error) (s : Script) : Script :=
  {| conf := conf s; init := init s; answers := answers s; globs := globs s;
     removals := removals s; db_error := Some e; clock := clock s |}.

End Scripted.

(** ** The command on a Unix file system *)
Module World.

(** What arrives at the terminal for one prompt. *)
Inductive Input :=
| Line (s : string)
| Interrupt
| EOF.

(** [promptui.ErrAbort], [ErrInterrupt] and [ErrEOF]. *)
Definition ErrAbort : error := "".
Definition ErrInterrupt : error := "^C".
Definition ErrEOF : error := "^D".

(** [promptui.Prompt.Run] with [IsConfirm] and no default: only the
    input [y] (in either case) is no error. *)
Definition confirm (i : Input) : string * option error :=
  match i with
  | Line s =>
      if String.eqb s "y" || String.eqb s "Y" then (s, None)
      else (s, Some ErrAbort)
  | Interrupt => ("", Some ErrInterrupt)
  | EOF => ("", Some ErrEOF)
  end.

Inductive schema := NoTables | DefaultSchema.

(** Modelled from the spec: the entity and schema registry with its
    operations [dropAll(handle)], [migrate(force, quiet)] and
    [initAdminPassword(value)] is not part of the sources.  Dropping
    the tables loses the stored credential; initializing the password
    sets the administrator credential to the value.  A database that
    is not [online] fails every operation and stays as it is. *)
Record DB := {
  online : bool;
  db_schema : schema;
  admin_credential : option string;
}.

Definition ErrOffline : error := "database is not connected".

Definition dropAll (d : DB) : DB * option error :=
  if online d then
    ({| online := true; db_schema := NoTables; admin_credential := None |}, None)
  else (d, Some ErrOffline).

Definition migrate (d : DB) : DB * option error :=
  if online d then
    ({| online := true; db_schema := DefaultSchema;
        admin_credential := admin_credential d |}, None)
  else (d, Some ErrOffline).

Definition initAdminPassword (value : string) (d : DB) : DB * option error :=
  if online d then
    ({| online := true; db_schema := db_schema d;
        admin_credential := Some value |}, None)
  else (d, Some ErrOffline).

Record world := {
  w_conf : Config;
  w_init : option error;
  w_fs : Unix.FS;
  w_db : DB;
  w_stdin : list Input;
  w_clock : Z;
  w_level : Level;
}.

Definition set_fs (w : world) (fs : Unix.FS) : world :=
  {| w_conf := w_conf w; w_init := w_init w; w_fs := fs; w_db := w_db w;
     w_stdin := w_stdin w; w_clock := w_clock w; w_level := w_level w |}.

Definition set_db (w : world) (d : DB) : world :=
  {| w_conf := w_conf w; w_init := w_init w; w_fs := w_fs w; w_db := d;
     w_stdin := w_stdin w; w_clock := w_clock w; w_level := w_level w |}.

Definition set_stdin (w : world) (i : list Input) : world :=
  {| w_conf := w_conf w; w_init := w_init w; w_fs := w_fs w; w_db := w_db w;
     w_stdin := i; w_clock := w_clock w; w_level := w_level w |}.

Definition set_clock (w : world) (t : Z) : world :=
  {| w_conf := w_conf w; w_init := w_init w; w_fs := w_fs w; w_db := w_db w;
     w_stdin := w_stdin w; w_clock := t; w_level := w_level w |}.

Definition set_level (w : world) (l : Level) : world :=
  {| w_conf := w_conf w; w_init := w_init w; w_fs := w_fs w; w_db := w_db w;
     w_stdin := w_stdin w; w_clock := w_clock w; w_level := l |}.

Definition run_prompt (w : world) : world * (string * option error) :=
  match w_stdin w with
  | i :: rest => (set_stdin w rest, confirm i)
  | [] => (w, confirm EOF)
  end.

Definition on_fs {A} (f : Unix.FS -> Unix.FS * A) (w : world) : world * A :=
  let '(fs', a) := f (w_fs w) in (set_fs w fs', a).

Definition on_db {A} (f : DB -> DB * A) (w : world) : world * A :=
  let '(d', a) := f (w_db w) in (set_db w d', a).

Section Instance.

(** The configuration that [config.NewConfig] builds from the flags
    and the environment of the process. *)
Variable the_conf : Config.

Definition env : Env world := {|
  config_NewConfig _ := the_conf;
  config_Init w := (w, w_init w);
  config_Shutdown w := w;
  entity_SetDbProvider w := w;
  log_SetLevel l w := set_level w l;
  prompt_Run _ w := run_prompt w;
  time_Now w := (set_clock w (w_clock w + 1)%Z, w_clock w);
  filepath_Glob pattern w := (w, Unix.Glob pattern (w_fs w));
  os_Remove name := on_fs (Unix.Remove name);
  os_RemoveAll name := on_fs (Unix.RemoveAll name);
  tables_Drop := on_db dropAll;
  entity_MigrateDb _ _ := on_db migrate;
  admin_InitPassword value := on_db (initAdminPassword value);
|}.

End Instance.

Definition boot (c : Config) (fs : Unix.FS) (stdin : list Input) : world :=
  {| w_conf := c; w_init := None; w_fs := fs;
     w_db := {| online := true; db_schema := DefaultSchema;
                admin_credential := Some "old" |};
     w_stdin := stdin; w_clock := 0; w_level := InfoLevel |}.

(** The command on a world. *)
Definition reset (ctx : Context) (w : world) : list Obs * world * option error :=
  resetAction (E := env (w_conf w)) ctx w.

End World.

(** ** Reading a trace *)

(** The labels of the prompts that were shown, in order. *)
Definition prompts (tr : list Obs) : list string :=
  omap (fun o => match o with PromptRun l _ => Some l | _ => None end) tr.

Definition is_prompt (o : Obs) : bool :=
  match o with PromptRun _ _ => true | _ => false end.

(** Enumeration and removal: what the four file stages do to the file
    system. *)
Definition is_file_op (o : Obs) : bool :=
  match o with
  | FilepathGlob _ _ | OsRemove _ _ | OsRemoveAll _ _ => true
  | _ => false
  end.

(** The calls into the entity and schema registry. *)
Definition is_db_op (o : Obs) : bool :=
  match o with
  | TablesDrop _ | MigrateDb _ _ _ | AdminInitPassword _ _ => true
  | _ => false
  end.

(** The observations up to the next prompt. *)
Fixpoint until_prompt (tr : list Obs) : list Obs :=
  match tr with
  | [] => []
  | o :: tr' => if is_prompt o then [] else o :: until_prompt tr'
  end.

(** The trace cut at its prompts: each prompt with its answer and what
    happened between it and the next prompt (or the end). *)
Fixpoint segments (tr : list Obs) : list (string * (string * option error) * list Obs) :=
  match tr with
  | [] => []
  | PromptRun l r :: tr' => (l, r, until_prompt tr') :: segments tr'
  | _ :: tr' => segments tr'
  end.

(** The removals that were attempted: the name and whether it
    succeeded. *)
Definition attempts (tr : list Obs) : list (string * bool) :=
  omap (fun o =>
          match o with
          | OsRemove n r | OsRemoveAll n r => Some (n, bool_decide (r = None))
          | _ => None
          end) tr.

(** The progress markers that were printed. *)
Definition markers (tr : list Obs) : list string :=
  omap (fun o =>
          match o with
          | Print s => if String.eqb s "." || String.eqb s "E" then Some s else None
          | _ => None
          end) tr.

Definition marker (succeeded : bool) : string :=
  if succeeded then "." else "E".

(** The paths of the MatchSets that enumeration produced. *)
Definition enumerated (tr : list Obs) : list string :=
  concat (omap (fun o =>
                  match o with
                  | FilepathGlob _ (ms, None) => Some ms
                  | _ => None
                  end) tr).

Definition count_marker (m : string) (tr : list Obs) : nat :=
  length (filter (fun s => s = m) (markers tr)).

(** The names given to [os.Remove] and to [os.RemoveAll]. *)
Definition removed_single (tr : list Obs) : list string :=
  omap (fun o => match o with OsRemove n _ => Some n | _ => None end) tr.

Definition removed_recursive (tr : list Obs) : list string :=
  omap (fun o => match o with OsRemoveAll n _ => Some n | _ => None end) tr.

(** The errors that enumeration returned. *)
Definition glob_errors (tr : list Obs) : list error :=
  omap (fun o => match o with FilepathGlob _ (_, Some e) => Some e | _ => None end) tr.

(** The five stages and their texts in [resetAction]. *)
Inductive Stage := Index | Cache | SidecarJson | SidecarYaml | AlbumYaml.

Definition stage_index (st : Stage) : nat :=
  match st with
  | Index => 0 | Cache => 1 | SidecarJson => 2 | SidecarYaml => 3 | AlbumYaml => 4
  end.

Definition stage_label (st : Stage) : string :=
  match st with
  | Index => "Delete and recreate index database?"
  | Cache => "Clear cache incl thumbnails?"
  | SidecarJson => "Delete all *.json sidecar files?"
  | SidecarYaml => "Delete all *.yml metadata files?"
  | AlbumYaml => "Delete all *.yml album files?"
  end.

Definition stage_keeping (st : Stage) : string :=
  match st with
  | Index => "keeping index database"
  | Cache => "keeping cache files"
  | SidecarJson => "keeping *.json sidecar files"
  | SidecarYaml => "keeping *.yml metadata files"
  | AlbumYaml => "keeping *.yml album files"
  end.

Definition all_stages : list Stage :=
  [Index; Cache; SidecarJson; SidecarYaml; AlbumYaml].

(** What follows the segment of a stage in the trace: the deferred
    [conf.Shutdown] after the last one. *)
Definition stage_end (st : Stage) : list Obs :=
  match st with
  | AlbumYaml => [ConfigShutdown]
  | _ => []
  end.

(** ** Reading a pattern *)

(** [name] without the leading [p], when it starts with it. *)
Fixpoint strip_prefix (p name : string) : option string :=
  match p, name with
  | EmptyString, _ => Some name
  | String a p', String b name' =>
      if Ascii.eqb a b then strip_prefix p' name' else None
  | String _ _, EmptyString => None
  end.

(** The bytes that [matchChunk] does not take literally. *)
Definition chunk_meta (b : ascii) : bool :=
  Filepath.byte_is b "[" || Filepath.byte_is b "?" || Filepath.byte_is b "\".

(** One round of the [Pattern] loop of [Match], with [Match] itself for
    the rounds that follow. *)
Definition Match_body (pattern name : string) : bool * option error :=
  if GoString.is_empty pattern then (GoString.is_empty name, None)
  else
    let '(star, chunk, pattern') := Filepath.scanChunk pattern in
    if star && GoString.is_empty chunk then
      (negb (GoString.contains_byte Filepath.Separator name), None)
    else
      let '(t, ok, err) := Filepath.matchChunk chunk name in
      if ok && (GoString.is_empty t || negb (GoString.is_empty pattern'))
      then Filepath.Match pattern' t
      else
        match err with
        | Some e => (false, Some e)
        | None =>
            match
              (if star
               then Filepath.starLoop chunk (GoString.is_empty pattern') name
               else Filepath.StarNone)
            with
            | Filepath.StarFound t' => Filepath.Match pattern' t'
            | Filepath.StarError e => (false, Some e)
            | Filepath.StarNone => (false, Filepath.remainder pattern')
            end
        end.

(** ** The shape of a stage's trace *)

(** What the schema reset does with the configured password. *)
Definition password_obs (conf : Config) (r : option error) : list Obs :=
  if String.eqb (AdminPassword conf) "" then []
  else [Log InfoLevel "restoring initial admin password" [];
        AdminInitPassword (AdminPassword conf) r].

(** The removal loop over the names [ms] with the outcomes [rs]: each
    removal is followed by its marker. *)
Fixpoint loop_obs (rm : string -> option error -> Obs) (ms : list string)
    (rs : list (option error)) : list Obs :=
  match ms, rs with
  | n :: ms', r :: rs' =>
      rm n r :: Print (marker (bool_decide (r = None))) :: loop_obs rm ms' rs'
  | _, _ => []
  end.

(** The texts of a removal stage: the pattern it enumerates, the removal
    primitive, what it logs on an enumeration error, before the loop,
    after it, and when nothing matched. *)
Record StageText := {
  st_pattern : string;
  st_remove : string -> option error -> Obs;
  st_error : string;
  st_before : nat -> Obs;
  st_after : string;
  st_none : string;
}.

Definition cache_text (conf : Config) : StageText := {|
  st_pattern := Regexp.QuoteMeta (CachePath conf) +:+ "/**";
  st_remove := OsRemoveAll;
  st_error := "reset: %s (find cache files)";
  st_before _ := Log InfoLevel "clearing cache" [];
  st_after := "removed cache files [%s]";
  st_none := "found no cache files";
|}.

Definition json_text (conf : Config) : StageText := {|
  st_pattern := Regexp.QuoteMeta (SidecarPath conf) +:+ "/**/*.json";
  st_remove := OsRemove;
  st_error := "reset: %s (find *.json sidecar files)";
  st_before n := Log InfoLevel "removing %d *.json sidecar files" [ArgInt n];
  st_after := "removed *.json sidecar files [%s]";
  st_none := "found no *.json sidecar files";
|}.

Definition yaml_text (conf : Config) : StageText := {|
  st_pattern := Regexp.QuoteMeta (SidecarPath conf) +:+ "/**/*.yml";
  st_remove := OsRemove;
  st_error := "reset: %s (find *.yml metadata files)";
  st_before n := Log InfoLevel "%d *.yml metadata files will be removed" [ArgInt n];
  st_after := "removed all *.yml metadata files [%s]";
  st_none := "found no *.yml metadata files";
|}.

Definition album_text (conf : Config) : StageText := {|
  st_pattern := Regexp.QuoteMeta (AlbumsPath conf) +:+ "/**/*.yml";
  st_remove := OsRemove;
  st_error := "";
  st_before n := Log InfoLevel "%d *.yml album files will be removed" [ArgInt n];
  st_after := "removed all *.yml album files [%s]";
  st_none := "found no *.yml album files";
|}.

(** What a removal stage does once its MatchSet [ms] is there: nothing
    but a log line when it is empty, otherwise the loop with the outcomes
    [rs] between two log lines. *)
Definition removal_obs (tx : StageText) (t0 t1 : Z) (ms : list string)
    (rs : list (option error)) : list Obs :=
  if (0 <? length ms)%nat then
    st_before tx (length ms)
    :: loop_obs (st_remove tx) ms rs
    ++ [Print newline; TimeNow t1;
        Log InfoLevel (st_after tx) [ArgDuration (t1 - t0)]]
  else [Log InfoLevel (st_none tx) []].

(** A confirmed stage that logs an enumeration error. *)
Definition stage_obs (tx : StageText) (t0 t1 : Z) (g : list string * option error)
    (rs : list (option error)) : list Obs :=
  TimeNow t0 :: FilepathGlob (st_pattern tx) g
  :: match g.2 with
     | Some e => [Log ErrorLevel (st_error tx) [ArgError e]]
     | None => removal_obs tx t0 t1 g.1 rs
     end.

(** The confirmed album stage: an enumeration error ends it. *)
Definition album_obs (tx : StageText) (t0 t1 : Z) (g : list string * option error)
    (rs : list (option error)) : list Obs :=
  TimeNow t0 :: FilepathGlob (st_pattern tx) g
  :: match g.2 with
     | Some e => []
     | None => removal_obs tx t0 t1 g.1 rs
     end.

(** ** The trace of a session, from the answers of the collaborators *)

(** Every answer that a session can get: of the prompt, the enumeration
    and the removals of each stage, of the clock at the start and at the
    end of each stage, and of the three calls of the schema reset. *)
Record Answers := {
  a_prompt : Stage -> string * option error;
  a_glob : Stage -> list string * option error;
  a_removals : Stage -> list (option error);
  a_start : Stage -> Z;
  a_stop : Stage -> Z;
  a_drop : option error;
  a_migrate : option error;
  a_password : option error;
}.

(** The schema reset. *)
Definition index_obs (conf : Config) (a : Answers) : list Obs :=
  [TimeNow (a_start a Index);
   Log InfoLevel "dropping existing tables" [];
   TablesDrop (a_drop a);
   Log InfoLevel "restoring default schema" [];
   MigrateDb true false (a_migrate a)]
  ++ password_obs conf (a_password a)
  ++ [TimeNow (a_stop a Index);
      Log InfoLevel "database reset completed in %s"
        [ArgDuration (a_stop a Index - a_start a Index)]].

(** What a confirmed stage does. *)
Definition run_obs (st : Stage) (conf : Config) (a : Answers) : list Obs :=
  match st with
  | Index => index_obs conf a
  | Cache =>
      stage_obs (cache_text conf) (a_start a st) (a_stop a st) (a_glob a st)
        (a_removals a st)
  | SidecarJson =>
      stage_obs (json_text conf) (a_start a st) (a_stop a st) (a_glob a st)
        (a_removals a st)
  | SidecarYaml =>
      stage_obs (yaml_text conf) (a_start a st) (a_stop a st) (a_glob a st)
        (a_removals a st)
  | AlbumYaml =>
      album_obs (album_text conf) (a_start a st) (a_stop a st) (a_glob a st)
        (a_removals a st)
  end.

(** What follows the prompt of a stage: the stage when the prompt
    returned no error, the line that says what is kept otherwise. *)
Definition gate_body (st : Stage) (conf : Config) (a : Answers) : list Obs :=
  match (a_prompt a st).2 with
  | None => run_obs st conf a
  | Some _ => [Log InfoLevel (stage_keeping st) []]
  end.

(** A stage behind its prompt. *)
Definition gate_obs (st : Stage) (conf : Config) (a : Answers) : list Obs :=
  PromptRun (stage_label st) (a_prompt a st) :: gate_body st conf a.

(** What comes before the first stage. *)
Definition preamble_obs (ctx : Context) : list Obs :=
  [SetDbProvider]
  ++ (if flag_yes ctx then []
      else
        Log WarnLevel
          "This will delete and recreate your index database after confirmation" []
        :: (if flag_index ctx then []
            else
              [Log WarnLevel
                 "You will be asked next if you also want to remove cache and sidecar files"
                 []]))
  ++ (if flag_trace ctx then
        [LogSetLevel TraceLevel; Log InfoLevel "reset: enabled trace mode" []]
      else []).

(** The stages that the flags leave behind a prompt. *)
Definition flow (ctx : Context) : list Stage :=
  if flag_yes ctx then []
  else if flag_index ctx then [Index]
  else all_stages.

(** The trace of a session whose bootstrap succeeded. *)
Definition session_obs (ctx : Context) (conf : Config) (a : Answers) : list Obs :=
  ConfigInit None
  :: preamble_obs ctx
  ++ (if flag_yes ctx then index_obs conf a else [])
  ++ concat (map (fun st => gate_obs st conf a) (flow ctx))
  ++ [ConfigShutdown].

(** What such a session returns. *)
Definition session_value (ctx : Context) (a : Answers) : option error :=
  if flag_index ctx || flag_yes ctx then None
  else
    match (a_prompt a AlbumYaml).2 with
    | None => (a_glob a AlbumYaml).2
    | Some _ => None
    end.

(** The answers fit together: one outcome for each name of a
    MatchSet. *)
Definition fitting (a : Answers) : Prop :=
  forall st, length (a_removals a st) = length (a_glob a st).1.

(** The answers of [a] with those of the index stage put in. *)
Definition with_index (r : string * option error) (t0 t1 : Z)
    (r1 r2 r3 : option error) (a : Answers) : Answers :=
  {| a_prompt := fun st => match st with Index => r | _ => a_prompt a st end;
     a_glob := a_glob a;
     a_removals := a_removals a;
     a_start := fun st => match st with Index => t0 | _ => a_start a st end;
     a_stop := fun st => match st with Index => t1 | _ => a_stop a st end;
     a_drop := r1; a_migrate := r2; a_password := r3 |}.

Definition no_answers : Answers :=
  {| a_prompt := fun _ => ("", None); a_glob := fun _ => ([], None);
     a_removals := fun _ => []; a_start := fun _ => 0%Z; a_stop := fun _ => 0%Z;
     a_drop := None; a_migrate := None; a_password := None |}.

Global Instance Stage_eq_dec : EqDecision Stage.
Proof. solve_decision. Defined.

(** What ends the segment of a stage: the deferred [conf.Shutdown] after
    the last stage of the flow. *)
Definition closing (ctx : Context) (st : Stage) : list Obs :=
  if bool_decide (last (flow ctx) = Some st) then [ConfigShutdown] else [].

(** The MatchSet that a stage goes through: that of its enumeration when
    the stage is in the flow, was confirmed, and the enumeration returned
    no error. *)
Definition confirmed_matches (ctx : Context) (a : Answers) (st : Stage) : list string :=
  if bool_decide (st ∈ flow ctx) then
    match (a_prompt a st).2, (a_glob a st).2 with
    | None, None => (a_glob a st).1
    | _, _ => []
    end
  else [].

(** The text of the error line of a stage that logs an enumeration
    error. *)
Definition stage_error_text (st : Stage) : string :=
  match st with
  | Cache => "reset: %s (find cache files)"
  | SidecarJson => "reset: %s (find *.json sidecar files)"
  | SidecarYaml => "reset: %s (find *.yml metadata files)"
  | _ => ""
  end.

(** The segments of a run of gates that is closed by [tail]. *)
Fixpoint gate_segments (conf : Config) (a : Answers) (l : list Stage) (tail : list Obs)
    : list (string * (string * option error) * list Obs) :=
  match l with
  | [] => []
  | st :: l' =>
      (stage_label st, a_prompt a st,
       gate_body st conf a ++ match l' with [] => tail | _ => [] end)
      :: gate_segments conf a l' tail
  end.

(** The MatchSet of a stage that was confirmed and enumerated without
    error. *)
Definition matches_of (a : Answers) (st : Stage) : list string :=
  match (a_prompt a st).2, (a_glob a st).2 with
  | None, None => (a_glob a st).1
  | _, _ => []
  end.

(** ** Properties of single observations *)

(** Not a prompt. *)
Definition quiet (o : Obs) : Prop := is_prompt o = false.

(** Neither enumeration nor removal. *)
Definition calm (o : Obs) : Prop := is_file_op o = false.

(** Not an enumeration. *)
Definition globless (o : Obs) : Prop :=
  match o with FilepathGlob _ _ => False | _ => True end.

(** No removal, no marker, no enumeration. *)
Definition silent (o : Obs) : Prop :=
  attempts [o] = [] /\ markers [o] = [] /\ enumerated [o] = [].

(** [rm] is a removal primitive: it attempts the name it is given. *)
Definition removal (rm : string -> option error -> Obs) : Prop :=
  forall n r, attempts [rm n r] = [(n, bool_decide (r = None))] /\
              markers [rm n r] = [] /\ enumerated [rm n r] = [].

Definition plain_text (tx : StageText) : Prop :=
  (forall n r, globless (st_remove tx n r)) /\ (forall n, globless (st_before tx n)).

Definition text_ok (tx : StageText) : Prop :=
  removal (st_remove tx) /\ forall n, silent (st_before tx n).

(** Every attempted name was enumerated, in order, and every attempt has
    its marker. *)
Definition balanced (tr : list Obs) : Prop :=
  map fst (attempts tr) = enumerated tr /\
  markers tr = map (fun x => marker x.2) (attempts tr).


(** The values that [Admin.InitPassword] was called with. *)
Definition init_passwords (tr : list Obs) : list string :=
  omap (fun o => match o with AdminInitPassword p _ => Some p | _ => None end) tr.

(** The calls into the entity and schema registry, with what they
    reported. *)
Definition db_calls (tr : list Obs) : list Obs :=
  omap (fun o => if is_db_op o then Some o else None) tr.

(** ** Sessions to run *)

Definition no_flags : Context :=
  {| flag_index := false; flag_trace := false; flag_yes := false |}.

Definition only_yes : Context :=
  {| flag_index := false; flag_trace := false; flag_yes := true |}.

Definition only_index : Context :=
  {| flag_index := true; flag_trace := true; flag_yes := false |}.

Definition sidecar_conf : Config :=
  {| CachePath := "/data/cache"; SidecarPath := "/data/sidecar";
     AlbumsPath := "/data/albums"; AdminPassword := "secret123" |}.

(** The sidecar root of the scenario: [x/y/a.json], [b.json] and
    [c.txt]. *)
Definition sidecar_fs : Unix.FS :=
  Unix.mkfs []
    ["/data/sidecar/x/y/a.json"; "/data/sidecar/b.json"; "/data/sidecar/c.txt"].


(** A sidecar directory whose name ends in [.json] and that is not empty,
    and a cache with a subtree. *)
Definition dir_json_fs : Unix.FS :=
  Unix.mkfs []
    ["/data/sidecar/x/d.json/inner.txt"; "/data/sidecar/x/e.json";
     "/data/cache/t/1.jpg"; "/data/cache/u.jpg"].

Definition yes : string * option error := ("y", None).
Definition no : string * option error := ("n", Some World.ErrAbort).

(** Every prompt is confirmed, and the enumeration of the album stage
    fails. *)
Definition album_fails : Scripted.Script :=
  Scripted.script [yes; yes; yes; yes; yes]
    [([], None); ([], None); ([], None); ([], Some ErrBadPattern)] [].

(** Every prompt is confirmed, and the database fails every call. *)
Definition database_fails : Scripted.Script :=
  Scripted.with_db_error "connection refused"
    (Scripted.script [yes; yes; yes; yes; yes] [] []).

(** The enumerations of the json and of the album stage fail. *)
Definition json_and_album_fail : Scripted.Script :=
  Scripted.script [yes; yes; yes; yes; yes]
    [(["/data/cache/t"], None); ([], Some ErrBadPattern);
     (["/data/sidecar/m.yml"], None); ([], Some ErrBadPattern)]
    [Some "permission denied"; None].

(** The cache and the album stage are declined. *)
Definition some_declined : Scripted.Script :=
  Scripted.script [yes; no; yes; ("", Some World.ErrInterrupt); ("", Some World.ErrEOF)]
    [(["/data/sidecar/x/a.json"; "/data/sidecar/x/b.json"], None)]
    [None; Some "permission denied"].

(** ** The patterns of the removal stages *)

(** A pattern without character class in which every backslash escapes a
    byte that is not the separator: what [regexp.QuoteMeta] makes of a
    path, followed by stars and literal bytes. *)
Fixpoint plain_pattern (p : string) : bool :=
  match p with
  | EmptyString => true
  | String c rest =>
      if Filepath.byte_is c "\" then
        match rest with
        | String d rest' => negb (Filepath.byte_is d "/") && plain_pattern rest'
        | EmptyString => false
        end
      else if Filepath.byte_is c "[" then false
      else plain_pattern rest
  end.

(** The number of separators of a path. *)
Fixpoint separators (s : string) : nat :=
  match s with
  | EmptyString => 0
  | String c rest =>
      (if Filepath.byte_is c Filepath.Separator then 1 else 0) + separators rest
  end.

(** A chunk that [matchChunk] takes byte for byte: no [*], [?], [[] and
    no backslash. *)
Fixpoint literal (s : string) : bool :=
  match s with
  | EmptyString => true
  | String c rest =>
      negb (chunk_meta c) && negb (Filepath.byte_is c "*") && literal rest
  end.

(** [strings.HasSuffix(s, suffix)]. *)
Definition has_suffix (s suffix : string) : bool :=
  (String.length suffix <=? String.length s)%nat &&
  String.eqb (GoString.drop (String.length s - String.length suffix) s) suffix.

(** The pattern that a stage gives to [filepath.Glob]; the schema reset
    enumerates nothing. *)
Definition stage_pattern (conf : Config) (st : Stage) : option string :=
  match st with
  | Index => None
  | Cache => Some (st_pattern (cache_text conf))
  | SidecarJson => Some (st_pattern (json_text conf))
  | SidecarYaml => Some (st_pattern (yaml_text conf))
  | AlbumYaml => Some (st_pattern (album_text conf))
  end.

(** The same pattern with a single star for the directory below the
    root. *)
Definition one_level_pattern (conf : Config) (st : Stage) : option string :=
  match st with
  | Index => None
  | Cache => Some (Regexp.QuoteMeta (CachePath conf) +:+ "/*")
  | SidecarJson => Some (Regexp.QuoteMeta (SidecarPath conf) +:+ "/*/*.json")
  | SidecarYaml => Some (Regexp.QuoteMeta (SidecarPath conf) +:+ "/*/*.yml")
  | AlbumYaml => Some (Regexp.QuoteMeta (AlbumsPath conf) +:+ "/*/*.yml")
  end.

(** ** Reading a trace against the world *)

(** The patterns that were enumerated, in order. *)
Definition globbed (tr : list Obs) : list string :=
  omap (fun o => match o with FilepathGlob p _ => Some p | _ => None end) tr.

(** The stages whose prompt returned no error, in order. *)
Definition stage_of_label (l : string) : option Stage :=
  head (List.filter (fun st => String.eqb (stage_label st) l) all_stages).

Definition confirmed (tr : list Obs) : list Stage :=
  omap (fun o =>
          match o with
          | PromptRun l (_, None) => stage_of_label l
          | _ => None
          end) tr.

Definition count (f : Obs -> bool) (tr : list Obs) : nat :=
  length (List.filter f tr).

Definition is_shutdown (o : Obs) : bool :=
  match o with ConfigShutdown => true | _ => false end.

Definition is_newline (o : Obs) : bool :=
  match o with Print s => String.eqb s newline | _ => false end.

(** An enumeration that returned no error and at least one name. *)
Definition is_nonempty_glob (o : Obs) : bool :=
  match o with FilepathGlob _ (_ :: _, None) => true | _ => false end.

Section Replay.

Context {W : Type} {E : Env W}.

(** The operation that an observation records: called on the world [w]
    it gave the answer that the observation holds and left [w']. *)
Definition op_step (w : W) (o : Obs) (w' : W) : Prop :=
  match o with
  | ConfigInit r => config_Init w = (w', r)
  | ConfigShutdown => w' = config_Shutdown w
  | SetDbProvider => w' = entity_SetDbProvider w
  | LogSetLevel l => w' = log_SetLevel l w
  | Log _ _ _ => w' = w
  | Print _ => w' = w
  | PromptRun l r => prompt_Run l w = (w', r)
  | TimeNow t => time_Now w = (w', t)
  | FilepathGlob p r => filepath_Glob p w = (w', r)
  | OsRemove n r => os_Remove n w = (w', r)
  | OsRemoveAll n r => os_RemoveAll n w = (w', r)
  | TablesDrop r => tables_Drop w = (w', r)
  | MigrateDb a b r => entity_MigrateDb a b w = (w', r)
  | AdminInitPassword p r => admin_InitPassword p w = (w', r)
  end.

(** The operations of [tr], one after the other, lead from [w] to
    [w']. *)
Fixpoint steps (w : W) (tr : list Obs) (w' : W) : Prop :=
  match tr with
  | [] => w' = w
  | o :: tr' => exists w1, op_step w o w1 /\ steps w1 tr' w'
  end.

(** A computation whose trace is the log of what it did to the world. *)
Definition logged {A} (m : M W A) : Prop :=
  forall w, steps w (trace_of (m w)) (world_of (m w)).

(** The change [T] of the world is not seen by the operation [f]. *)
Definition unseen {A} (T : W -> W) (f : W -> W * A) : Prop :=
  forall w, f (T w) = (T (f w).1, (f w).2).

(** No collaborator but the logger reads the log level: setting it to
    [l] before or after any other operation is the same. *)
Definition level_blind (l : Level) : Prop :=
  (forall w, config_Shutdown (log_SetLevel l w) = log_SetLevel l (config_Shutdown w)) /\
  (forall label, unseen (log_SetLevel l) (prompt_Run label)) /\
  unseen (log_SetLevel l) time_Now /\
  (forall p, unseen (log_SetLevel l) (filepath_Glob p)) /\
  (forall n, unseen (log_SetLevel l) (os_Remove n)) /\
  (forall n, unseen (log_SetLevel l) (os_RemoveAll n)) /\
  unseen (log_SetLevel l) tables_Drop /\
  (forall a b, unseen (log_SetLevel l) (entity_MigrateDb a b)) /\
  (forall p, unseen (log_SetLevel l) (admin_InitPassword p)).

(** A computation that does the same on [T w] as on [w]. *)
Definition equivariant {A} (T : W -> W) (m : M W A) : Prop :=
  forall w, m (T w) = (trace_of (m w), T (world_of (m w)), value_of (m w)).

End Replay.

(** The flags with [--trace] set to [b]. *)
Definition with_trace (b : bool) (ctx : Context) : Context :=
  {| flag_index := flag_index ctx; flag_trace := b; flag_yes := flag_yes ctx |}.

(** ** Reading a trace of the command on a Unix file system *)


(** The answers of the prompts, in order. *)
Definition answers (tr : list Obs) : list (string * option error) :=
  omap (fun o => match o with PromptRun _ r => Some r | _ => None end) tr.



(** An enumeration that returned no error, or another observation. *)
Definition glob_ok (o : Obs) : Prop :=
  match o with FilepathGlob _ r => r.2 = None | _ => True end.

(** The configured roots are far from the depth that [Glob] gives up
    at. *)
Definition shallow (conf : Config) : Prop :=
  separators (CachePath conf) + 2 < Filepath.pathSeparatorsLimit /\
  separators (SidecarPath conf) + 2 < Filepath.pathSeparatorsLimit /\
  separators (AlbumsPath conf) + 2 < Filepath.pathSeparatorsLimit.

(** The root that a stage enumerates below. *)
Definition stage_root (conf : Config) (st : Stage) : string :=
  match st with
  | Index => ""
  | Cache => CachePath conf
  | SidecarJson | SidecarYaml => SidecarPath conf
  | AlbumYaml => AlbumsPath conf
  end.

(** What a confirmed removal stage does to the file system: it
    enumerates its own pattern and removes with its own primitive. *)
Definition stage_file_op (conf : Config) (a : Answers) (st : Stage) (o : Obs) : Prop :=
  match o with
  | FilepathGlob p r => stage_pattern conf st = Some p /\ r = a_glob a st
  | OsRemoveAll _ _ => st = Cache
  | OsRemove _ _ => st = SidecarJson \/ st = SidecarYaml \/ st = AlbumYaml
  | _ => False
  end.

(** An enumeration of a plain pattern that is not too deep, or another
    observation. *)
Definition tame_glob (o : Obs) : Prop :=
  match o with
  | FilepathGlob p _ =>
      plain_pattern p = true /\ separators p < Filepath.pathSeparatorsLimit
  | _ => True
  end.

(** A bootstrap that fails. *)
Definition init_fails : Scripted.Script :=
  {| Scripted.conf := Scripted.default_conf; Scripted.init := Some "config: not found";
     Scripted.answers := [yes; yes]; Scripted.globs := []; Scripted.removals := [];
     Scripted.db_error := None; Scripted.clock := 0 |}.

(** Whether [name] is [lit] behind bytes that are not the separator. *)
Fixpoint ends_in_element (lit name : string) : bool :=
  String.eqb name lit ||
  match name with
  | String c rest => negb (Filepath.is_sep c) && ends_in_element lit rest
  | EmptyString => false
  end.

(** The extension that the file names of a removal stage end in. *)
Definition stage_suffix (st : Stage) : string :=
  match st with
  | SidecarJson => ".json"
  | SidecarYaml | AlbumYaml => ".yml"
  | _ => ""
  end.

(** A name of a directory entry: not empty, without separator, and
    neither [.] nor [..]. *)
Definition entry_name (n : string) : Prop :=
  GoString.is_empty n = false /\ GoString.contains_byte Filepath.Separator n = false /\
  n <> "." /\ n <> "..".

(** ** Worlds to run *)

(** Every prompt is confirmed. *)
Definition confirming_world : World.world :=
  World.boot sidecar_conf dir_json_fs
    [World.Line "y"; World.Line "y"; World.Line "y"; World.Line "y"; World.Line "y"].



(** Every prompt is confirmed, and the enumeration of the cache stage
    fails. *)
Definition cache_fails : Scripted.Script :=
  Scripted.script [yes; yes; yes; yes; yes] [([], Some ErrBadPattern)] [].

(** ** Well-formed file systems *)

(** The absolute path of the node [names]; the root directory itself
    is written [/]. *)
Fixpoint abs_path (names : list string) : string :=
  match names with
  | [] => ""
  | n :: rest => "/" +:+ n +:+ abs_path rest
  end.

Definition dir_path (names : list string) : string :=
  match names with
  | [] => "/"
  | _ => abs_path names
  end.

(** A tree: the root is a directory, and every other node has an entry
    name and sits in a directory. *)
Definition wf_fs (m : gmap (list string) Unix.kind) : Prop :=
  m !! [] = Some Unix.Dir /\
  forall p n k, m !! (p ++ [n]) = Some k -> m !! p = Some Unix.Dir /\ entry_name n.


(** What the cache stage enumerates below the directory [names]: its
    entries, in the order of their names. *)
Definition cache_matches (fs : Unix.FS) (names : list string) : list string :=
  match Unix.nodes fs !! names with
  | Some Unix.Dir =>
      map (fun m => abs_path (names ++ [m]))
        (GoString.sort (Unix.children (Unix.nodes fs) names))
  | _ => []
  end.

(** The entries of the directory [names] whose name ends in [ext]. *)
Definition suffix_entries (fs : Unix.FS) (ext : string) (names : list string)
    : list string :=
  match Unix.nodes fs !! names with
  | Some Unix.Dir =>
      map (fun m => abs_path (names ++ [m]))
        (List.filter (ends_in_element ext)
           (GoString.sort (Unix.children (Unix.nodes fs) names)))
  | _ => []
  end.

(** What a sidecar or album stage enumerates below the directory
    [names]: the entries that end in [ext] of the directories that are
    entries of [names], and nothing deeper or higher. *)
Definition suffix_matches (fs : Unix.FS) (ext : string) (names : list string)
    : list string :=
  match Unix.nodes fs !! names with
  | Some Unix.Dir =>
      concat (map (fun d => suffix_entries fs ext (names ++ [d]))
                (GoString.sort (Unix.children (Unix.nodes fs) names)))
  | _ => []
  end.

(** The check of [entry_name] and of [wf_fs], to run on a file
    system. *)
Definition entry_nameb (n : string) : bool :=
  negb (GoString.is_empty n) && negb (GoString.contains_byte Filepath.Separator n) &&
  negb (String.eqb n ".") && negb (String.eqb n "..").

Definition wf_node (m : gmap (list string) Unix.kind) (kv : list string * Unix.kind)
    : bool :=
  match last kv.1 with
  | Some n => bool_decide (m !! removelast kv.1 = Some Unix.Dir) && entry_nameb n
  | None => true
  end.

Definition wf_check (m : gmap (list string) Unix.kind) : bool :=
  bool_decide (m !! [] = Some Unix.Dir) && forallb (wf_node m) (map_to_list m).

(** The entries of the directory [names], in the order of their names;
    none when [names] is no directory. *)
Definition entries (fs : Unix.FS) (names : list string) : list string :=
  match Unix.nodes fs !! names with
  | Some Unix.Dir => GoString.sort (Unix.children (Unix.nodes fs) names)
  | _ => []
  end.
(** The nodes that a sidecar or album stage enumerates below the
    directory [names]. *)
Definition suffix_nodes (fs : Unix.FS) (ext : string) (names : list string)
    : list (list string) :=
  concat (map (fun d =>
                 map (fun e => names ++ [d; e])
                   (List.filter (ends_in_element ext) (entries fs (names ++ [d]))))
            (entries fs names)).

(** Whether a stage with the root [names] selects the node [q]: the
    cache stage an entry of the root, the other stages an entry that
    ends in their suffix of an entry of the root. *)
Definition selected (st : Stage) (names q : list string) : bool :=
  bool_decide (take (length names) q = names) &&
  match st, drop (length names) q with
  | Cache, [_] => true
  | (SidecarJson | SidecarYaml | AlbumYaml), [_; e] => has_suffix e (stage_suffix st)
  | _, _ => false
  end.





(** * Facts

    ** [Match] *)
Module MatchFacts.

Import GoString Filepath Utf8 Regexp.

Lemma str_length_drop n s : String.length (drop n s) = String.length s - n.
Proof.
  revert s; induction n as [|n IH]; intros [|c s]; simpl; auto with lia.
Qed.

Lemma str_length_take n s : String.length (take n s) = n `min` String.length s.
Proof.
  revert s; induction n as [|n IH]; intros [|c s]; simpl; auto with lia.
Qed.

Lemma is_empty_true s : is_empty s = true <-> s = "".
Proof. destruct s; simpl; split; congruence. Qed.

Lemma is_empty_length s : is_empty s = false -> 0 < String.length s.
Proof. destruct s; simpl; [congruence | lia]. Qed.

Lemma decode_size c s : 1 <= snd (DecodeRuneInString (String c s)).
Proof.
  unfold DecodeRuneInString.
  repeat (match goal with
          | |- context [if ?b then _ else _] => destruct b
          | |- context [match ?x with _ => _ end] => destruct x
          end; simpl; try lia).
Qed.

Lemma getEsc_ok chunk r nchunk :
  getEsc chunk = (r, nchunk, None) ->
  String.length nchunk < String.length chunk /\ nchunk <> "".
Proof.
  unfold getEsc. destruct chunk as [|c rest]; [discriminate|].
  destruct (byte_is c "-" || byte_is c "]"); [discriminate|].
  destruct (byte_is c "\" && is_empty rest) eqn:Hesc; [discriminate|].
  set (chunk1 := if byte_is c "\" then rest else String c rest).
  assert (Hne : is_empty chunk1 = false).
  { subst chunk1. destruct (byte_is c "\"); simpl in *; auto. }
  assert (Hlen : String.length chunk1 <= S (String.length rest)).
  { subst chunk1. destruct (byte_is c "\"); simpl; lia. }
  destruct chunk1 as [|c1 s1] eqn:Hc1; [discriminate|].
  pose proof (decode_size c1 s1) as Hsz.
  destruct (DecodeRuneInString (String c1 s1)) as [r0 n]. simpl in Hsz.
  destruct (is_empty (drop n (String c1 s1))) eqn:Hd; [discriminate|].
  destruct ((r0 =? RuneError)%N && (n =? 1)%nat); [discriminate|].
  intros [= <- <-]. split.
  - rewrite str_length_drop. simpl in *. lia.
  - intros Heq. rewrite Heq in Hd. discriminate.
Qed.

Lemma head_is_nonempty d s : head_is d s = true -> 0 < String.length s.
Proof. destruct s; simpl; [discriminate | lia]. Qed.

Lemma length_tail s : String.length (tail s) = String.length s - 1.
Proof. apply str_length_drop. Qed.

(** The class loop returns with enough fuel, and what it leaves of the
    chunk is shorter. *)
Lemma classLoop_total fuel : forall chunk r m n,
  String.length chunk < fuel ->
  exists m' chunk' err,
    classLoop fuel chunk r m n = Some (m', chunk', err) /\
    (err = None -> String.length chunk' < String.length chunk).
Proof.
  induction fuel as [|fuel IH]; intros chunk r m n Hlt; [lia|].
  simpl.
  destruct (head_is "]" chunk && (0 <? n)%nat) eqn:Hclose.
  { apply andb_prop in Hclose as [Hh _]. apply head_is_nonempty in Hh.
    eexists _, _, _. split; [reflexivity|]. intros _. rewrite length_tail. lia. }
  destruct (getEsc chunk) as [[lo chunk1] [e|]] eqn:Hlo.
  { eexists _, _, _. split; [reflexivity|]. discriminate. }
  apply getEsc_ok in Hlo as [Hl1 Hn1].
  destruct (head_is "-" chunk1) eqn:Hdash.
  - destruct (getEsc (tail chunk1)) as [[hi chunk2] [e|]] eqn:Hhi.
    { eexists _, _, _. split; [reflexivity|]. discriminate. }
    apply getEsc_ok in Hhi as [Hl2 Hn2]. rewrite length_tail in Hl2.
    destruct (IH chunk2 r (if (lo <=? r)%N && (r <=? hi)%N then true else m) (S n))
      as (m' & chunk' & err & Heq & Hlen); [lia|].
    eexists _, _, _. split; [exact Heq|]. intros He. specialize (Hlen He). lia.
  - destruct (IH chunk1 r (if (lo <=? r)%N && (r <=? lo)%N then true else m) (S n))
      as (m' & chunk' & err & Heq & Hlen); [lia|].
    eexists _, _, _. split; [exact Heq|]. intros He. specialize (Hlen He). lia.
Qed.

Lemma matchChunk_loop_total fuel : forall chunk s failed,
  String.length chunk < fuel ->
  is_Some (matchChunk_loop fuel chunk s failed).
Proof.
  induction fuel as [|fuel IH]; intros chunk s failed Hlt; [lia|].
  cbn -[classLoop tail head_is is_empty drop DecodeRuneInString byte_is]. destruct chunk as [|c chunk1]; [eauto|]. simpl in Hlt.
  destruct (byte_is c "[").
  { destruct (if failed || is_empty s then _ else _) as [r s1].
    destruct (if head_is "^" chunk1 then _ else _) as [negated chunk2] eqn:Hneg.
    assert (Hl2 : String.length chunk2 <= String.length chunk1).
    { destruct (head_is "^" chunk1); injection Hneg as <- <-;
        rewrite ?length_tail; lia. }
    destruct (classLoop_total (S (String.length chunk2)) chunk2 r false 0)
      as (m' & chunk' & err & Heq & Hlen); [lia|].
    rewrite Heq. destruct err; [eauto|]. apply IH. specialize (Hlen eq_refl). lia. }
  destruct (byte_is c "?").
  { destruct (failed || is_empty s); apply IH; lia. }
  destruct (byte_is c "\" && is_empty chunk1) eqn:Hesc; [eauto|].
  destruct (byte_is c "\") eqn:Hbs.
  - simpl in Hesc. destruct chunk1 as [|c0 chunk2]; [discriminate|].
    destruct (failed || is_empty s) eqn:Hf; [apply IH; simpl in *; lia|].
    destruct s; [rewrite orb_true_r in Hf; discriminate|].
    apply IH. simpl in *. lia.
  - destruct (failed || is_empty s) eqn:Hf; [apply IH; simpl in *; lia|].
    destruct s; [rewrite orb_true_r in Hf; discriminate|].
    apply IH. simpl in *. lia.
Qed.

Lemma matchChunk_loop_mono fuel : forall fuel' chunk s failed r,
  matchChunk_loop fuel chunk s failed = Some r ->
  fuel <= fuel' ->
  matchChunk_loop fuel' chunk s failed = Some r.
Proof.
  induction fuel as [|fuel IH]; intros fuel' chunk s failed r H Hle; [discriminate|].
  destruct fuel' as [|fuel']; [lia|].
  cbn -[classLoop tail head_is is_empty drop DecodeRuneInString byte_is] in *. destruct chunk as [|c chunk1]; [exact H|].
  destruct (byte_is c "[").
  { destruct (if failed || is_empty s then _ else _) as [r0 s1].
    destruct (if head_is "^" chunk1 then _ else _) as [negated chunk2].
    destruct (classLoop _ chunk2 r0 false 0) as [[[m chunk3] [e|]]|]; auto.
    apply IH; [exact H | lia]. }
  destruct (byte_is c "?").
  { destruct (failed || is_empty s); (apply IH; [exact H | lia]). }
  destruct (byte_is c "\" && is_empty chunk1); [exact H|].
  destruct (if byte_is c "\" then chunk1 else String c chunk1); [discriminate|].
  destruct (failed || is_empty s); [apply IH; [exact H | lia]|].
  destruct s; [discriminate|]. apply IH; [exact H | lia].
Qed.

(** [matchChunk] is the loop at any sufficient fuel. *)
Lemma matchChunk_fuel fuel chunk s :
  String.length chunk < fuel ->
  matchChunk_loop fuel chunk s false = Some (matchChunk chunk s).
Proof.
  intros Hlt. unfold matchChunk, matchChunk_opt.
  destruct (matchChunk_loop_total (S (String.length chunk)) chunk s false) as [r Hr]; [lia|].
  rewrite Hr. simpl. eapply matchChunk_loop_mono; [exact Hr | lia].
Qed.

Lemma skipStars_length p : forall star star' p',
  skipStars p star = (star', p') ->
  String.length p' <= String.length p /\
  (String.length p' = String.length p -> star' = star) /\
  head_is "*" p' = false.
Proof.
  induction p as [|c p IH]; intros star star' p' H; simpl in H.
  - injection H as <- <-. auto.
  - destruct (byte_is c "*") eqn:Hc.
    + apply IH in H as (H1 & H2 & H3). simpl. repeat split; auto; lia.
    + injection H as <- <-. simpl. rewrite Hc. auto.
Qed.

Lemma scanIndex_le p : forall inrange, scanIndex p inrange <= String.length p.
Proof.
  induction p as [p IH] using (induction_ltof1 _ String.length); unfold ltof in IH.
  intros inrange. destruct p as [|c rest]; simpl; [lia|].
  destruct (byte_is c "\").
  { destruct rest as [|c' rest']; simpl; [lia|].
    specialize (IH rest'). simpl in IH. specialize (IH ltac:(lia) inrange). lia. }
  pose proof (IH rest ltac:(simpl; lia)) as IHr.
  destruct (byte_is c "["); [specialize (IHr true); lia|].
  destruct (byte_is c "]"); [specialize (IHr false); lia|].
  destruct (byte_is c "*"); [destruct inrange; [specialize (IHr true)|]; lia|].
  specialize (IHr inrange); lia.
Qed.

Lemma scanIndex_pos c rest :
  byte_is c "*" = false -> 0 < scanIndex (String c rest) false.
Proof.
  intros Hc. simpl. rewrite Hc.
  destruct (byte_is c "\"); [destruct rest; lia|].
  destruct (byte_is c "["); [lia|]. destruct (byte_is c "]"); lia.
Qed.

Lemma scanChunk_shorter pattern star chunk pattern' :
  is_empty pattern = false ->
  scanChunk pattern = (star, chunk, pattern') ->
  String.length pattern' < String.length pattern.
Proof.
  intros Hne. unfold scanChunk.
  destruct (skipStars pattern false) as [star0 p0] eqn:Hs.
  intros [= <- <- <-].
  apply skipStars_length in Hs as (Hle & Hsame & Hhead).
  rewrite str_length_drop.
  destruct p0 as [|c rest].
  - destruct pattern; [discriminate|]. simpl in *. lia.
  - simpl in Hhead. pose proof (scanIndex_pos c rest Hhead).
    pose proof (scanIndex_le (String c rest) false). simpl String.length in *. lia.
Qed.

Lemma remainder_loop_total fuel : forall pattern,
  String.length pattern < fuel -> is_Some (remainder_loop fuel pattern).
Proof.
  induction fuel as [|fuel IH]; intros pattern Hlt; [lia|].
  simpl. destruct (is_empty pattern) eqn:Hp; [eauto|].
  destruct (scanChunk pattern) as [[star chunk] pattern'] eqn:Hsc.
  apply scanChunk_shorter in Hsc; [|exact Hp].
  destruct (matchChunk chunk "") as [[t ok] [e|]]; [eauto|]. apply IH; lia.
Qed.

Lemma remainder_loop_mono fuel : forall fuel' pattern r,
  remainder_loop fuel pattern = Some r -> fuel <= fuel' ->
  remainder_loop fuel' pattern = Some r.
Proof.
  induction fuel as [|fuel IH]; intros fuel' pattern r H Hle; [discriminate|].
  destruct fuel' as [|fuel']; [lia|]. simpl in *.
  destruct (is_empty pattern); [exact H|].
  destruct (scanChunk pattern) as [[star chunk] pattern'].
  destruct (matchChunk chunk "") as [[t ok] [e|]]; [exact H|].
  apply IH; [exact H|lia].
Qed.

Lemma remainder_fuel fuel pattern :
  String.length pattern < fuel ->
  remainder_loop fuel pattern = Some (remainder pattern).
Proof.
  intros Hlt. unfold remainder.
  destruct (remainder_loop_total (S (String.length pattern)) pattern) as [r Hr]; [lia|].
  rewrite Hr. simpl. eapply remainder_loop_mono; [exact Hr | lia].
Qed.

Lemma Match_loop_total fuel : forall pattern name,
  String.length pattern < fuel -> is_Some (Match_loop fuel pattern name).
Proof.
  induction fuel as [|fuel IH]; intros pattern name Hlt; [lia|].
  simpl. destruct (is_empty pattern) eqn:Hp; [eauto|].
  destruct (scanChunk pattern) as [[star chunk] pattern'] eqn:Hsc.
  apply scanChunk_shorter in Hsc; [|exact Hp].
  destruct (star && is_empty chunk); [eauto|].
  destruct (matchChunk chunk name) as [[t ok] err].
  destruct (ok && _); [apply IH; lia|].
  destruct err; [eauto|].
  destruct (if star then _ else _); eauto; [apply IH; lia|].
  rewrite remainder_fuel by lia. eauto.
Qed.

Lemma Match_loop_mono fuel : forall fuel' pattern name r,
  Match_loop fuel pattern name = Some r -> fuel <= fuel' ->
  Match_loop fuel' pattern name = Some r.
Proof.
  induction fuel as [|fuel IH]; intros fuel' pattern name r H Hle; [discriminate|].
  destruct fuel' as [|fuel']; [lia|]. simpl in *.
  destruct (is_empty pattern); [exact H|].
  destruct (scanChunk pattern) as [[star chunk] pattern'].
  destruct (star && is_empty chunk); [exact H|].
  destruct (matchChunk chunk name) as [[t ok] err].
  destruct (ok && _); [apply IH; [exact H|lia]|].
  destruct err; [exact H|].
  destruct (if star then _ else _); auto; [apply IH; [exact H|lia]|].
  destruct (remainder_loop fuel pattern') as [e|] eqn:Hrem; [|discriminate].
  rewrite (remainder_loop_mono _ _ _ _ Hrem) by lia. exact H.
Qed.

Lemma Match_fuel fuel pattern name :
  String.length pattern < fuel ->
  Match_loop fuel pattern name = Some (Match pattern name).
Proof.
  intros Hlt. unfold Match, Match_opt.
  destruct (Match_loop_total (S (String.length pattern)) pattern name) as [r Hr]; [lia|].
  rewrite Hr. simpl. eapply Match_loop_mono; [exact Hr | lia].
Qed.

Lemma Match_eq pattern name : Match pattern name = Match_body pattern name.
Proof.
  unfold Match at 1, Match_opt, Match_body. simpl.
  destruct (is_empty pattern) eqn:Hp; [reflexivity|].
  destruct (scanChunk pattern) as [[star chunk] pattern'] eqn:Hsc.
  apply scanChunk_shorter in Hsc; [|exact Hp].
  destruct (star && is_empty chunk); [reflexivity|].
  destruct (matchChunk chunk name) as [[t ok] err].
  destruct (ok && _); [rewrite Match_fuel by lia; reflexivity|].
  destruct err; [reflexivity|].
  destruct (if star then _ else _); try reflexivity.
  - rewrite Match_fuel by lia; reflexivity.
  - rewrite remainder_fuel by lia; reflexivity.
Qed.

Lemma matchChunk_loop_failed fuel : forall chunk s s' r,
  matchChunk_loop fuel chunk s true = Some r ->
  matchChunk_loop fuel chunk s' true = Some r /\ r.1.2 = false.
Proof.
  induction fuel as [|fuel IH]; intros chunk s s' r H; [discriminate|].
  cbn -[classLoop tail head_is is_empty drop DecodeRuneInString byte_is] in *.
  destruct chunk as [|c chunk1]; [injection H as <-; auto|].
  destruct (byte_is c "[").
  { destruct (if head_is "^" chunk1 then _ else _) as [negated chunk2].
    destruct (classLoop _ chunk2 0%N false 0) as [[[m chunk3] [e|]]|];
      [injection H as <-; auto| |discriminate].
    eapply IH; exact H. }
  destruct (byte_is c "?"); [eapply IH; exact H|].
  destruct (byte_is c "\" && is_empty chunk1); [injection H as <-; auto|].
  destruct (if byte_is c "\" then chunk1 else String c chunk1); [discriminate|].
  eapply IH; exact H.
Qed.

Ltac chunk_step :=
  cbn -[classLoop tail head_is is_empty drop DecodeRuneInString byte_is].

Ltac chunk_step_in H :=
  cbn -[classLoop tail head_is is_empty drop DecodeRuneInString byte_is] in H.

Lemma byte_is_refl b : byte_is b b = true.
Proof. apply Ascii.eqb_refl. Qed.

Lemma byte_is_ne a b : a <> b -> byte_is b a = false.
Proof. intros H. apply Ascii.eqb_neq. congruence. Qed.

Lemma matchChunk_literal b chunk s :
  chunk_meta b = false ->
  matchChunk (String b chunk) (String b s) = matchChunk chunk s.
Proof.
  intros Hm. unfold chunk_meta in Hm.
  apply orb_false_elim in Hm as [Hm Hbs]. apply orb_false_elim in Hm as [Hbr Hq].
  unfold matchChunk at 1, matchChunk_opt.
  change (String.length (String b chunk)) with (S (String.length chunk)).
  remember (S (String.length chunk)) as f eqn:Hf. chunk_step.
  rewrite Hbr, Hq, Hbs, byte_is_refl. simpl.
  rewrite matchChunk_fuel by lia. reflexivity.
Qed.

Lemma matchChunk_escaped b chunk s :
  matchChunk (String "\" (String b chunk)) (String b s) = matchChunk chunk s.
Proof.
  unfold matchChunk at 1, matchChunk_opt.
  change (String.length (String "\" (String b chunk)))
    with (S (S (String.length chunk))).
  remember (S (S (String.length chunk))) as f eqn:Hf. chunk_step.
  change (byte_is "\" "[") with false. change (byte_is "\" "?") with false.
  change (byte_is "\" "\") with true. cbn [andb is_empty orb].
  rewrite byte_is_refl. cbn [negb].
  rewrite matchChunk_fuel by lia. reflexivity.
Qed.

Lemma matchChunk_failed_ok fuel chunk s :
  String.length chunk < fuel ->
  (default ("", false, None) (matchChunk_loop fuel chunk s true)).1.2 = false.
Proof.
  intros Hlt.
  destruct (matchChunk_loop_total fuel chunk s true Hlt) as [r Hr].
  rewrite Hr. apply (matchChunk_loop_failed _ _ _ s) in Hr as [_ Hr]. exact Hr.
Qed.

Lemma matchChunk_literal_ne b chunk a s :
  chunk_meta b = false -> a <> b ->
  (matchChunk (String b chunk) (String a s)).1.2 = false.
Proof.
  intros Hm Hne. unfold chunk_meta in Hm.
  apply orb_false_elim in Hm as [Hm Hbs]. apply orb_false_elim in Hm as [Hbr Hq].
  unfold matchChunk, matchChunk_opt.
  change (String.length (String b chunk)) with (S (String.length chunk)).
  remember (S (String.length chunk)) as f eqn:Hf. chunk_step.
  rewrite Hbr, Hq, Hbs, (byte_is_ne a b Hne). simpl.
  apply matchChunk_failed_ok. lia.
Qed.

Lemma matchChunk_escaped_ne b chunk a s :
  a <> b ->
  (matchChunk (String "\" (String b chunk)) (String a s)).1.2 = false.
Proof.
  intros Hne. unfold matchChunk, matchChunk_opt.
  change (String.length (String "\" (String b chunk)))
    with (S (S (String.length chunk))).
  remember (S (S (String.length chunk))) as f eqn:Hf. chunk_step.
  change (byte_is "\" "[") with false. change (byte_is "\" "?") with false.
  change (byte_is "\" "\") with true. cbn [andb is_empty orb].
  rewrite (byte_is_ne a b Hne). cbn [negb].
  apply matchChunk_failed_ok. lia.
Qed.

Lemma matchChunk_nonempty_nil c chunk :
  (matchChunk (String c chunk) "").1.2 = false.
Proof.
  unfold matchChunk, matchChunk_opt.
  change (String.length (String c chunk)) with (S (String.length chunk)).
  remember (S (String.length chunk)) as f eqn:Hf. chunk_step.
  change (is_empty "") with true. cbn [orb].
  destruct (byte_is c "[").
  { destruct (if head_is "^" chunk then _ else _) as [negated chunk2] eqn:Hneg.
    assert (Hl2 : String.length chunk2 <= String.length chunk).
    { destruct (head_is "^" chunk); injection Hneg as <- <-;
        rewrite ?length_tail; lia. }
    destruct (classLoop_total (S (String.length chunk2)) chunk2 0%N false 0)
      as (m' & chunk' & err & Heq & Hlen); [lia|].
    rewrite Heq. destruct err; [reflexivity|].
    apply matchChunk_failed_ok. specialize (Hlen eq_refl). lia. }
  destruct (byte_is c "?"); [apply matchChunk_failed_ok; lia|].
  destruct (byte_is c "\" && is_empty chunk) eqn:Hesc; [reflexivity|].
  destruct (byte_is c "\").
  - destruct chunk; [discriminate|]. apply matchChunk_failed_ok. simpl in *. lia.
  - apply matchChunk_failed_ok. lia.
Qed.


Lemma special_false b :
  special b = false ->
  chunk_meta b = false /\ byte_is b "*" = false /\ byte_is b "]" = false.
Proof.
  unfold special, chunk_meta, byte_is. simpl.
  repeat match goal with
         | |- context [Ascii.eqb b ?c] => destruct (Ascii.eqb b c)
         end; simpl; intros; try discriminate; auto.
Qed.

Lemma str_app_cons c (a b : string) : String c a +:+ b = String c (a +:+ b).
Proof. reflexivity. Qed.

Lemma scanIndex_quote root suffix :
  scanIndex (QuoteMeta root +:+ suffix) false =
  String.length (QuoteMeta root) + scanIndex suffix false.
Proof.
  induction root as [|b root IH]; [reflexivity|].
  cbn [QuoteMeta]. destruct (special b) eqn:Hb.
  - rewrite !str_app_cons. cbn [scanIndex String.length]. change (byte_is "\" "\") with true.
    cbv iota. rewrite IH. lia.
  - apply special_false in Hb as (Hm & Hstar & Hclose). unfold chunk_meta in Hm.
    apply orb_false_elim in Hm as [Hm Hbs]. apply orb_false_elim in Hm as [Hbr Hq].
    rewrite !str_app_cons. cbn [scanIndex String.length].
    rewrite Hbs, Hbr, Hclose, Hstar, IH. lia.
Qed.

Lemma skipStars_quote b root suffix :
  skipStars (QuoteMeta (String b root) +:+ suffix) false =
  (false, QuoteMeta (String b root) +:+ suffix).
Proof.
  cbn [QuoteMeta]. destruct (special b) eqn:Hb.
  - reflexivity.
  - apply special_false in Hb as (_ & Hstar & _).
    rewrite !str_app_cons. cbn [skipStars]. rewrite Hstar. reflexivity.
Qed.

Lemma str_take_app a b i :
  take (String.length a + i) (a +:+ b) = a +:+ take i b.
Proof.
  induction a as [|c a IH]; [reflexivity|].
  rewrite !str_app_cons. cbn [String.length Nat.add take]. by rewrite IH.
Qed.

Lemma str_drop_app a b i :
  drop (String.length a + i) (a +:+ b) = drop i b.
Proof.
  induction a as [|c a IH]; [reflexivity|].
  rewrite !str_app_cons. cbn [String.length Nat.add drop]. exact IH.
Qed.

Lemma matchChunk_quote root chunk rest :
  matchChunk (QuoteMeta root +:+ chunk) (root +:+ rest) = matchChunk chunk rest.
Proof.
  induction root as [|b root IH]; [reflexivity|].
  cbn [QuoteMeta]. destruct (special b) eqn:Hb.
  - rewrite !str_app_cons. rewrite matchChunk_escaped. exact IH.
  - apply special_false in Hb as (Hm & _).
    rewrite !str_app_cons. rewrite matchChunk_literal by exact Hm. exact IH.
Qed.

Lemma matchChunk_quote_other root : forall chunk name,
  strip_prefix root name = None ->
  (matchChunk (QuoteMeta root +:+ chunk) name).1.2 = false.
Proof.
  induction root as [|b root IH]; intros chunk name Hn; [discriminate|].
  destruct name as [|a name].
  { cbn [QuoteMeta]. destruct (special b); apply matchChunk_nonempty_nil. }
  cbn [strip_prefix] in Hn. destruct (Ascii.eqb_spec b a) as [<-|Hne].
  - cbn [QuoteMeta]. destruct (special b) eqn:Hb; rewrite !str_app_cons.
    + rewrite matchChunk_escaped. apply IH, Hn.
    + apply special_false in Hb as (Hm & _).
      rewrite matchChunk_literal by exact Hm. apply IH, Hn.
  - cbn [QuoteMeta]. destruct (special b) eqn:Hb; rewrite !str_app_cons.
    + apply matchChunk_escaped_ne. congruence.
    + apply special_false in Hb as (Hm & _).
      apply matchChunk_literal_ne; [exact Hm | congruence].
Qed.

Lemma strip_prefix_app root rest : strip_prefix root (root +:+ rest) = Some rest.
Proof.
  induction root as [|b root IH]; [reflexivity|].
  simpl. rewrite Ascii.eqb_refl. exact IH.
Qed.

Lemma strip_prefix_Some root : forall name rest,
  strip_prefix root name = Some rest -> name = root +:+ rest.
Proof.
  induction root as [|b root IH]; intros name rest H; simpl in H.
  - injection H as ->. reflexivity.
  - destruct name as [|a name]; [discriminate|].
    destruct (Ascii.eqb_spec b a) as [<-|]; [|discriminate].
    rewrite str_app_cons. f_equal. apply IH, H.
Qed.

Lemma scanChunk_quote b root suffix :
  scanChunk (QuoteMeta (String b root) +:+ suffix) =
  (false,
   QuoteMeta (String b root) +:+ take (scanIndex suffix false) suffix,
   drop (scanIndex suffix false) suffix).
Proof.
  unfold scanChunk. rewrite skipStars_quote, scanIndex_quote, str_take_app, str_drop_app.
  reflexivity.
Qed.

Lemma scanChunk_no_star suffix :
  head_is "*" suffix = false ->
  scanChunk suffix =
  (false, take (scanIndex suffix false) suffix, drop (scanIndex suffix false) suffix).
Proof.
  intros H. unfold scanChunk. destruct suffix as [|c s]; [reflexivity|].
  simpl in H. cbn [skipStars]. rewrite H. reflexivity.
Qed.

Lemma scanIndex_star suffix :
  head_is "*" suffix = true -> scanIndex suffix false = 0.
Proof.
  destruct suffix as [|c s]; [discriminate|]. simpl. intros H.
  rewrite H. assert (c = "*"%char) as -> by (apply Ascii.eqb_eq; exact H).
  reflexivity.
Qed.

Lemma str_is_empty_app a b : is_empty (a +:+ b) = is_empty a && is_empty b.
Proof. destruct a; reflexivity. Qed.

Lemma is_empty_quote root : is_empty (QuoteMeta root) = is_empty root.
Proof. destruct root as [|b root]; [reflexivity|]. simpl. destruct (special b); reflexivity. Qed.

Lemma matchChunk_nil s : matchChunk "" s = (s, true, None).
Proof. reflexivity. Qed.

Lemma str_app_empty_r (s : string) : s +:+ "" = s.
Proof. induction s as [|c s IH]; [reflexivity|]. rewrite str_app_cons. congruence. Qed.

Lemma Match_quote_prefix root suffix rest :
  Match (QuoteMeta root +:+ suffix) (root +:+ rest) = Match suffix rest.
Proof.
  destruct root as [|b root]; [reflexivity|].
  rewrite (Match_eq (_ +:+ _)). unfold Match_body.
  rewrite str_is_empty_app, is_empty_quote. cbn [is_empty andb].
  rewrite scanChunk_quote. cbn [andb].
  rewrite matchChunk_quote.
  destruct (head_is "*" suffix) eqn:Hstar.
  - rewrite (scanIndex_star _ Hstar). cbn [take drop].
    assert (Hne : is_empty suffix = false) by (destruct suffix; [discriminate|reflexivity]).
    replace (take 0 suffix) with "" by (destruct suffix; reflexivity).
    replace (drop 0 suffix) with suffix by (destruct suffix; reflexivity).
    rewrite matchChunk_nil, Hne. cbn [negb andb orb]. rewrite orb_true_r. reflexivity.
  - rewrite (Match_eq suffix). unfold Match_body.
    destruct (is_empty suffix) eqn:Hs.
    + apply is_empty_true in Hs as ->. cbn [scanIndex take drop is_empty negb].
      rewrite matchChunk_nil. cbn [andb]. rewrite orb_false_r.
      destruct (is_empty rest) eqn:Hr; [|reflexivity].
      apply is_empty_true in Hr as ->. reflexivity.
    + rewrite (scanChunk_no_star _ Hstar). cbn [andb]. reflexivity.
Qed.

Lemma Match_quote_other root suffix name :
  strip_prefix root name = None ->
  (Match (QuoteMeta root +:+ suffix) name).1 = false.
Proof.
  intros Hn. destruct root as [|b root]; [discriminate|].
  rewrite Match_eq. unfold Match_body.
  rewrite str_is_empty_app, is_empty_quote. cbn [is_empty andb].
  rewrite scanChunk_quote. cbn [andb].
  pose proof (matchChunk_quote_other (String b root)
                (take (scanIndex suffix false) suffix) name Hn) as Hok.
  destruct (matchChunk _ name) as [[t ok] err]. simpl in Hok. subst ok.
  cbn [andb]. destruct err; reflexivity.
Qed.

End MatchFacts.

Module CleanFacts.

Import GoString Filepath.

Lemma span_elem_length path : String.length (span_elem path).2 <= String.length path.
Proof.
  induction path as [|c rest IH]; [reflexivity|].
  cbn [span_elem]. destruct (is_sep c); [reflexivity|].
  destruct (span_elem rest) as [e r]. cbn [snd String.length] in *. lia.
Qed.

(** [Clean]'s loop stops because the path is read to its end, not because
    the fuel is used up: any fuel from the length of the path on gives the
    same buffer. *)
Lemma Clean_loop_fuel n : forall f f' rooted path out dotdot,
  String.length path <= n -> n <= f -> n <= f' ->
  Clean_loop f rooted path out dotdot = Clean_loop f' rooted path out dotdot.
Proof.
  induction n as [|n IH]; intros f f' rooted path out dotdot Hlen Hf Hf'.
  - destruct path; [|cbn in Hlen; lia]. destruct f, f'; reflexivity.
  - destruct path as [|c rest]; [destruct f, f'; reflexivity|].
    destruct f as [|f]; [lia|]. destruct f' as [|f']; [lia|].
    cbn [String.length] in Hlen.
    assert (Htail : String.length (tail rest) <= n).
    { unfold tail. rewrite MatchFacts.str_length_drop. lia. }
    cbn [Clean_loop].
    destruct (is_sep c) eqn:Hsep; [apply IH; lia|].
    destruct (byte_is c "." && ends_elem rest); [apply IH; lia|].
    destruct (byte_is c "." && head_is "." rest && ends_elem (tail rest)).
    + destruct (dotdot <? String.length out)%nat; [apply IH; lia|].
      destruct (negb rooted); apply IH; lia.
    + pose proof (span_elem_length rest) as Hsp.
      cbn [span_elem]. rewrite Hsep.
      destruct (span_elem rest) as [e r]. cbn [snd] in Hsp.
      apply IH; lia.
Qed.

End CleanFacts.

(** ** The file system *)
Module UnixFacts.

Import Unix.

Lemma Remove_nonempty_dir fs name p :
  resolve fs name = inr p ->
  nodes fs !! p = Some Dir ->
  children (nodes fs) p <> [] ->
  exists e, Unix.Remove name fs = (fs, Some e).
Proof.
  intros Hres Hdir Hch. unfold Unix.Remove, remove. rewrite Hres, Hdir.
  destruct (last_is_dot name); [eauto|].
  destruct (decide (p = [])); [eauto|].
  destruct (decide (children (nodes fs) p = [])); [contradiction|eauto].
Qed.

Lemma without_subtree_lookup (p : list string) (m : gmap (list string) kind) (q : list string) :
  without_subtree p m !! q = if bool_decide (p `prefix_of` q) then None else m !! q.
Proof.
  unfold without_subtree. destruct (m !! q) as [k|] eqn:Hq.
  - case_bool_decide as Hp.
    + apply map_lookup_filter_None. right. intros k' Hk'. cbn. auto.
    + apply map_lookup_filter_Some. split; [exact Hq|exact Hp].
  - rewrite (proj2 (map_lookup_filter_None _ _ _)); [by case_bool_decide|].
    left. exact Hq.
Qed.

Lemma RemoveAll_subtree fs name p :
  resolve fs name = inr p ->
  p <> [] ->
  endsWithDot name = false ->
  last_is_dot name = false ->
  Unix.RemoveAll name fs = (set_nodes fs (without_subtree p (nodes fs)), None).
Proof.
  intros Hres Hp Hd Hl. unfold Unix.RemoveAll.
  destruct (GoString.is_empty name) eqn:He.
  { unfold resolve in Hres. rewrite He in Hres. discriminate. }
  rewrite Hd, Hres, Hl. destruct (decide (p = [])); [contradiction|reflexivity].
Qed.

End UnixFacts.

(** ** The models behave as the libraries do *)

(** [Match] and [matchChunk] return: the loops never run out of the fuel
    they are given. *)
Lemma Match_opt_total pattern name :
  Filepath.Match_opt pattern name = Some (Filepath.Match pattern name).
Proof. apply MatchFacts.Match_fuel. lia. Qed.

Lemma matchChunk_opt_total chunk s :
  Filepath.matchChunk_opt chunk s = Some (Filepath.matchChunk chunk s).
Proof. apply MatchFacts.matchChunk_fuel. lia. Qed.

(** Rows of the table of Go's [TestMatch]. *)
Example Match_table :
  map (fun pn => Filepath.Match pn.1 pn.2)
    [("abc", "abc"); ("*", "abc"); ("*c", "abc"); ("a*", "a"); ("a*", "abc");
     ("a*", "ab/c"); ("a*/b", "abc/b"); ("a*/b", "a/c/b");
     ("a*b*c*d*e*/f", "axbxcxdxe/f"); ("a*b*c*d*e*/f", "axbxcxdxexxx/f");
     ("a*b*c*d*e*/f", "axbxcxdxe/xxx/f"); ("a*b*c*d*e*/f", "axbxcxdxexxx/fff");
     ("a*b?c*x", "abxbbxdbxebxczzx"); ("a*b?c*x", "abxbbxdbxebxczzy");
     ("ab[c]", "abc"); ("ab[b-d]", "abc"); ("ab[e-g]", "abc"); ("ab[^c]", "abc");
     ("ab[^b-d]", "abc"); ("ab[^e-g]", "abc"); ("a\*b", "a*b"); ("a\*b", "ab");
     ("a?b", "a/b"); ("a*b", "a/b"); ("[\]a]", "]"); ("[\-]", "-");
     ("[x\-]", "x"); ("[x\-]", "-"); ("[x\-]", "z"); ("[\-x]", "x");
     ("[\-x]", "-"); ("[\-x]", "a"); ("[]a]", "]"); ("[-]", "-"); ("[x-]", "x");
     ("[x-]", "-"); ("[x-]", "z"); ("[-x]", "x"); ("[-x]", "-"); ("[-x]", "a");
     ("\", "a"); ("[a-b-c]", "a"); ("[", "a"); ("[^", "a"); ("[^bc", "a");
     ("a[", "a"); ("a[", "ab"); ("a[", "x"); ("a/b[", "x"); ("*x", "xxx")]
  = [(true, None); (true, None); (true, None); (true, None); (true, None);
     (false, None); (true, None); (false, None);
     (true, None); (true, None);
     (false, None); (false, None);
     (true, None); (false, None);
     (true, None); (true, None); (false, None); (false, None);
     (false, None); (true, None); (true, None); (false, None);
     (false, None); (false, None); (true, None); (true, None);
     (true, None); (true, None); (false, None); (true, None);
     (true, None); (false, None);
     (false, Some ErrBadPattern); (false, Some ErrBadPattern);
     (false, Some ErrBadPattern); (false, Some ErrBadPattern);
     (false, Some ErrBadPattern); (false, Some ErrBadPattern);
     (false, Some ErrBadPattern); (false, Some ErrBadPattern);
     (false, Some ErrBadPattern); (false, Some ErrBadPattern);
     (false, Some ErrBadPattern); (false, Some ErrBadPattern);
     (false, Some ErrBadPattern); (false, Some ErrBadPattern);
     (false, Some ErrBadPattern); (false, Some ErrBadPattern);
     (false, Some ErrBadPattern); (true, None)].
Proof. vm_compute. reflexivity. Qed.

(** Rows of the table of Go's [TestClean]. *)
Example Clean_table :
  map Filepath.Clean
    ["abc"; "abc/def"; "a/b/c"; "."; ".."; "../.."; "../../abc"; "/abc"; "/";
     ""; "abc/"; "abc/def/"; "a/b/c/"; "./"; "../"; "../../"; "/abc/";
     "abc//def//ghi"; "abc//"; "abc/./def"; "/./abc/def"; "abc/.";
     "abc/def/ghi/../jkl"; "abc/def/../ghi/../jkl"; "abc/def/.."; "abc/def/../..";
     "/abc/def/../.."; "abc/def/../../.."; "/abc/def/../../..";
     "abc/def/../../../ghi/jkl/../../../mno"; "/../abc";
     "abc/./../def"; "abc//./../def"; "abc/../../././../def"]
  = ["abc"; "abc/def"; "a/b/c"; "."; ".."; "../.."; "../../abc"; "/abc"; "/";
     "."; "abc"; "abc/def"; "a/b/c"; "."; ".."; "../.."; "/abc";
     "abc/def/ghi"; "abc"; "abc/def"; "/abc/def"; "abc";
     "abc/def/jkl"; "abc/jkl"; "abc"; ".";
     "/"; ".."; "/";
     "../../mno"; "/abc";
     "def"; "def"; "../../def"].
Proof. vm_compute. reflexivity. Qed.

(** The prompt of [promptui] confirms on [y] and [Y] only. *)
Lemma confirm_default_deny i :
  (World.confirm i).2 = None <-> i = World.Line "y" \/ i = World.Line "Y".
Proof.
  split.
  - destruct i as [s| |]; cbn; try discriminate.
    destruct (String.eqb_spec s "y") as [->|Hy]; [auto|].
    destruct (String.eqb_spec s "Y") as [->|HY]; [auto|]. discriminate.
  - intros [-> | ->]; reflexivity.
Qed.

(** On the database of the registry, the schema reset of an online
    database leaves the default schema and the configured password as the
    credential, whatever was stored before. *)
Lemma resetIndexDb_credential conf w :
  World.online (World.w_db w) = true ->
  World.w_db (world_of (resetIndexDb (E := World.env conf) conf w)) =
  {| World.online := true; World.db_schema := World.DefaultSchema;
     World.admin_credential :=
       if String.eqb (AdminPassword conf) "" then None
       else Some (AdminPassword conf) |}.
Proof.
  intros Hon. destruct w as [c i fs [on sch cred] inp clk lvl]. cbn in Hon. subst on.
  unfold resetIndexDb. destruct (String.eqb (AdminPassword conf) ""); reflexivity.
Qed.

(** ** Running the command *)
Section Run.

Context {W : Type} {E : Env W}.

Lemma run_bind {A B} (m : M W A) (k : A -> M W B) w :
  (m ≫= k) w =
  (trace_of (m w) ++ trace_of (k (value_of (m w)) (world_of (m w))),
   world_of (k (value_of (m w)) (world_of (m w))),
   value_of (k (value_of (m w)) (world_of (m w)))).
Proof.
  unfold mbind, M_bind, trace_of, world_of, value_of.
  destruct (m w) as [[t1 w1] a]. simpl.
  destruct (k a w1) as [[t2 w2] b]. reflexivity.
Qed.

Lemma trace_bind {A B} (m : M W A) (k : A -> M W B) w :
  trace_of ((m ≫= k) w) =
  trace_of (m w) ++ trace_of (k (value_of (m w)) (world_of (m w))).
Proof. rewrite run_bind. reflexivity. Qed.

Lemma value_bind {A B} (m : M W A) (k : A -> M W B) w :
  value_of ((m ≫= k) w) = value_of (k (value_of (m w)) (world_of (m w))).
Proof. rewrite run_bind. reflexivity. Qed.

Lemma world_bind {A B} (m : M W A) (k : A -> M W B) w :
  world_of ((m ≫= k) w) = world_of (k (value_of (m w)) (world_of (m w))).
Proof. rewrite run_bind. reflexivity. Qed.

Lemma trace_ret {A} (a : A) (w : W) : trace_of (mret (M:=M W) a w) = [].
Proof. reflexivity. Qed.

Lemma value_ret {A} (a : A) (w : W) : value_of (mret (M:=M W) a w) = a.
Proof. reflexivity. Qed.

Lemma world_ret {A} (a : A) (w : W) : world_of (mret (M:=M W) a w) = w.
Proof. reflexivity. Qed.

Lemma world_emit o (w : W) : world_of (emit o w) = w.
Proof. reflexivity. Qed.

Lemma world_call {A} (f : W -> W * A) obs w :
  world_of (call f obs w) = (f w).1.
Proof. unfold call, world_of. destruct (f w). reflexivity. Qed.

Lemma world_call_ {A} (f : W -> W * A) obs w :
  world_of (call_ f obs w) = (f w).1.
Proof. unfold call_, world_of. destruct (f w). reflexivity. Qed.

Lemma world_exec (f : W -> W) o w : world_of (exec f o w) = f w.
Proof. reflexivity. Qed.

Lemma trace_emit o (w : W) : trace_of (emit o w) = [o].
Proof. reflexivity. Qed.

Lemma trace_call {A} (f : W -> W * A) obs w :
  trace_of (call f obs w) = [obs (f w).2].
Proof. unfold call, trace_of. destruct (f w). reflexivity. Qed.

Lemma value_call {A} (f : W -> W * A) obs w :
  value_of (call f obs w) = (f w).2.
Proof. unfold call, value_of. destruct (f w). reflexivity. Qed.

Lemma trace_call_ {A} (f : W -> W * A) obs w :
  trace_of (call_ f obs w) = [obs (f w).2].
Proof. unfold call_, trace_of. destruct (f w). reflexivity. Qed.

Lemma trace_exec (f : W -> W) o w : trace_of (exec f o w) = [o].
Proof. reflexivity. Qed.

End Run.

(** Reading a trace distributes over concatenation. *)
Lemma prompts_app t1 t2 : prompts (t1 ++ t2) = prompts t1 ++ prompts t2.
Proof. apply omap_app. Qed.

Lemma attempts_app t1 t2 : attempts (t1 ++ t2) = attempts t1 ++ attempts t2.
Proof. apply omap_app. Qed.

Lemma markers_app t1 t2 : markers (t1 ++ t2) = markers t1 ++ markers t2.
Proof. apply omap_app. Qed.

Lemma enumerated_app t1 t2 : enumerated (t1 ++ t2) = enumerated t1 ++ enumerated t2.
Proof. unfold enumerated. rewrite omap_app, concat_app. reflexivity. Qed.

Lemma removed_single_app t1 t2 :
  removed_single (t1 ++ t2) = removed_single t1 ++ removed_single t2.
Proof. apply omap_app. Qed.

Lemma removed_recursive_app t1 t2 :
  removed_recursive (t1 ++ t2) = removed_recursive t1 ++ removed_recursive t2.
Proof. apply omap_app. Qed.

Lemma ctx_Bool_index ctx : ctx_Bool ctx "index" = flag_index ctx.
Proof. reflexivity. Qed.
Lemma ctx_Bool_trace ctx : ctx_Bool ctx "trace" = flag_trace ctx.
Proof. reflexivity. Qed.
Lemma ctx_Bool_yes ctx : ctx_Bool ctx "yes" = flag_yes ctx.
Proof. reflexivity. Qed.

Section Shape.

Context {W : Type} {E : Env W}.

Ltac norm :=
  repeat first
    [ rewrite trace_bind | rewrite value_bind | rewrite world_bind
    | rewrite trace_emit | rewrite trace_call | rewrite trace_call_
    | rewrite trace_exec | rewrite value_call | rewrite trace_ret
    | rewrite value_ret | rewrite world_ret | rewrite world_emit
    | rewrite world_call | rewrite world_call_ | rewrite world_exec ].

Lemma remove_each_shape (rm : string -> M W (option error))
    (obs : string -> option error -> Obs) :
  (forall n w, trace_of (rm n w) = [obs n (value_of (rm n w))]) ->
  forall ms w, exists rs,
    length rs = length ms /\
    trace_of (remove_each rm ms w) = loop_obs obs ms rs.
Proof.
  intros Hrm ms. induction ms as [|n ms IH]; intros w.
  - exists []. split; reflexivity.
  - cbn [remove_each]. rewrite trace_bind, Hrm, trace_bind.
    destruct (IH (world_of
                    (match value_of (rm n w) with
                     | Some _ => emit (Print "E")
                     | None => emit (Print ".")
                     end (world_of (rm n w))))) as (rs & Hlen & Htr).
    exists (value_of (rm n w) :: rs). split; [simpl; lia|].
    rewrite Htr. destruct (value_of (rm n w)); reflexivity.
Qed.

Lemma Remove_obs n w : trace_of (Remove n w) = [OsRemove n (value_of (Remove n w))].
Proof. unfold Remove. rewrite trace_call, value_call. reflexivity. Qed.

Lemma RemoveAll_obs n w :
  trace_of (RemoveAll n w) = [OsRemoveAll n (value_of (RemoveAll n w))].
Proof. unfold RemoveAll. rewrite trace_call, value_call. reflexivity. Qed.

Lemma resetIndexDb_shape conf w :
  exists t0 t1 r1 r2 r3,
    trace_of (resetIndexDb conf w) =
    [TimeNow t0; Log InfoLevel "dropping existing tables" []; TablesDrop r1;
     Log InfoLevel "restoring default schema" []; MigrateDb true false r2]
    ++ password_obs conf r3
    ++ [TimeNow t1; Log InfoLevel "database reset completed in %s" [ArgDuration (t1 - t0)]].
Proof.
  unfold resetIndexDb, logf, since, now, password_obs.
  destruct (String.eqb (AdminPassword conf) ""); cbn [negb]; norm; cbn [app].
  - eexists _, _, _, _, None. reflexivity.
  - eexists _, _, _, _, _. reflexivity.
Qed.

(** The three stages that log an enumeration error. *)
Ltac stage_shape rm obs Hobs text :=
  intros;
  unfold Glob, logf, since, now, stage_obs, album_obs, removal_obs; norm;
  let ms := fresh "ms" in
  let e := fresh "e" in
  let Hn := fresh "Hn" in
  let rs := fresh "rs" in
  let Hlen := fresh "Hlen" in
  let Htr := fresh "Htr" in
  match goal with
  | |- context [(filepath_Glob ?p ?w').2] =>
      destruct (filepath_Glob p w').2 as [ms [e|]]
  end;
  [ eexists _, 0%Z, (ms, Some e), (replicate (length ms) None);
    split; [apply length_replicate|]; norm; reflexivity
  | cbn [fst snd]; destruct (0 <? length ms)%nat eqn:Hn;
    [ norm;
      match goal with
      | |- context [remove_each rm ms ?w'] =>
          destruct (remove_each_shape rm obs Hobs ms w') as (rs & Hlen & Htr)
      end;
      eexists _, _, (ms, None), rs; split; [exact Hlen|];
      cbn [fst snd st_pattern st_before st_remove st_after text app];
      rewrite Hn, Htr; cbn [app]; reflexivity
    | eexists _, 0%Z, (ms, None), (replicate (length ms) None);
      split; [apply length_replicate|]; norm;
      cbn [fst snd]; rewrite Hn; reflexivity ] ].

Lemma resetCache_shape conf w :
  exists t0 t1 g rs,
    length rs = length g.1 /\
    trace_of (resetCache conf w) = stage_obs (cache_text conf) t0 t1 g rs.
Proof. unfold resetCache. stage_shape RemoveAll OsRemoveAll RemoveAll_obs cache_text. Qed.

Lemma resetSidecarJson_shape conf w :
  exists t0 t1 g rs,
    length rs = length g.1 /\
    trace_of (resetSidecarJson conf w) = stage_obs (json_text conf) t0 t1 g rs.
Proof. unfold resetSidecarJson. stage_shape Remove OsRemove Remove_obs json_text. Qed.

Lemma resetSidecarYaml_shape conf w :
  exists t0 t1 g rs,
    length rs = length g.1 /\
    trace_of (resetSidecarYaml conf w) = stage_obs (yaml_text conf) t0 t1 g rs.
Proof. unfold resetSidecarYaml. stage_shape Remove OsRemove Remove_obs yaml_text. Qed.

(** The album stage with its prompt; it is the one that returns. *)
Lemma resetAlbumYaml_shape conf w :
  exists r t0 t1 g rs,
    length rs = length g.1 /\
    trace_of (resetAlbumYaml conf w) =
      PromptRun (stage_label AlbumYaml) r
      :: match r.2 with
         | None => album_obs (album_text conf) t0 t1 g rs
         | Some _ => [Log InfoLevel (stage_keeping AlbumYaml) []]
         end /\
    value_of (resetAlbumYaml conf w) =
      match r.2 with
      | None => g.2
      | Some _ => None
      end.
Proof.
  unfold resetAlbumYaml, Run. norm.
  destruct (prompt_Run _ w).2 as [s [e|]] eqn:Hr; cbn [snd].
  - exists (s, Some e), 0%Z, 0%Z, ([], None), []. unfold logf. norm.
    repeat split.
  - unfold Glob, logf, since, now, album_obs, removal_obs. norm.
    match goal with
    | |- context [(filepath_Glob ?p ?w').2] =>
        destruct (filepath_Glob p w').2 as [ms [e|]] eqn:Hg
    end.
    + eexists (s, None), _, 0%Z, (ms, Some e), (replicate (length ms) None).
      split; [apply length_replicate|]. norm. split; reflexivity.
    + cbn [fst snd]. destruct (0 <? length ms)%nat eqn:Hn.
      * norm.
        match goal with
        | |- context [remove_each Remove ms ?w'] =>
            destruct (remove_each_shape Remove OsRemove Remove_obs ms w')
              as (rs & Hlen & Htr)
        end.
        eexists (s, None), _, _, (ms, None), rs. split; [exact Hlen|].
        cbn [fst snd st_pattern st_before st_remove st_after album_text app].
        rewrite Hn, Htr. cbn [app]. rewrite <- !app_assoc. cbn [app].
        split; reflexivity.
      * eexists (s, None), _, 0%Z, (ms, None), (replicate (length ms) None).
        split; [apply length_replicate|]. norm.
        cbn [fst snd]. rewrite Hn. split; reflexivity.
Qed.

(** A stage behind its prompt, followed by [k]. *)
Lemma gate_run {B} label keeping (run : M W unit) (k : M W B) w :
  let r := (prompt_Run label w).2 in
  let w1 := (prompt_Run label w).1 in
  let w2 := match r.2 with None => world_of (run w1) | Some _ => w1 end in
  (Run label ≫= fun r =>
     match r.2 with
     | None => run
     | Some _ => logf InfoLevel keeping []
     end ≫= fun _ => k) w =
  (PromptRun label r
   :: match r.2 with
      | None => trace_of (run w1)
      | Some _ => [Log InfoLevel keeping []]
      end ++ trace_of (k w2),
   world_of (k w2), value_of (k w2)).
Proof.
  cbv zeta. unfold Run, logf. rewrite run_bind. norm.
  destruct (prompt_Run label w).2.2; norm; reflexivity.
Qed.

(** The four file stages, one after the other. *)
Lemma file_stages_shape conf w :
  exists a,
    fitting a /\
    trace_of
      ((Run "Clear cache incl thumbnails?" ≫= fun r =>
          match r.2 with
          | None => resetCache conf
          | Some _ => logf InfoLevel "keeping cache files" []
          end ≫= fun _ =>
        Run "Delete all *.json sidecar files?" ≫= fun r =>
          match r.2 with
          | None => resetSidecarJson conf
          | Some _ => logf InfoLevel "keeping *.json sidecar files" []
          end ≫= fun _ =>
        Run "Delete all *.yml metadata files?" ≫= fun r =>
          match r.2 with
          | None => resetSidecarYaml conf
          | Some _ => logf InfoLevel "keeping *.yml metadata files" []
          end ≫= fun _ => resetAlbumYaml conf) w) =
      gate_obs Cache conf a ++ gate_obs SidecarJson conf a
      ++ gate_obs SidecarYaml conf a ++ gate_obs AlbumYaml conf a /\
    value_of
      ((Run "Clear cache incl thumbnails?" ≫= fun r =>
          match r.2 with
          | None => resetCache conf
          | Some _ => logf InfoLevel "keeping cache files" []
          end ≫= fun _ =>
        Run "Delete all *.json sidecar files?" ≫= fun r =>
          match r.2 with
          | None => resetSidecarJson conf
          | Some _ => logf InfoLevel "keeping *.json sidecar files" []
          end ≫= fun _ =>
        Run "Delete all *.yml metadata files?" ≫= fun r =>
          match r.2 with
          | None => resetSidecarYaml conf
          | Some _ => logf InfoLevel "keeping *.yml metadata files" []
          end ≫= fun _ => resetAlbumYaml conf) w) =
      match (a_prompt a AlbumYaml).2 with
      | None => (a_glob a AlbumYaml).2
      | Some _ => None
      end.
Proof.
  rewrite !gate_run. cbv zeta. unfold trace_of at 1, value_of at 1. cbn [fst snd].
  set (r2 := (prompt_Run "Clear cache incl thumbnails?" w).2).
  set (w2 := (prompt_Run "Clear cache incl thumbnails?" w).1).
  set (w2' := match r2.2 with None => world_of (resetCache conf w2) | Some _ => w2 end).
  set (r3 := (prompt_Run "Delete all *.json sidecar files?" w2').2).
  set (w3 := (prompt_Run "Delete all *.json sidecar files?" w2').1).
  set (w3' := match r3.2 with None => world_of (resetSidecarJson conf w3) | Some _ => w3 end).
  set (r4 := (prompt_Run "Delete all *.yml metadata files?" w3').2).
  set (w4 := (prompt_Run "Delete all *.yml metadata files?" w3').1).
  set (w4' := match r4.2 with None => world_of (resetSidecarYaml conf w4) | Some _ => w4 end).
  destruct (resetCache_shape conf w2) as (c0 & c1 & cg & crs & Hc & Hct).
  destruct (resetSidecarJson_shape conf w3) as (j0 & j1 & jg & jrs & Hj & Hjt).
  destruct (resetSidecarYaml_shape conf w4) as (y0 & y1 & yg & yrs & Hy & Hyt).
  destruct (resetAlbumYaml_shape conf w4') as (r5 & l0 & l1 & lg & lrs & Hl & Hlt & Hlv).
  exists {| a_prompt := fun st =>
              match st with
              | Index => ("", None) | Cache => r2 | SidecarJson => r3
              | SidecarYaml => r4 | AlbumYaml => r5
              end;
            a_glob := fun st =>
              match st with
              | Index => ([], None) | Cache => cg | SidecarJson => jg
              | SidecarYaml => yg | AlbumYaml => lg
              end;
            a_removals := fun st =>
              match st with
              | Index => [] | Cache => crs | SidecarJson => jrs
              | SidecarYaml => yrs | AlbumYaml => lrs
              end;
            a_start := fun st =>
              match st with
              | Index => 0%Z | Cache => c0 | SidecarJson => j0
              | SidecarYaml => y0 | AlbumYaml => l0
              end;
            a_stop := fun st =>
              match st with
              | Index => 0%Z | Cache => c1 | SidecarJson => j1
              | SidecarYaml => y1 | AlbumYaml => l1
              end;
            a_drop := None; a_migrate := None; a_password := None |}.
  split; [intros []; cbn; auto|].
  split; [|exact Hlv].
  rewrite Hct, Hjt, Hyt, Hlt. unfold gate_obs, gate_body, run_obs.
  cbn [a_prompt a_glob a_removals a_start a_stop stage_label stage_keeping app].
  rewrite <- ?app_assoc. reflexivity.
Qed.

Lemma fitting_with_index r t0 t1 r1 r2 r3 a :
  fitting a -> fitting (with_index r t0 t1 r1 r2 r3 a).
Proof. intros H st. apply H. Qed.

(** The body of [resetAction] and the answers it got. *)
Lemma resetAction_body_shape ctx conf w :
  exists a,
    fitting a /\
    trace_of (resetAction_body ctx conf w) =
      preamble_obs ctx
      ++ (if flag_yes ctx then index_obs conf a else [])
      ++ concat (map (fun st => gate_obs st conf a) (flow ctx)) /\
    value_of (resetAction_body ctx conf w) = session_value ctx a.
Proof.
  unfold resetAction_body.
  rewrite ctx_Bool_index, ctx_Bool_trace, ctx_Bool_yes.
  match goal with
  | |- context [Run "Clear cache incl thumbnails?" ≫= ?f] =>
      set (files := Run "Clear cache incl thumbnails?" ≫= f)
  end.
  match goal with
  | |- context [exec entity_SetDbProvider SetDbProvider ≫= fun _ => ?m1 ≫= fun _ => ?m2 ≫= fun _ => ?k] =>
      set (stages := k);
      assert (Hstages : forall w', exists a,
                 fitting a /\
                 trace_of (stages w') =
                   (if flag_yes ctx then index_obs conf a else [])
                   ++ concat (map (fun st => gate_obs st conf a) (flow ctx)) /\
                 value_of (stages w') = session_value ctx a)
  end.
  { intros w'. subst stages. unfold flow, session_value, logf, Run.
    destruct (flag_yes ctx) eqn:Hyes; cbn [negb orb andb].
    - (* --yes: the index is reset without a prompt and the session ends *)
      rewrite orb_true_r. norm.
      destruct (resetIndexDb_shape conf w') as (t0 & t1 & r1 & r2 & r3 & Hidx).
      exists (with_index ("", None) t0 t1 r1 r2 r3 no_answers).
      split; [intros st; reflexivity|]. split; [|reflexivity].
      cbn [app concat map]. rewrite Hidx, ?app_nil_r. reflexivity.
    - rewrite orb_false_r.
      destruct (flag_index ctx); norm;
        match goal with
        | |- context [(prompt_Run ?l ?w0).2.2] =>
            destruct (prompt_Run l w0).2 as [s1 [e1|]] eqn:Hr1; cbn [snd]
        end; norm;
        try match goal with
        | |- context [resetIndexDb conf ?w0] =>
            destruct (resetIndexDb_shape conf w0) as (t0 & t1 & r1 & r2 & r3 & Hidx)
        end;
        try match goal with
        | |- context [files ?w0] =>
            destruct (file_stages_shape conf w0) as (a & Hfit & Hft & Hfv);
            fold files in Hft, Hfv
        end.
      all: first
        [ exists (with_index (s1, None) t0 t1 r1 r2 r3 a)
        | exists (with_index (s1, Some e1) 0%Z 0%Z None None None a)
        | exists (with_index (s1, None) t0 t1 r1 r2 r3 no_answers)
        | exists (with_index (s1, Some e1) 0%Z 0%Z None None None no_answers) ].
      all: split; [first [apply fitting_with_index; assumption | intros st; reflexivity]|].
      all: split; [|first [exact Hfv | reflexivity]].
      all: unfold all_stages, gate_obs, gate_body;
        cbn [app concat map with_index a_prompt snd run_obs stage_label stage_keeping].
      all: try rewrite Hidx; try rewrite Hft; unfold gate_obs, gate_body, index_obs;
        cbn [app concat map with_index a_prompt a_glob a_removals a_start a_stop
             a_drop a_migrate a_password snd run_obs stage_label stage_keeping];
        rewrite <- ?app_assoc, ?app_nil_r; cbn [app]; rewrite <- ?app_assoc.
      all: reflexivity. }
  clearbody stages. unfold preamble_obs, logf.
  destruct (flag_yes ctx), (flag_index ctx), (flag_trace ctx); cbn [negb]; norm;
    match goal with
    | |- context [stages ?w0] => destruct (Hstages w0) as (a & Hfit & Htr & Hv)
    end;
    exists a; rewrite Htr, Hv; (split; [exact Hfit|]); (split; [|reflexivity]);
    cbn [app]; reflexivity.
Qed.

(** A session whose bootstrap succeeds is [session_obs] of the answers it
    got, and returns [session_value] of them. *)
Lemma session_shape ctx w :
  (config_Init w).2 = None ->
  exists a,
    fitting a /\
    trace_of (resetAction ctx w) = session_obs ctx (config_NewConfig ctx) a /\
    value_of (resetAction ctx w) = session_value ctx a.
Proof.
  intros Hinit. unfold resetAction. norm. rewrite Hinit. norm.
  destruct (resetAction_body_shape ctx (config_NewConfig ctx) (config_Init w).1)
    as (a & Hfit & Htr & Hv).
  exists a. split; [exact Hfit|]. rewrite Htr, Hv. split; [|reflexivity].
  unfold session_obs. cbn [app]. rewrite <- !app_assoc. reflexivity.
Qed.

(** A session whose bootstrap fails does nothing else. *)
Lemma session_init_failed ctx w e :
  (config_Init w).2 = Some e ->
  trace_of (resetAction ctx w) = [ConfigInit (Some e)] /\
  value_of (resetAction ctx w) = Some e.
Proof.
  intros Hinit. unfold resetAction. norm. rewrite Hinit. norm. split; reflexivity.
Qed.

End Shape.

(** ** Facts about the trace of a session *)

Lemma until_prompt_app t1 t2 :
  Forall quiet t1 -> until_prompt (t1 ++ t2) = t1 ++ until_prompt t2.
Proof.
  induction 1 as [|o t1 Ho _ IH]; [reflexivity|].
  cbn [app until_prompt]. rewrite Ho, IH. reflexivity.
Qed.

Lemma segments_app t1 t2 : Forall quiet t1 -> segments (t1 ++ t2) = segments t2.
Proof.
  induction 1 as [|o t1 Ho _ IH]; [reflexivity|].
  cbn [app segments]. destruct o; try discriminate Ho; exact IH.
Qed.

Lemma segments_quiet t : Forall quiet t -> segments t = [].
Proof. intros H. rewrite <- (app_nil_r t), segments_app by exact H. reflexivity. Qed.

Lemma until_prompt_quiet t : Forall quiet t -> until_prompt t = t.
Proof.
  intros H. rewrite <- (app_nil_r t) at 1. rewrite until_prompt_app by exact H.
  cbn. apply app_nil_r.
Qed.

Lemma prompts_quiet t : Forall quiet t -> prompts t = [].
Proof.
  induction 1 as [|o t Ho _ IH]; [reflexivity|].
  unfold prompts in *. cbn [omap]. destruct o; try discriminate Ho; exact IH.
Qed.

Lemma quiet_loop rm ms rs :
  (forall n r, quiet (rm n r)) -> Forall quiet (loop_obs rm ms rs).
Proof.
  intros Hrm. revert rs. induction ms as [|n ms IH]; intros [|r rs]; cbn [loop_obs];
    try constructor; [apply Hrm|]. constructor; [reflexivity|apply IH].
Qed.

Lemma quiet_removal tx t0 t1 ms rs :
  (forall n r, quiet (st_remove tx n r)) -> (forall n, quiet (st_before tx n)) ->
  Forall quiet (removal_obs tx t0 t1 ms rs).
Proof.
  intros Hrm Hb. unfold removal_obs. destruct (0 <? length ms)%nat.
  - constructor; [apply Hb|]. apply Forall_app. split; [apply quiet_loop, Hrm|].
    repeat constructor.
  - repeat constructor.
Qed.

Lemma quiet_stage tx t0 t1 g rs :
  (forall n r, quiet (st_remove tx n r)) -> (forall n, quiet (st_before tx n)) ->
  Forall quiet (stage_obs tx t0 t1 g rs) /\ Forall quiet (album_obs tx t0 t1 g rs).
Proof.
  intros Hrm Hb. unfold stage_obs, album_obs.
  split; (constructor; [reflexivity|]); (constructor; [reflexivity|]);
    destruct g.2; try apply quiet_removal; auto; repeat constructor.
Qed.

Lemma quiet_index conf a : Forall quiet (index_obs conf a).
Proof.
  unfold index_obs, password_obs. destruct (String.eqb _ _); repeat constructor.
Qed.

Lemma quiet_run st conf a : Forall quiet (run_obs st conf a).
Proof.
  destruct st; cbn [run_obs]; [apply quiet_index|..];
    apply quiet_stage; intros; reflexivity.
Qed.

Lemma quiet_gate_body st conf a : Forall quiet (gate_body st conf a).
Proof.
  unfold gate_body. destruct (a_prompt a st).2; [repeat constructor|apply quiet_run].
Qed.

Lemma quiet_preamble ctx : Forall quiet (preamble_obs ctx).
Proof.
  unfold preamble_obs.
  destruct (flag_yes ctx), (flag_index ctx), (flag_trace ctx); repeat constructor.
Qed.

Lemma segments_gates conf a l tail :
  Forall quiet tail ->
  segments (concat (map (fun st => gate_obs st conf a) l) ++ tail) =
  gate_segments conf a l tail.
Proof.
  intros Ht. induction l as [|st l IH]; [apply segments_quiet, Ht|].
  cbn [map concat gate_segments]. unfold gate_obs at 1.
  cbn [app segments]. rewrite <- !app_assoc.
  rewrite until_prompt_app by apply quiet_gate_body.
  rewrite segments_app by apply quiet_gate_body. rewrite IH. do 3 f_equal.
  destruct l as [|st' l']; [apply until_prompt_quiet, Ht|reflexivity].
Qed.

Lemma prompts_gates conf a l :
  prompts (concat (map (fun st => gate_obs st conf a) l)) = map stage_label l.
Proof.
  induction l as [|st l IH]; [reflexivity|].
  cbn [map concat]. unfold gate_obs at 1. rewrite prompts_app.
  change (prompts (PromptRun (stage_label st) (a_prompt a st) :: gate_body st conf a))
    with (stage_label st :: prompts (gate_body st conf a)).
  rewrite (prompts_quiet _ (quiet_gate_body st conf a)), IH. reflexivity.
Qed.

Lemma session_segments ctx conf a :
  segments (session_obs ctx conf a) = gate_segments conf a (flow ctx) [ConfigShutdown].
Proof.
  unfold session_obs. cbn [segments].
  rewrite segments_app by apply quiet_preamble.
  rewrite segments_app by (destruct (flag_yes ctx); [apply quiet_index|constructor]).
  apply segments_gates. repeat constructor.
Qed.

Lemma session_prompts ctx conf a :
  prompts (session_obs ctx conf a) = map stage_label (flow ctx).
Proof.
  unfold session_obs.
  change (prompts (ConfigInit None :: ?t)) with (prompts t).
  rewrite !prompts_app, (prompts_quiet _ (quiet_preamble ctx)), prompts_gates.
  rewrite (prompts_quiet (if flag_yes ctx then _ else _))
    by (destruct (flag_yes ctx); [apply quiet_index|constructor]).
  cbn. apply app_nil_r.
Qed.

Lemma calm_index conf a : Forall calm (index_obs conf a).
Proof.
  unfold index_obs, password_obs. destruct (String.eqb _ _); repeat constructor.
Qed.

Lemma calm_preamble ctx : Forall calm (preamble_obs ctx).
Proof.
  unfold preamble_obs.
  destruct (flag_yes ctx), (flag_index ctx), (flag_trace ctx); repeat constructor.
Qed.

Section Claims.

Context {W : Type} {E : Env W}.

(** C1: with [--yes] a session whose bootstrap succeeded resets the index
    without asking and returns [nil]: its trace is the bootstrap, the
    preamble, the schema reset and the shutdown.  No prompt is shown and
    nothing is enumerated or removed, whatever [--index] is. *)
Theorem assume_yes_index_only ctx (w : W) :
  flag_yes ctx = true ->
  (config_Init w).2 = None ->
  exists a,
    trace_of (resetAction ctx w) =
      ConfigInit None
      :: preamble_obs ctx ++ index_obs (config_NewConfig ctx) a ++ [ConfigShutdown] /\
    value_of (resetAction ctx w) = None /\
    prompts (trace_of (resetAction ctx w)) = [] /\
    Forall (fun o => is_file_op o = false) (trace_of (resetAction ctx w)).
Proof.
  intros Hyes Hinit.
  destruct (session_shape ctx w Hinit) as (a & _ & Htr & Hv).
  exists a. rewrite Htr, Hv, session_prompts.
  unfold session_obs, session_value, flow. rewrite Hyes, orb_true_r.
  cbn [map concat app]. repeat split.
  constructor; [reflexivity|]. rewrite !Forall_app.
  repeat split; [apply calm_preamble|apply calm_index|repeat constructor].
Qed.

(** C8: with [--index] and without [--yes] a session whose bootstrap
    succeeded shows the index prompt and no other, returns [nil], and
    neither enumerates nor removes anything, whether the prompt was
    confirmed or not. *)
Theorem index_only_prompts_once ctx (w : W) :
  flag_index ctx = true ->
  flag_yes ctx = false ->
  (config_Init w).2 = None ->
  exists a,
    trace_of (resetAction ctx w) =
      ConfigInit None
      :: preamble_obs ctx ++ gate_obs Index (config_NewConfig ctx) a ++ [ConfigShutdown] /\
    value_of (resetAction ctx w) = None /\
    prompts (trace_of (resetAction ctx w)) = [stage_label Index] /\
    Forall (fun o => is_file_op o = false) (trace_of (resetAction ctx w)).
Proof.
  intros Hidx Hyes Hinit.
  destruct (session_shape ctx w Hinit) as (a & _ & Htr & Hv).
  exists a. rewrite Htr, Hv, session_prompts.
  unfold session_obs, session_value, flow. rewrite Hyes, Hidx.
  cbn [map concat app orb]. rewrite app_nil_r. repeat split.
  constructor; [reflexivity|]. rewrite !Forall_app.
  repeat split; [apply calm_preamble| |repeat constructor].
  unfold gate_obs, gate_body. constructor; [reflexivity|].
  destruct (a_prompt a Index).2; [repeat constructor|apply calm_index].
Qed.

Lemma gate_segments_lookup conf a l tail i lab r seg :
  gate_segments conf a l tail !! i = Some (lab, r, seg) ->
  exists st,
    l !! i = Some st /\ lab = stage_label st /\ r = a_prompt a st /\
    seg = gate_body st conf a ++ (if bool_decide (S i = length l) then tail else []).
Proof.
  revert i. induction l as [|st l IH]; intros i H; [discriminate|].
  destruct i as [|i]; cbn in H.
  - injection H as <- <- <-. exists st. repeat split.
    destruct l; reflexivity.
  - apply IH in H as (st' & Hl & -> & -> & ->). exists st'. repeat split; [exact Hl|].
    cbn [length]. f_equal.
    destruct (decide (S i = length l)) as [Heq|Hne].
    + rewrite !bool_decide_eq_true_2 by lia. reflexivity.
    + rewrite !bool_decide_eq_false_2 by lia. reflexivity.
Qed.

Lemma closing_spec ctx i st :
  flow ctx !! i = Some st ->
  (if bool_decide (S i = length (flow ctx)) then [ConfigShutdown] else []) =
  closing ctx st.
Proof.
  unfold closing, flow, all_stages.
  destruct (flag_yes ctx), (flag_index ctx); cbn;
    repeat (destruct i as [|i]; cbn; try discriminate; try (intros [= <-]; reflexivity)).
Qed.

(** C4: in a session whose bootstrap succeeded the prompts of all stages
    of the flow are shown, whatever was answered; and when the prompt of
    a stage returns an error (declined, interrupted, end of input), all
    that happens before the next prompt, or before the shutdown after the
    last stage, is the line that says what is kept. *)
Theorem declining_keeps_and_continues ctx (w : W) :
  (config_Init w).2 = None ->
  prompts (trace_of (resetAction ctx w)) = map stage_label (flow ctx) /\
  forall i l r seg,
    segments (trace_of (resetAction ctx w)) !! i = Some (l, r, seg) ->
    r.2 <> None ->
    exists st,
      flow ctx !! i = Some st /\ l = stage_label st /\
      seg = Log InfoLevel (stage_keeping st) [] :: closing ctx st.
Proof.
  intros Hinit.
  destruct (session_shape ctx w Hinit) as (a & _ & Htr & _).
  rewrite Htr, session_prompts, session_segments. split; [reflexivity|].
  intros i l r seg Hseg Hr.
  apply gate_segments_lookup in Hseg as (st & Hst & -> & -> & ->).
  exists st. repeat split; [exact Hst|].
  rewrite (closing_spec ctx i st Hst). unfold gate_body.
  destruct (a_prompt a st).2; [reflexivity|congruence].
Qed.

(** *** Enumeration errors *)

Lemma globless_loop rm ms rs :
  (forall n r, globless (rm n r)) -> Forall globless (loop_obs rm ms rs).
Proof.
  intros Hrm. revert rs. induction ms as [|n ms IH]; intros [|r rs]; cbn [loop_obs];
    try constructor; [apply Hrm|]. constructor; [exact I|apply IH].
Qed.

Lemma globless_removal tx t0 t1 ms rs :
  (forall n r, globless (st_remove tx n r)) -> (forall n, globless (st_before tx n)) ->
  Forall globless (removal_obs tx t0 t1 ms rs).
Proof.
  intros Hrm Hb. unfold removal_obs. destruct (0 <? length ms)%nat.
  - constructor; [apply Hb|]. apply Forall_app. split; [apply globless_loop, Hrm|].
    repeat constructor.
  - repeat constructor.
Qed.

Lemma globless_not_in t p g : Forall globless t -> FilepathGlob p g ∈ t -> False.
Proof.
  intros Ht Hin. rewrite Forall_forall in Ht. exact (Ht _ Hin).
Qed.



Lemma plain_texts conf :
  plain_text (cache_text conf) /\ plain_text (json_text conf) /\
  plain_text (yaml_text conf) /\ plain_text (album_text conf).
Proof. repeat split. Qed.

(** A confirmed stage whose enumeration fails logs the error and does
    nothing else. *)
Lemma stage_obs_glob_error tx t0 t1 g rs tail p ms e :
  plain_text tx -> Forall globless tail ->
  FilepathGlob p (ms, Some e) ∈ stage_obs tx t0 t1 g rs ++ tail ->
  g = (ms, Some e) /\ p = st_pattern tx /\
  stage_obs tx t0 t1 g rs =
    [TimeNow t0; FilepathGlob p (ms, Some e); Log ErrorLevel (st_error tx) [ArgError e]].
Proof.
  intros [Hrm Hb] Htail Hin. unfold stage_obs in *.
  cbn [app] in Hin. apply elem_of_cons in Hin as [Hin|Hin]; [discriminate|].
  apply elem_of_cons in Hin as [Hin|Hin].
  - injection Hin as -> <-. repeat split.
  - exfalso. apply elem_of_app in Hin as [Hin|Hin];
      [|exact (globless_not_in _ _ _ Htail Hin)].
    destruct g.2.
    + apply list_elem_of_singleton in Hin. discriminate.
    + exact (globless_not_in _ _ _ (globless_removal _ _ _ _ _ Hrm Hb) Hin).
Qed.

Lemma album_obs_glob_error tx t0 t1 g rs tail p ms e :
  plain_text tx -> Forall globless tail ->
  FilepathGlob p (ms, Some e) ∈ album_obs tx t0 t1 g rs ++ tail ->
  g = (ms, Some e) /\ p = st_pattern tx /\
  album_obs tx t0 t1 g rs = [TimeNow t0; FilepathGlob p (ms, Some e)].
Proof.
  intros [Hrm Hb] Htail Hin. unfold album_obs in *.
  cbn [app] in Hin. apply elem_of_cons in Hin as [Hin|Hin]; [discriminate|].
  apply elem_of_cons in Hin as [Hin|Hin].
  - injection Hin as -> <-. repeat split.
  - exfalso. apply elem_of_app in Hin as [Hin|Hin];
      [|exact (globless_not_in _ _ _ Htail Hin)].
    destruct g.2.
    + apply elem_of_nil in Hin. exact Hin.
    + exact (globless_not_in _ _ _ (globless_removal _ _ _ _ _ Hrm Hb) Hin).
Qed.

Lemma full_flow ctx :
  flag_index ctx = false -> flag_yes ctx = false -> flow ctx = all_stages.
Proof. intros Hi Hy. unfold flow. rewrite Hi, Hy. reflexivity. Qed.

(** C7: in a session without [--index] and [--yes] whose bootstrap
    succeeded all five prompts are shown.  When the enumeration of the
    json or of the yaml sidecar stage returns an error, that stage takes
    the time, enumerates and logs the error, and nothing else; when the
    enumeration of the album stage returns an error, the command returns
    that error and only the shutdown follows. *)
Theorem enumeration_errors_by_stage ctx (w : W) :
  flag_index ctx = false ->
  flag_yes ctx = false ->
  (config_Init w).2 = None ->
  prompts (trace_of (resetAction ctx w)) = map stage_label all_stages /\
  (forall st l r seg p ms e,
     st = SidecarJson \/ st = SidecarYaml ->
     segments (trace_of (resetAction ctx w)) !! stage_index st = Some (l, r, seg) ->
     FilepathGlob p (ms, Some e) ∈ seg ->
     exists t0,
       seg = [TimeNow t0; FilepathGlob p (ms, Some e);
              Log ErrorLevel (stage_error_text st) [ArgError e]]) /\
  (forall l r seg p ms e,
     segments (trace_of (resetAction ctx w)) !! stage_index AlbumYaml = Some (l, r, seg) ->
     FilepathGlob p (ms, Some e) ∈ seg ->
     value_of (resetAction ctx w) = Some e /\
     exists t0, seg = [TimeNow t0; FilepathGlob p (ms, Some e); ConfigShutdown]).
Proof.
  intros Hidx Hyes Hinit.
  destruct (session_shape ctx w Hinit) as (a & _ & Htr & Hv).
  rewrite Htr, Hv, session_prompts, session_segments, (full_flow ctx Hidx Hyes).
  destruct (plain_texts (config_NewConfig ctx)) as (_ & Hpj & Hpy & Hpa).
  split; [reflexivity|]. split.
  - intros st l r seg p ms e Hst Hseg Hin.
    destruct Hst as [-> | ->]; cbn in Hseg; injection Hseg as <- <- <-;
      unfold gate_body in *; destruct (a_prompt a _).2 as [e'|];
      try (cbn in Hin; apply list_elem_of_singleton in Hin; discriminate);
      cbn [run_obs] in *.
    + apply stage_obs_glob_error in Hin as (_ & _ & ->); [|exact Hpj|constructor].
      rewrite app_nil_r. eexists; reflexivity.
    + apply stage_obs_glob_error in Hin as (_ & _ & ->); [|exact Hpy|constructor].
      rewrite app_nil_r. eexists; reflexivity.
  - intros l r seg p ms e Hseg Hin. cbn in Hseg. injection Hseg as <- <- <-.
    unfold session_value. rewrite Hidx, Hyes. cbn [orb].
    unfold gate_body in *. destruct (a_prompt a AlbumYaml).2 as [e'|].
    { cbn in Hin. apply elem_of_cons in Hin as [Hin|Hin]; [discriminate|].
      apply list_elem_of_singleton in Hin. discriminate. }
    cbn [run_obs] in *.
    apply album_obs_glob_error in Hin as (Hg & _ & ->); [|exact Hpa|repeat constructor].
    rewrite Hg. split; [reflexivity|]. eexists; reflexivity.
Qed.

(** *** What the command returns *)




(** *** The removal loop *)

Lemma balanced_app t1 t2 : balanced t1 -> balanced t2 -> balanced (t1 ++ t2).
Proof.
  intros [H1 H2] [H3 H4]. unfold balanced.
  rewrite attempts_app, enumerated_app, markers_app, !map_app. split; congruence.
Qed.

Lemma balanced_nil : balanced [].
Proof. split; reflexivity. Qed.

Lemma balanced_silent t : Forall silent t -> balanced t.
Proof.
  induction 1 as [|o t (Ha & Hm & He) _ IH]; [apply balanced_nil|].
  change (o :: t) with ([o] ++ t). apply balanced_app; [|exact IH].
  split; rewrite ?Ha, ?Hm, ?He; reflexivity.
Qed.

Lemma marker_is_marker b : markers [Print (marker b)] = [marker b].
Proof. destruct b; reflexivity. Qed.

Lemma loop_obs_facts rm : removal rm -> forall ms rs,
  length rs = length ms ->
  map fst (attempts (loop_obs rm ms rs)) = ms /\
  markers (loop_obs rm ms rs) = map (fun x => marker x.2) (attempts (loop_obs rm ms rs)) /\
  enumerated (loop_obs rm ms rs) = [].
Proof.
  intros Hrm ms. induction ms as [|n ms IH]; intros [|r rs] Hlen;
    try discriminate; [repeat split|].
  injection Hlen as Hlen. destruct (IH rs Hlen) as (Ha & Hm & He).
  destruct (Hrm n r) as (Hra & Hrmk & Hre).
  cbn [loop_obs].
  change (rm n r :: Print (marker (bool_decide (r = None))) :: loop_obs rm ms rs)
    with ([rm n r] ++ [Print (marker (bool_decide (r = None)))] ++ loop_obs rm ms rs).
  rewrite !attempts_app, !markers_app, !enumerated_app, Hra, Hrmk, Hre, marker_is_marker.
  change (attempts [Print ?s]) with (@nil (string * bool)).
  change (enumerated [Print ?s]) with (@nil string).
  cbn [app map fst snd]. rewrite Ha, <- Hm, He. repeat split.
Qed.

Lemma texts_ok conf :
  text_ok (cache_text conf) /\ text_ok (json_text conf) /\
  text_ok (yaml_text conf) /\ text_ok (album_text conf).
Proof. repeat split. Qed.

Lemma removal_obs_facts tx t0 t1 ms rs :
  text_ok tx -> length rs = length ms ->
  map fst (attempts (removal_obs tx t0 t1 ms rs)) = ms /\
  markers (removal_obs tx t0 t1 ms rs) =
    map (fun x => marker x.2) (attempts (removal_obs tx t0 t1 ms rs)) /\
  enumerated (removal_obs tx t0 t1 ms rs) = [].
Proof.
  intros [Hrm Hb] Hlen. unfold removal_obs.
  destruct (0 <? length ms)%nat eqn:Hn.
  - destruct (loop_obs_facts _ Hrm ms rs Hlen) as (Ha & Hm & He).
    destruct (Hb (length ms)) as (Hba & Hbm & Hbe).
    change (st_before tx (length ms) :: ?t) with ([st_before tx (length ms)] ++ t).
    rewrite !attempts_app, !markers_app, !enumerated_app, Hba, Hbm, Hbe.
    change (attempts [Print newline; ?x; ?y]) with (@nil (string * bool)).
    change (markers [Print newline; ?x; ?y]) with (@nil string).
    change (enumerated [Print newline; ?x; ?y]) with (@nil string).
    rewrite !app_nil_r. cbn [app]. auto.
  - apply Nat.ltb_ge in Hn. destruct ms; [|cbn in Hn; lia]. repeat split.
Qed.

Lemma balanced_stage tx t0 t1 g rs :
  text_ok tx -> length rs = length g.1 ->
  balanced (stage_obs tx t0 t1 g rs) /\ balanced (album_obs tx t0 t1 g rs).
Proof.
  intros Htx Hlen. destruct g as [ms [e|]]; cbn [fst snd] in *.
  - split; split; reflexivity.
  - destruct (removal_obs_facts tx t0 t1 ms rs Htx Hlen) as (Ha & Hm & He).
    unfold stage_obs, album_obs, balanced. cbn [snd fst].
    change (attempts (TimeNow t0 :: FilepathGlob ?p (ms, None) :: ?t)) with (attempts t).
    change (markers (TimeNow t0 :: FilepathGlob ?p (ms, None) :: ?t)) with (markers t).
    change (enumerated (TimeNow t0 :: FilepathGlob ?p (ms, None) :: ?t))
      with (ms ++ enumerated t).
    rewrite Ha, He, app_nil_r. auto.
Qed.

Lemma silent_index conf a : Forall silent (index_obs conf a).
Proof.
  unfold index_obs, password_obs. destruct (String.eqb _ _); repeat constructor.
Qed.

Lemma silent_preamble ctx : Forall silent (preamble_obs ctx).
Proof.
  unfold preamble_obs.
  destruct (flag_yes ctx), (flag_index ctx), (flag_trace ctx); repeat constructor.
Qed.

Lemma balanced_gate st conf a : fitting a -> balanced (gate_obs st conf a).
Proof.
  intros Hfit. unfold gate_obs.
  change (PromptRun ?l ?r :: ?t) with ([PromptRun l r] ++ t).
  apply balanced_app; [apply balanced_silent; repeat constructor|].
  unfold gate_body. destruct (a_prompt a st).2;
    [apply balanced_silent; repeat constructor|].
  destruct (texts_ok conf) as (Hc & Hj & Hy & Hl).
  destruct st; cbn [run_obs];
    [apply balanced_silent, silent_index|..]; apply balanced_stage; auto.
Qed.

Lemma balanced_session ctx conf a : fitting a -> balanced (session_obs ctx conf a).
Proof.
  intros Hfit. unfold session_obs.
  change (ConfigInit None :: ?t) with ([ConfigInit None] ++ t).
  apply balanced_app; [apply balanced_silent; repeat constructor|].
  apply balanced_app; [apply balanced_silent, silent_preamble|].
  apply balanced_app.
  { destruct (flag_yes ctx); [apply balanced_silent, silent_index|apply balanced_nil]. }
  apply balanced_app; [|apply balanced_silent; repeat constructor].
  induction (flow ctx) as [|st l IH]; [apply balanced_nil|].
  cbn [map concat]. apply balanced_app; [apply balanced_gate, Hfit|exact IH].
Qed.

Lemma markers_count tr :
  count_marker "." tr + count_marker "E" tr = length (markers tr).
Proof.
  unfold count_marker.
  induction tr as [|o tr IH]; [reflexivity|].
  change (o :: tr) with ([o] ++ tr).
  rewrite markers_app, !filter_app, !length_app, <- IH.
  assert (Ho : length (filter (fun s => s = ".") (markers [o]))
               + length (filter (fun s => s = "E") (markers [o]))
               = length (markers [o])); [|lia].
  destruct o; try reflexivity. unfold markers. simpl.
  destruct (String.eqb s "." || String.eqb s "E") eqn:Hs; [|reflexivity].
  apply orb_prop in Hs as [Hs|Hs]; apply String.eqb_eq in Hs; subst s; reflexivity.
Qed.

(** C5: in every session the names given to the removal primitives are,
    in order, the paths of the MatchSets that were enumerated without
    error; each attempt is followed by its marker, [.] when it succeeded
    and [E] when it failed; and the markers [.] and [E] together are as
    many as the enumerated paths. *)
Theorem every_match_attempted ctx (w : W) :
  map fst (attempts (trace_of (resetAction ctx w))) =
    enumerated (trace_of (resetAction ctx w)) /\
  markers (trace_of (resetAction ctx w)) =
    map (fun x => marker x.2) (attempts (trace_of (resetAction ctx w))) /\
  count_marker "." (trace_of (resetAction ctx w))
  + count_marker "E" (trace_of (resetAction ctx w)) =
    length (enumerated (trace_of (resetAction ctx w))).
Proof.
  assert (Hb : balanced (trace_of (resetAction ctx w))).
  { destruct (config_Init w).2 as [e|] eqn:Hinit.
    - destruct (session_init_failed ctx w e Hinit) as [-> _]. split; reflexivity.
    - destruct (session_shape ctx w Hinit) as (a & Hfit & -> & _).
      apply balanced_session, Hfit. }
  destruct Hb as [Ha Hm]. repeat split; [exact Ha|exact Hm|].
  rewrite markers_count, Hm, <- Ha, !length_map. reflexivity.
Qed.

(** *** The schema reset *)

Lemma resetIndexDb_obs conf (w : W) :
  exists a, trace_of (resetIndexDb conf w) = index_obs conf a.
Proof.
  destruct (resetIndexDb_shape conf w) as (t0 & t1 & r1 & r2 & r3 & H).
  exists (with_index ("", None) t0 t1 r1 r2 r3 no_answers). exact H.
Qed.

(** C9: the schema reset drops the tables, migrates, and then calls
    [Admin.InitPassword] once, with exactly the configured administrator
    password, when that password is not empty; when it is empty the call
    is not made. *)
Theorem admin_password_restored conf (w : W) :
  (exists a, trace_of (resetIndexDb conf w) = index_obs conf a) /\
  init_passwords (trace_of (resetIndexDb conf w)) =
    if String.eqb (AdminPassword conf) "" then [] else [AdminPassword conf].
Proof.
  destruct (resetIndexDb_obs conf w) as (a & Ha). split; [exists a; exact Ha|].
  rewrite Ha. unfold index_obs, password_obs.
  destruct (String.eqb (AdminPassword conf) ""); reflexivity.
Qed.

(** *** Which primitive removes *)

Lemma loop_obs_single ms : forall rs,
  length rs = length ms ->
  removed_single (loop_obs OsRemove ms rs) = ms /\
  removed_recursive (loop_obs OsRemove ms rs) = [].
Proof.
  induction ms as [|n ms IH]; intros [|r rs] Hlen; try discriminate; [split; reflexivity|].
  injection Hlen as Hlen. destruct (IH rs Hlen) as [H1 H2].
  cbn [loop_obs].
  match goal with
  | |- context [?x :: ?y :: loop_obs ?rm ms rs] =>
      change (x :: y :: loop_obs rm ms rs) with ([x; y] ++ loop_obs rm ms rs)
  end.
  rewrite removed_single_app, removed_recursive_app, H1, H2. split; reflexivity.
Qed.

Lemma loop_obs_recursive ms : forall rs,
  length rs = length ms ->
  removed_recursive (loop_obs OsRemoveAll ms rs) = ms /\
  removed_single (loop_obs OsRemoveAll ms rs) = [].
Proof.
  induction ms as [|n ms IH]; intros [|r rs] Hlen; try discriminate; [split; reflexivity|].
  injection Hlen as Hlen. destruct (IH rs Hlen) as [H1 H2].
  cbn [loop_obs].
  match goal with
  | |- context [?x :: ?y :: loop_obs ?rm ms rs] =>
      change (x :: y :: loop_obs rm ms rs) with ([x; y] ++ loop_obs rm ms rs)
  end.
  rewrite removed_single_app, removed_recursive_app, H1, H2. split; reflexivity.
Qed.

Lemma removal_obs_removed tx t0 t1 ms rs :
  (forall n, removed_single [st_before tx n] = [] /\ removed_recursive [st_before tx n] = []) ->
  length rs = length ms ->
  removed_single (removal_obs tx t0 t1 ms rs) = removed_single (loop_obs (st_remove tx) ms rs) /\
  removed_recursive (removal_obs tx t0 t1 ms rs) = removed_recursive (loop_obs (st_remove tx) ms rs).
Proof.
  intros Hb Hlen. unfold removal_obs. destruct (0 <? length ms)%nat eqn:Hn.
  - destruct (Hb (length ms)) as [Hb1 Hb2].
    change (st_before tx (length ms) :: ?t) with ([st_before tx (length ms)] ++ t).
    rewrite !removed_single_app, !removed_recursive_app, Hb1, Hb2.
    cbn [app]. split; apply app_nil_r.
  - apply Nat.ltb_ge in Hn. destruct ms; [|cbn in Hn; lia].
    destruct rs; [|discriminate]. split; reflexivity.
Qed.

Lemma gate_removed st conf a :
  fitting a ->
  removed_recursive (gate_obs st conf a) =
    match st with Cache => matches_of a st | _ => [] end /\
  removed_single (gate_obs st conf a) =
    match st with
    | SidecarJson | SidecarYaml | AlbumYaml => matches_of a st
    | _ => []
    end.
Proof.
  intros Hfit. specialize (Hfit st). unfold gate_obs, gate_body, matches_of.
  change (removed_recursive (PromptRun ?l ?r :: ?t)) with (removed_recursive t).
  change (removed_single (PromptRun ?l ?r :: ?t)) with (removed_single t).
  destruct (a_prompt a st).2; [destruct st; split; reflexivity|].
  destruct st; cbn [run_obs].
  - unfold index_obs, password_obs. destruct (String.eqb _ _); split; reflexivity.
  - unfold stage_obs.
    change (removed_recursive (TimeNow ?t :: FilepathGlob ?p ?g :: ?r)) with (removed_recursive r).
    change (removed_single (TimeNow ?t :: FilepathGlob ?p ?g :: ?r)) with (removed_single r).
    destruct (a_glob a Cache) as [ms [e|]]; [split; reflexivity|]. cbn [fst snd] in *.
    destruct (removal_obs_removed (cache_text conf) (a_start a Cache) (a_stop a Cache)
                ms (a_removals a Cache)) as [-> ->]; [split; reflexivity|exact Hfit|].
    cbn [st_remove cache_text].
    destruct (loop_obs_recursive ms _ Hfit) as [-> ->]. split; reflexivity.
  - unfold stage_obs.
    change (removed_recursive (TimeNow ?t :: FilepathGlob ?p ?g :: ?r)) with (removed_recursive r).
    change (removed_single (TimeNow ?t :: FilepathGlob ?p ?g :: ?r)) with (removed_single r).
    destruct (a_glob a SidecarJson) as [ms [e|]]; [split; reflexivity|]. cbn [fst snd] in *.
    destruct (removal_obs_removed (json_text conf) (a_start a SidecarJson)
                (a_stop a SidecarJson) ms (a_removals a SidecarJson)) as [-> ->];
      [split; reflexivity|exact Hfit|].
    cbn [st_remove json_text yaml_text album_text].
    destruct (loop_obs_single ms _ Hfit) as [-> ->]. split; reflexivity.
  - unfold stage_obs.
    change (removed_recursive (TimeNow ?t :: FilepathGlob ?p ?g :: ?r)) with (removed_recursive r).
    change (removed_single (TimeNow ?t :: FilepathGlob ?p ?g :: ?r)) with (removed_single r).
    destruct (a_glob a SidecarYaml) as [ms [e|]]; [split; reflexivity|]. cbn [fst snd] in *.
    destruct (removal_obs_removed (yaml_text conf) (a_start a SidecarYaml)
                (a_stop a SidecarYaml) ms (a_removals a SidecarYaml)) as [-> ->];
      [split; reflexivity|exact Hfit|].
    cbn [st_remove json_text yaml_text album_text].
    destruct (loop_obs_single ms _ Hfit) as [-> ->]. split; reflexivity.
  - unfold album_obs.
    change (removed_recursive (TimeNow ?t :: FilepathGlob ?p ?g :: ?r)) with (removed_recursive r).
    change (removed_single (TimeNow ?t :: FilepathGlob ?p ?g :: ?r)) with (removed_single r).
    destruct (a_glob a AlbumYaml) as [ms [e|]]; [split; reflexivity|]. cbn [fst snd] in *.
    destruct (removal_obs_removed (album_text conf) (a_start a AlbumYaml)
                (a_stop a AlbumYaml) ms (a_removals a AlbumYaml)) as [-> ->];
      [split; reflexivity|exact Hfit|].
    cbn [st_remove json_text yaml_text album_text].
    destruct (loop_obs_single ms _ Hfit) as [-> ->]. split; reflexivity.
Qed.

Lemma removed_quiet_index conf a :
  removed_recursive (index_obs conf a) = [] /\ removed_single (index_obs conf a) = [].
Proof.
  unfold index_obs, password_obs. destruct (String.eqb _ _); split; reflexivity.
Qed.

Lemma removed_quiet_preamble ctx :
  removed_recursive (preamble_obs ctx) = [] /\ removed_single (preamble_obs ctx) = [].
Proof.
  unfold preamble_obs.
  destruct (flag_yes ctx), (flag_index ctx), (flag_trace ctx); split; reflexivity.
Qed.

Lemma session_removed ctx conf a :
  fitting a ->
  removed_recursive (session_obs ctx conf a) = confirmed_matches ctx a Cache /\
  removed_single (session_obs ctx conf a) =
    confirmed_matches ctx a SidecarJson ++ confirmed_matches ctx a SidecarYaml
    ++ confirmed_matches ctx a AlbumYaml.
Proof.
  intros Hfit. unfold session_obs.
  change (removed_recursive (ConfigInit None :: ?t)) with (removed_recursive t).
  change (removed_single (ConfigInit None :: ?t)) with (removed_single t).
  rewrite !removed_recursive_app, !removed_single_app.
  destruct (removed_quiet_preamble ctx) as [-> ->].
  assert (Hi : removed_recursive (if flag_yes ctx then index_obs conf a else []) = [] /\
               removed_single (if flag_yes ctx then index_obs conf a else []) = []).
  { destruct (flag_yes ctx); [apply removed_quiet_index|split; reflexivity]. }
  destruct Hi as [-> ->]. cbn [app]. rewrite !app_nil_r.
  unfold confirmed_matches, flow, all_stages.
  destruct (flag_yes ctx); [split; reflexivity|].
  destruct (flag_index ctx); cbn [map concat];
    rewrite ?removed_recursive_app, ?removed_single_app;
    repeat match goal with
    | |- context [removed_recursive (gate_obs ?st conf a)] =>
        destruct (gate_removed st conf a Hfit) as [-> ->]
    end.
  - split; reflexivity.
  - fold (matches_of a Cache) (matches_of a SidecarJson) (matches_of a SidecarYaml)
      (matches_of a AlbumYaml).
    cbn [app]. rewrite !app_nil_r. split; reflexivity.
Qed.

(** The names given to [os.RemoveAll] are the MatchSet of the cache
    stage, those given to [os.Remove] the MatchSets of the other three. *)
Lemma removal_primitive_by_stage ctx (w : W) :
  (config_Init w).2 = None ->
  exists a,
    fitting a /\
    trace_of (resetAction ctx w) = session_obs ctx (config_NewConfig ctx) a /\
    removed_recursive (trace_of (resetAction ctx w)) = confirmed_matches ctx a Cache /\
    removed_single (trace_of (resetAction ctx w)) =
      confirmed_matches ctx a SidecarJson ++ confirmed_matches ctx a SidecarYaml
      ++ confirmed_matches ctx a AlbumYaml.
Proof.
  intros Hinit. destruct (session_shape ctx w Hinit) as (a & Hfit & Htr & _).
  exists a. rewrite Htr. destruct (session_removed ctx (config_NewConfig ctx) a Hfit).
  auto.
Qed.

End Claims.


(** * The claims on concrete sessions *)

(** C2: [Match] takes [**] for [*], which does not cross a separator; on
    the sidecar root of the scenario the pattern of the json stage
    therefore matches nothing, and the confirmed stage finds no file and
    leaves the file system as it was. *)
Theorem double_star_one_level :
  (forall name, Filepath.Match "**" name = Filepath.Match "*" name) /\
  Unix.Glob (Regexp.QuoteMeta "/data/sidecar" +:+ "/**/*.json") sidecar_fs = ([], None) /\
  (let r := World.reset no_flags
              (World.boot sidecar_conf sidecar_fs
                 [World.Line "n"; World.Line "n"; World.Line "y";
                  World.Line "n"; World.Line "n"]) in
   segments (trace_of r) !! 2%nat =
     Some ("Delete all *.json sidecar files?", ("y", None),
           [TimeNow 0; FilepathGlob "/data/sidecar/**/*.json" ([], None);
            Log InfoLevel "found no *.json sidecar files" []]) /\
   World.w_fs (world_of r) = sidecar_fs).
Proof.
  split; [intros name; reflexivity|].
  split; [vm_compute; reflexivity|].
  vm_compute. split; reflexivity.
Qed.



(** C10: in a session whose bootstrap succeeded the names given to
    [os.RemoveAll] are the MatchSet of the cache stage and those given to
    [os.Remove] the MatchSets of the json, yaml and album stages.
    [os.Remove] fails on a directory that is not empty and leaves the file
    system as it was; [os.RemoveAll] succeeds on a directory and leaves
    nothing of it and of what is below it, and everything else. *)
Theorem removal_by_stage :
  (forall (W : Type) (E : Env W) ctx (w : W),
     (config_Init w).2 = None ->
     exists a,
       fitting a /\
       trace_of (resetAction ctx w) = session_obs ctx (config_NewConfig ctx) a /\
       removed_recursive (trace_of (resetAction ctx w)) = confirmed_matches ctx a Cache /\
       removed_single (trace_of (resetAction ctx w)) =
         confirmed_matches ctx a SidecarJson ++ confirmed_matches ctx a SidecarYaml
         ++ confirmed_matches ctx a AlbumYaml) /\
  (forall fs name p,
     Unix.resolve fs name = inr p ->
     Unix.nodes fs !! p = Some Unix.Dir ->
     Unix.children (Unix.nodes fs) p <> [] ->
     exists e, Unix.Remove name fs = (fs, Some e)) /\
  (forall fs name p,
     Unix.resolve fs name = inr p ->
     p <> [] ->
     Unix.endsWithDot name = false ->
     Unix.last_is_dot name = false ->
     (Unix.RemoveAll name fs).2 = None /\
     forall q : list string,
       Unix.nodes (Unix.RemoveAll name fs).1 !! q =
       if bool_decide (p `prefix_of` q) then None else Unix.nodes fs !! q).
Proof.
  split; [intros W E ctx w; apply removal_primitive_by_stage|].
  split; [exact UnixFacts.Remove_nonempty_dir|].
  intros fs name p Hres Hp Hd Hl.
  rewrite (UnixFacts.RemoveAll_subtree fs name p Hres Hp Hd Hl).
  split; [reflexivity|]. intros q. apply UnixFacts.without_subtree_lookup.
Qed.

(** ** The theorems on concrete sessions *)

Lemma assume_yes_index_only_witness :
  flag_yes only_yes = true /\
  (config_Init database_fails).2 = None /\
  exists a,
    trace_of (resetAction only_yes database_fails) =
      ConfigInit None
      :: preamble_obs only_yes
      ++ index_obs (config_NewConfig only_yes) a ++ [ConfigShutdown] /\
    value_of (resetAction only_yes database_fails) = None /\
    prompts (trace_of (resetAction only_yes database_fails)) = [] /\
    Forall (fun o => is_file_op o = false)
      (trace_of (resetAction only_yes database_fails)).
Proof.
  split; [reflexivity|]. split; [reflexivity|].
  apply (assume_yes_index_only only_yes database_fails); reflexivity.
Defined.

Lemma index_only_prompts_once_witness :
  flag_index only_index = true /\
  flag_yes only_index = false /\
  (config_Init some_declined).2 = None /\
  exists a,
    trace_of (resetAction only_index some_declined) =
      ConfigInit None
      :: preamble_obs only_index
      ++ gate_obs Index (config_NewConfig only_index) a ++ [ConfigShutdown] /\
    value_of (resetAction only_index some_declined) = None /\
    prompts (trace_of (resetAction only_index some_declined)) = [stage_label Index] /\
    Forall (fun o => is_file_op o = false)
      (trace_of (resetAction only_index some_declined)).
Proof.
  split; [reflexivity|]. split; [reflexivity|]. split; [reflexivity|].
  apply (index_only_prompts_once only_index some_declined); reflexivity.
Defined.

Lemma declining_keeps_and_continues_witness :
  (config_Init some_declined).2 = None /\
  prompts (trace_of (resetAction no_flags some_declined)) =
    map stage_label (flow no_flags) /\
  forall i l r seg,
    segments (trace_of (resetAction no_flags some_declined)) !! i = Some (l, r, seg) ->
    r.2 <> None ->
    exists st,
      flow no_flags !! i = Some st /\ l = stage_label st /\
      seg = Log InfoLevel (stage_keeping st) [] :: closing no_flags st.
Proof.
  split; [reflexivity|].
  apply (declining_keeps_and_continues no_flags some_declined); reflexivity.
Defined.

Lemma enumeration_errors_by_stage_witness :
  flag_index no_flags = false /\
  flag_yes no_flags = false /\
  (config_Init json_and_album_fail).2 = None /\
  (exists t0,
     [TimeNow 4; FilepathGlob "/data/sidecar/**/*.json" ([], Some ErrBadPattern);
      Log ErrorLevel "reset: %s (find *.json sidecar files)" [ArgError ErrBadPattern]] =
     [TimeNow t0; FilepathGlob "/data/sidecar/**/*.json" ([], Some ErrBadPattern);
      Log ErrorLevel (stage_error_text SidecarJson) [ArgError ErrBadPattern]]) /\
  value_of (resetAction no_flags json_and_album_fail) = Some ErrBadPattern.
Proof.
  split; [reflexivity|]. split; [reflexivity|]. split; [reflexivity|].
  destruct (enumeration_errors_by_stage no_flags json_and_album_fail)
    as (_ & Hjson & Halbum); [reflexivity..|].
  split.
  - apply (Hjson SidecarJson "Delete all *.json sidecar files?" yes _
             "/data/sidecar/**/*.json" [] ErrBadPattern);
      [left; reflexivity|vm_compute; reflexivity|].
    apply elem_of_cons. right. apply elem_of_cons. left. reflexivity.
  - apply (Halbum "Delete all *.yml album files?" yes
             [TimeNow 7; FilepathGlob "/data/albums/**/*.yml" ([], Some ErrBadPattern);
              ConfigShutdown]
             "/data/albums/**/*.yml" [] ErrBadPattern);
      [vm_compute; reflexivity|].
    apply elem_of_cons. right. apply elem_of_cons. left. reflexivity.
Defined.

Lemma removal_by_stage_witness :
  (exists a,
     fitting a /\
     trace_of (resetAction no_flags json_and_album_fail) =
       session_obs no_flags (config_NewConfig no_flags) a /\
     removed_recursive (trace_of (resetAction no_flags json_and_album_fail)) =
       confirmed_matches no_flags a Cache /\
     removed_single (trace_of (resetAction no_flags json_and_album_fail)) =
       confirmed_matches no_flags a SidecarJson
       ++ confirmed_matches no_flags a SidecarYaml
       ++ confirmed_matches no_flags a AlbumYaml) /\
  (exists e, Unix.Remove "/data/sidecar/x/d.json" dir_json_fs = (dir_json_fs, Some e)) /\
  (Unix.RemoveAll "/data/cache/t" dir_json_fs).2 = None /\
  Unix.nodes (Unix.RemoveAll "/data/cache/t" dir_json_fs).1 !! ["data"; "cache"; "t"; "1.jpg"]
    = None.
Proof.
  destruct removal_by_stage as (Hgen & Hrm & Hall).
  split; [apply (Hgen _ Scripted.env no_flags json_and_album_fail); reflexivity|].
  split.
  - apply (Hrm dir_json_fs "/data/sidecar/x/d.json" ["data"; "sidecar"; "x"; "d.json"]);
      [vm_compute; reflexivity|vm_compute; reflexivity|vm_compute; discriminate].
  - destruct (Hall dir_json_fs "/data/cache/t" ["data"; "cache"; "t"]) as [Hok Hgone];
      [vm_compute; reflexivity|discriminate|reflexivity|vm_compute; reflexivity|].
    split; [exact Hok|]. rewrite Hgone. reflexivity.
Defined.

(** * Further properties of the command *)

(** ** Plain patterns *)
Module PlainFacts.

Import GoString Filepath Utf8 Regexp MatchFacts.

Lemma byte_is_eq c d : byte_is c d = true -> c = d.
Proof. apply Ascii.eqb_eq. Qed.

(** Induction over a plain pattern, one pattern element at a time. *)
Lemma plain_pattern_ind (P : string -> Prop) :
  P "" ->
  (forall d rest,
     byte_is d "/" = false -> plain_pattern rest = true -> P rest ->
     P (String "\" (String d rest))) ->
  (forall c rest,
     byte_is c "\" = false -> byte_is c "[" = false ->
     plain_pattern rest = true -> P rest -> P (String c rest)) ->
  forall p, plain_pattern p = true -> P p.
Proof.
  intros Hnil Hesc Hlit p.
  remember (String.length p) as n eqn:Hn.
  revert p Hn. induction (lt_wf n) as [n _ IH]. intros p -> Hp.
  destruct p as [|c rest]; [exact Hnil|].
  cbn [plain_pattern] in Hp.
  destruct (byte_is c "\") eqn:Hc.
  - apply byte_is_eq in Hc as ->.
    destruct rest as [|d rest]; [discriminate|].
    apply andb_true_iff in Hp as [Hd Hp]. apply negb_true_iff in Hd.
    apply Hesc; [exact Hd|exact Hp|].
    eapply IH; [|reflexivity|exact Hp]. cbn. lia.
  - destruct (byte_is c "[") eqn:Hb; [discriminate|].
    apply Hlit; [exact Hc|exact Hb|exact Hp|].
    eapply IH; [|reflexivity|exact Hp]. cbn. lia.
Qed.

(** [matchChunk] reports no error on a plain chunk. *)
Lemma matchChunk_loop_plain fuel : forall chunk s failed r,
  plain_pattern chunk = true ->
  matchChunk_loop fuel chunk s failed = Some r -> r.2 = None.
Proof.
  induction fuel as [|fuel IH]; intros chunk s failed r Hp H; [discriminate|].
  chunk_step_in H.
  destruct chunk as [|c chunk1]; [destruct failed; injection H as <-; reflexivity|].
  cbn [plain_pattern] in Hp.
  destruct (byte_is c "\") eqn:Hc.
  - apply byte_is_eq in Hc as ->.
    destruct chunk1 as [|d chunk2]; [discriminate|].
    apply andb_true_iff in Hp as [_ Hp].
    cbn [byte_is Ascii.eqb Bool.eqb is_empty andb] in H.
    destruct (failed || is_empty s).
    + eapply IH; [exact Hp|exact H].
    + destruct s as [|s0 s']; [discriminate|]. eapply IH; [exact Hp|exact H].
  - destruct (byte_is c "[") eqn:Hb; [discriminate|].
    destruct (byte_is c "?").
    { destruct (failed || is_empty s); eapply IH; try exact H; exact Hp. }
    cbn [andb] in H.
    destruct (failed || is_empty s).
    + eapply IH; [exact Hp|exact H].
    + destruct s as [|s0 s']; [discriminate|]. eapply IH; [exact Hp|exact H].
Qed.

Lemma matchChunk_plain chunk s :
  plain_pattern chunk = true -> (matchChunk chunk s).2 = None.
Proof.
  intros Hp.
  eapply (matchChunk_loop_plain (S (String.length chunk))); [exact Hp|].
  apply matchChunk_fuel. lia.
Qed.

(** Whenever [matchChunk] says no, the rest it returns is empty. *)
Lemma matchChunk_loop_false fuel : forall chunk s failed t e,
  matchChunk_loop fuel chunk s failed = Some (t, false, e) -> t = "".
Proof.
  induction fuel as [|fuel IH]; intros chunk s failed t e H; [discriminate|].
  chunk_step_in H.
  destruct chunk as [|c chunk1].
  { destruct failed; injection H as <-; congruence. }
  destruct (byte_is c "[").
  { destruct (if failed || is_empty s then _ else _) as [r s1].
    destruct (if head_is "^" chunk1 then _ else _) as [negated chunk2].
    destruct (classLoop _ chunk2 r false 0) as [[[m chunk3] [e'|]]|];
      [injection H as <-; reflexivity| |discriminate].
    eapply IH; exact H. }
  destruct (byte_is c "?").
  { destruct (failed || is_empty s); eapply IH; exact H. }
  destruct (byte_is c "\" && is_empty chunk1); [injection H as <-; reflexivity|].
  destruct (if byte_is c "\" then chunk1 else String c chunk1); [discriminate|].
  destruct (failed || is_empty s); [eapply IH; exact H|].
  destruct s; [discriminate|]. eapply IH; exact H.
Qed.

Lemma matchChunk_false chunk s t e : matchChunk chunk s = (t, false, e) -> t = "".
Proof.
  intros H. eapply (matchChunk_loop_false (S (String.length chunk)) chunk s false).
  rewrite matchChunk_fuel by lia. rewrite H. reflexivity.
Qed.

Lemma skipStars_plain p : forall star star' p',
  plain_pattern p = true -> skipStars p star = (star', p') -> plain_pattern p' = true.
Proof.
  induction p as [|c p IH]; intros star star' p' Hp H; cbn [skipStars] in H.
  - injection H as <- <-. reflexivity.
  - destruct (byte_is c "*") eqn:Hc.
    + apply byte_is_eq in Hc as ->. eapply IH; [exact Hp|exact H].
    + injection H as <- <-. exact Hp.
Qed.

Lemma scanIndex_plain p :
  plain_pattern p = true ->
  plain_pattern (take (scanIndex p false) p) = true /\
  plain_pattern (drop (scanIndex p false) p) = true.
Proof.
  revert p. apply plain_pattern_ind.
  - split; reflexivity.
  - intros d rest Hd Hp [IH1 IH2].
    cbn [scanIndex byte_is Ascii.eqb Bool.eqb Nat.add take drop plain_pattern].
    rewrite Hd, IH1. split; [reflexivity|exact IH2].
  - intros c rest Hc Hb Hp [IH1 IH2].
    cbn [scanIndex]. rewrite Hc, Hb.
    assert (Hcons : forall q, plain_pattern (String c q) = plain_pattern q)
      by (intros q; cbn [plain_pattern]; rewrite Hc, Hb; reflexivity).
    destruct (byte_is c "]").
    { cbn [take drop]. rewrite Hcons. split; [exact IH1|exact IH2]. }
    destruct (byte_is c "*").
    { cbn [take drop]. rewrite Hcons. split; [reflexivity|exact Hp]. }
    cbn [take drop]. rewrite Hcons. split; [exact IH1|exact IH2].
Qed.

Lemma scanChunk_plain p star chunk p' :
  plain_pattern p = true -> scanChunk p = (star, chunk, p') ->
  plain_pattern chunk = true /\ plain_pattern p' = true.
Proof.
  intros Hp H. unfold scanChunk in H.
  destruct (skipStars p false) as [star0 p0] eqn:Hs.
  injection H as <- <- <-.
  apply scanIndex_plain. eapply skipStars_plain; [exact Hp|exact Hs].
Qed.

(** One round of the loop behind [remainder]. *)
Lemma remainder_eq p :
  remainder p =
  if is_empty p then None
  else
    let '(_, chunk, p') := scanChunk p in
    match matchChunk chunk "" with
    | (_, _, Some e) => Some e
    | (_, _, None) => remainder p'
    end.
Proof.
  unfold remainder at 1. cbn [remainder_loop].
  destruct (is_empty p) eqn:Hp; [reflexivity|].
  destruct (scanChunk p) as [[star chunk] p'] eqn:Hsc.
  apply scanChunk_shorter in Hsc; [|exact Hp].
  destruct (matchChunk chunk "") as [[t ok] [e|]]; [reflexivity|].
  rewrite remainder_fuel by lia. reflexivity.
Qed.

Lemma remainder_plain p : plain_pattern p = true -> remainder p = None.
Proof.
  remember (String.length p) as n eqn:Hn.
  revert p Hn. induction (lt_wf n) as [n _ IH]. intros p -> Hp.
  rewrite remainder_eq.
  destruct (is_empty p) eqn:He; [reflexivity|].
  destruct (scanChunk p) as [[star chunk] p'] eqn:Hsc.
  destruct (scanChunk_plain _ _ _ _ Hp Hsc) as [Hchunk Hp'].
  pose proof (matchChunk_plain chunk "" Hchunk) as Herr.
  destruct (matchChunk chunk "") as [[t ok] err]. cbn in Herr. subst err.
  eapply IH; [|reflexivity|exact Hp'].
  eapply scanChunk_shorter; [exact He|exact Hsc].
Qed.

Lemma starLoop_plain chunk last name e :
  plain_pattern chunk = true -> starLoop chunk last name <> StarError e.
Proof.
  intros Hp. induction name as [|c rest IH]; cbn [starLoop]; [discriminate|].
  destruct (byte_is c Separator); [discriminate|].
  pose proof (matchChunk_plain chunk rest Hp) as Herr.
  destruct (matchChunk chunk rest) as [[t ok] err]. cbn in Herr. subst err.
  destruct ok; [|exact IH].
  destruct (last && negb (is_empty t)); [exact IH|discriminate].
Qed.

(** [Match] reports no syntax error on a plain pattern, whatever the
    name. *)
Lemma Match_plain p : plain_pattern p = true -> forall name, (Match p name).2 = None.
Proof.
  remember (String.length p) as n eqn:Hn.
  revert p Hn. induction (lt_wf n) as [n _ IH]. intros p -> Hp name.
  rewrite Match_eq. unfold Match_body.
  destruct (is_empty p) eqn:He; [reflexivity|].
  destruct (scanChunk p) as [[star chunk] p'] eqn:Hsc.
  destruct (scanChunk_plain _ _ _ _ Hp Hsc) as [Hchunk Hp'].
  pose proof (scanChunk_shorter _ _ _ _ He Hsc) as Hlt.
  destruct (star && is_empty chunk); [reflexivity|].
  pose proof (matchChunk_plain chunk name Hchunk) as Herr.
  destruct (matchChunk chunk name) as [[t ok] err]. cbn in Herr. subst err.
  destruct (ok && _); [eapply IH; [exact Hlt|reflexivity|exact Hp']|].
  pose proof (fun e => starLoop_plain chunk (is_empty p') name e Hchunk) as Hstar.
  destruct star; cbn [snd].
  - destruct (starLoop chunk (is_empty p') name) as [t'|e|].
    + eapply IH; [exact Hlt|reflexivity|exact Hp'].
    + exfalso. eapply Hstar. reflexivity.
    + apply remainder_plain. exact Hp'.
  - apply remainder_plain. exact Hp'.
Qed.

(** What [regexp.QuoteMeta] makes of a path is plain. *)
Lemma plain_quote root suffix :
  plain_pattern (QuoteMeta root +:+ suffix) = plain_pattern suffix.
Proof.
  induction root as [|b root IH]; [reflexivity|].
  cbn [QuoteMeta]. destruct (special b) eqn:Hb.
  - rewrite !str_app_cons.
    change (plain_pattern (String "\" (String b (QuoteMeta root +:+ suffix))))
      with (negb (byte_is b "/") && plain_pattern (QuoteMeta root +:+ suffix)).
    rewrite IH.
    assert (Hsep : byte_is b "/" = false).
    { destruct (byte_is b "/") eqn:H; [|reflexivity].
      apply byte_is_eq in H as ->. discriminate. }
    rewrite Hsep. reflexivity.
  - rewrite str_app_cons. cbn [plain_pattern].
    destruct (special_false b Hb) as (Hm & _ & _).
    unfold chunk_meta in Hm.
    apply orb_false_iff in Hm as [Hm Hbs]. apply orb_false_iff in Hm as [Hbr _].
    rewrite Hbs, Hbr. exact IH.
Qed.

(** *** [Glob] on a plain pattern *)

Lemma separators_app a b : separators (a +:+ b) = separators a + separators b.
Proof.
  induction a as [|c a IH]; [reflexivity|].
  rewrite str_app_cons. cbn [separators]. rewrite IH. lia.
Qed.

Lemma str_length_app (a b : string) :
  String.length (a +:+ b) = String.length a + String.length b.
Proof.
  induction a as [|c a IH]; [reflexivity|].
  rewrite str_app_cons. cbn [String.length]. rewrite IH. reflexivity.
Qed.

(** Where [Split] cuts a plain pattern: what precedes the last separator
    is plain, and so is what follows it. *)
Lemma split_last_plain p :
  plain_pattern p = true ->
  forall d f, split_last Separator p = Some (d, f) ->
  exists d0, d = d0 +:+ "/" /\ p = d0 +:+ "/" +:+ f /\
             plain_pattern d0 = true /\ plain_pattern f = true.
Proof.
  revert p.
  apply (plain_pattern_ind (fun p =>
    forall d f, split_last Separator p = Some (d, f) ->
    exists d0, d = d0 +:+ "/" /\ p = d0 +:+ "/" +:+ f /\
               plain_pattern d0 = true /\ plain_pattern f = true)).
  - intros d f H. discriminate.
  - intros c rest Hc Hp IH d f H.
    cbn [split_last] in H.
    destruct (split_last Separator rest) as [[l r]|] eqn:Hs.
    + injection H as <- <-.
      destruct (IH _ _ eq_refl) as (d0 & -> & -> & Hd0 & Hf).
      exists (String "\" (String c d0)). rewrite !str_app_cons.
      repeat split; try exact Hf.
      change (negb (byte_is c "/") && plain_pattern d0 = true).
      rewrite Hc, Hd0. reflexivity.
    + unfold Separator in H. rewrite Ascii.eqb_sym in H.
      unfold byte_is in Hc. rewrite Hc in H. discriminate.
  - intros c rest Hc Hb Hp IH d f H.
    cbn [split_last] in H.
    assert (Hcons : forall q, plain_pattern (String c q) = plain_pattern q)
      by (intros q; cbn [plain_pattern]; rewrite Hc, Hb; reflexivity).
    destruct (split_last Separator rest) as [[l r]|] eqn:Hs.
    + injection H as <- <-.
      destruct (IH _ _ eq_refl) as (d0 & -> & -> & Hd0 & Hf).
      exists (String c d0). rewrite !str_app_cons, Hcons. auto.
    + destruct (Ascii.eqb Separator c) eqn:Hsep; [|discriminate].
      injection H as <- <-.
      apply Ascii.eqb_eq in Hsep as <-.
      exists "". auto.
Qed.

Lemma cleanGlobPath_dir d0 :
  cleanGlobPath (d0 +:+ "/") = if is_empty d0 then "/" else d0.
Proof.
  destruct d0 as [|c d0]; [reflexivity|].
  unfold cleanGlobPath. rewrite str_app_cons. cbn [is_empty].
  replace (String.eqb (String c (d0 +:+ "/")) "/") with false.
  2:{ symmetry. apply String.eqb_neq. intros H. injection H as _ H.
      destruct d0; discriminate. }
  rewrite <- str_app_cons.
  replace (String.length (String c d0 +:+ "/") - 1)
    with (String.length (String c d0) + 0) by (rewrite str_length_app; cbn; lia).
  rewrite str_take_app.
  replace (take 0 "/") with "" by reflexivity.
  apply str_app_empty_r.
Qed.

Section GlobPlain.

Variable os : FsView.

Lemma glob_names_plain dir pattern names : forall m,
  plain_pattern pattern = true -> (glob_names dir pattern names m).2 = None.
Proof.
  induction names as [|n names IH]; intros m Hp; [reflexivity|].
  cbn [glob_names].
  pose proof (Match_plain pattern Hp n) as He.
  destruct (Match pattern n) as [matched err]. cbn in He. subst err.
  apply IH. exact Hp.
Qed.

Lemma glob_plain dir pattern m :
  plain_pattern pattern = true -> (glob os dir pattern m).2 = None.
Proof.
  intros Hp. unfold glob.
  destruct (stat_is_dir os dir) as [[|]|]; try reflexivity.
  destruct (readdirnames os dir); [|reflexivity].
  apply glob_names_plain. exact Hp.
Qed.

Lemma glob_dirs_plain file dirs : forall m,
  plain_pattern file = true -> (glob_dirs os file dirs m).2 = None.
Proof.
  induction dirs as [|d dirs IH]; intros m Hp; [reflexivity|].
  cbn [glob_dirs].
  pose proof (glob_plain d file m Hp) as He.
  destruct (glob os d file m) as [m' err]. cbn in He. subst err.
  apply IH. exact Hp.
Qed.

(** [Glob] reports no error on a plain pattern, unless the pattern has
    as many separators as the limit on the depth allows. *)
Lemma globWithLimit_plain rem : forall p,
  plain_pattern p = true -> separators p < rem ->
  (globWithLimit os rem p).2 = None.
Proof.
  induction rem as [|rem IH]; intros p Hp Hn; [lia|].
  cbn [globWithLimit].
  rewrite (Match_plain p Hp "").
  destruct (negb (hasMeta p)); [destruct (lstat os p); reflexivity|].
  unfold Split.
  destruct (split_last Separator p) as [[d f]|] eqn:Hs.
  - destruct (split_last_plain p Hp d f Hs) as (d0 & -> & Hpe & Hd0 & Hf).
    rewrite cleanGlobPath_dir.
    destruct (is_empty d0) eqn:He.
    { cbn [hasMeta contains_any contains_byte Ascii.eqb Bool.eqb negb].
      apply glob_plain. exact Hf. }
    destruct (negb (hasMeta d0)); [apply glob_plain; exact Hf|].
    replace (String.eqb d0 p) with false.
    2:{ symmetry. apply String.eqb_neq. intros ->.
        apply (f_equal String.length) in Hpe.
        rewrite !str_length_app in Hpe. cbn in Hpe. lia. }
    assert (Hlt : separators d0 < rem).
    { rewrite Hpe, !separators_app in Hn. cbn in Hn. lia. }
    pose proof (IH d0 Hd0 Hlt) as He'.
    destruct (globWithLimit os rem d0) as [m err]. cbn in He'. subst err.
    apply glob_dirs_plain. exact Hf.
  - cbn [cleanGlobPath is_empty hasMeta contains_any contains_byte
           Ascii.eqb Bool.eqb negb].
    apply glob_plain. exact Hp.
Qed.

End GlobPlain.

End PlainFacts.

(** ** The trace is the log of what was done to the world *)
Section Logged.

Context {W : Type} {E : Env W}.

Lemma steps_app w t1 w1 t2 w2 :
  steps w t1 w1 -> steps w1 t2 w2 -> steps w (t1 ++ t2) w2.
Proof.
  revert w. induction t1 as [|o t1 IH]; intros w H1 H2.
  - cbn in H1. subst w1. exact H2.
  - destruct H1 as (w' & Ho & H1). exists w'. split; [exact Ho|].
    apply IH; assumption.
Qed.

Lemma steps_app_inv w t1 t2 w2 :
  steps w (t1 ++ t2) w2 -> exists w1, steps w t1 w1 /\ steps w1 t2 w2.
Proof.
  revert w. induction t1 as [|o t1 IH]; intros w H.
  - exists w. split; [reflexivity|exact H].
  - destruct H as (w' & Ho & H). destruct (IH _ H) as (w1 & H1 & H2).
    exists w1. split; [exists w'; split; assumption|exact H2].
Qed.

Lemma logged_ret {A} (a : A) : logged (mret a).
Proof. intros w. reflexivity. Qed.

Lemma logged_bind {A B} (m : M W A) (k : A -> M W B) :
  logged m -> (forall a, logged (k a)) -> logged (m ≫= k).
Proof.
  intros Hm Hk w. rewrite trace_bind, world_bind.
  eapply steps_app; [apply Hm|apply Hk].
Qed.

Lemma logged_one {A} (m : M W A) (o : W -> Obs) :
  (forall w, trace_of (m w) = [o w]) ->
  (forall w, op_step w (o w) (world_of (m w))) ->
  logged m.
Proof.
  intros Ht Hs w. rewrite Ht. exists (world_of (m w)). split; [apply Hs|reflexivity].
Qed.

Lemma logged_logf l format args : logged (logf l format args).
Proof. apply (logged_one _ (fun _ => Log l format args)); reflexivity. Qed.

Lemma logged_print s : logged (emit (Print s)).
Proof. apply (logged_one _ (fun _ => Print s)); reflexivity. Qed.

Lemma logged_now : logged now.
Proof.
  apply (logged_one _ (fun w => TimeNow (time_Now w).2)); intros w.
  - apply trace_call.
  - unfold now. rewrite world_call. cbn. destruct (time_Now w); reflexivity.
Qed.

Lemma logged_since start : logged (since start).
Proof.
  unfold since. apply logged_bind; [apply logged_now|intros t; apply logged_ret].
Qed.

Lemma logged_Glob p : logged (Glob p).
Proof.
  apply (logged_one _ (fun w => FilepathGlob p (filepath_Glob p w).2)); intros w.
  - apply trace_call.
  - unfold Glob. rewrite world_call. cbn. destruct (filepath_Glob p w); reflexivity.
Qed.

Lemma logged_Remove n : logged (Remove n).
Proof.
  apply (logged_one _ (fun w => OsRemove n (os_Remove n w).2)); intros w.
  - apply trace_call.
  - unfold Remove. rewrite world_call. cbn. destruct (os_Remove n w); reflexivity.
Qed.

Lemma logged_RemoveAll n : logged (RemoveAll n).
Proof.
  apply (logged_one _ (fun w => OsRemoveAll n (os_RemoveAll n w).2)); intros w.
  - apply trace_call.
  - unfold RemoveAll. rewrite world_call. cbn. destruct (os_RemoveAll n w); reflexivity.
Qed.

Lemma logged_Run l : logged (Run l).
Proof.
  apply (logged_one _ (fun w => PromptRun l (prompt_Run l w).2)); intros w.
  - apply trace_call.
  - unfold Run. rewrite world_call. cbn. destruct (prompt_Run l w); reflexivity.
Qed.

Lemma logged_remove_each (rm : string -> M W (option error)) ms :
  (forall n, logged (rm n)) -> logged (remove_each rm ms).
Proof.
  intros Hrm. induction ms as [|n ms IH]; [apply logged_ret|].
  cbn [remove_each].
  apply logged_bind; [apply Hrm|intros err].
  apply logged_bind; [destruct err; apply logged_print|intros _; exact IH].
Qed.

Ltac logged_step :=
  first
    [ apply logged_ret | apply logged_logf | apply logged_print
    | apply logged_now | apply logged_since | apply logged_Glob
    | apply logged_Run
    | apply logged_remove_each; intros; first [apply logged_Remove|apply logged_RemoveAll]
    | apply logged_bind; [|intros ?] ].

Lemma resetIndexDb_logged conf : logged (resetIndexDb conf).
Proof.
  unfold resetIndexDb.
  assert (Hdrop : logged (call_ tables_Drop TablesDrop)).
  { apply (logged_one _ (fun w => TablesDrop (tables_Drop w).2)); intros w.
    - apply trace_call_.
    - rewrite world_call_. cbn. destruct (tables_Drop w); reflexivity. }
  assert (Hmig : logged (call_ (entity_MigrateDb true false) (MigrateDb true false))).
  { apply (logged_one _ (fun w => MigrateDb true false (entity_MigrateDb true false w).2));
      intros w.
    - apply trace_call_.
    - rewrite world_call_. cbn. destruct (entity_MigrateDb true false w); reflexivity. }
  assert (Hpw : forall p, logged (call_ (admin_InitPassword p) (AdminInitPassword p))).
  { intros p.
    apply (logged_one _ (fun w => AdminInitPassword p (admin_InitPassword p w).2));
      intros w.
    - apply trace_call_.
    - rewrite world_call_. cbn. destruct (admin_InitPassword p w); reflexivity. }
  repeat first [exact Hdrop | exact Hmig | apply Hpw | logged_step
               | match goal with |- logged (if ?b then _ else _) => destruct b end].
Qed.

Ltac logged_stage :=
  repeat first
    [ logged_step
    | match goal with
      | |- logged (let '(_, _) := ?x in _) => destruct x
      | |- logged (match ?x with _ => _ end) => destruct x
      end ].

Lemma resetCache_logged conf : logged (resetCache conf).
Proof. unfold resetCache. logged_stage. Qed.

Lemma resetSidecarJson_logged conf : logged (resetSidecarJson conf).
Proof. unfold resetSidecarJson. logged_stage. Qed.

Lemma resetSidecarYaml_logged conf : logged (resetSidecarYaml conf).
Proof. unfold resetSidecarYaml. logged_stage. Qed.

Lemma resetAlbumYaml_logged conf : logged (resetAlbumYaml conf).
Proof. unfold resetAlbumYaml. logged_stage. Qed.

Lemma resetAction_body_logged ctx conf : logged (resetAction_body ctx conf).
Proof.
  unfold resetAction_body.
  apply logged_bind.
  { apply (logged_one _ (fun _ => SetDbProvider)); intros w; reflexivity. }
  intros _. apply logged_bind.
  { destruct (negb (ctx_Bool ctx "yes")); [|apply logged_ret].
    apply logged_bind; [apply logged_logf|intros _].
    destruct (negb (ctx_Bool ctx "index")); [apply logged_logf|apply logged_ret]. }
  intros _. apply logged_bind.
  { destruct (ctx_Bool ctx "trace"); [|apply logged_ret].
    apply logged_bind; [|intros _; apply logged_logf].
    apply (logged_one _ (fun _ => LogSetLevel TraceLevel)); intros w; reflexivity. }
  intros _. apply logged_bind.
  { destruct (negb (ctx_Bool ctx "yes")); [|apply logged_ret].
    apply logged_bind; [apply logged_Run|intros r].
    destruct r.2; [|apply logged_ret].
    apply logged_bind; [apply logged_logf|intros _; apply logged_ret]. }
  intros resetIndex. apply logged_bind.
  { destruct resetIndex; [apply resetIndexDb_logged|apply logged_ret]. }
  intros _.
  destruct (ctx_Bool ctx "index" || ctx_Bool ctx "yes"); [apply logged_ret|].
  apply logged_bind; [apply logged_Run|intros r].
  apply logged_bind.
  { destruct r.2; [apply logged_logf|apply resetCache_logged]. }
  intros _. apply logged_bind; [apply logged_Run|intros r'].
  apply logged_bind.
  { destruct r'.2; [apply logged_logf|apply resetSidecarJson_logged]. }
  intros _. apply logged_bind; [apply logged_Run|intros r''].
  apply logged_bind.
  { destruct r''.2; [apply logged_logf|apply resetSidecarYaml_logged]. }
  intros _. apply resetAlbumYaml_logged.
Qed.

(** The trace of the command is the log of what it did: every
    observation is the answer that the collaborator gave in the world
    the operations before it had left, and the world at the end is the
    one the last operation left. *)
Lemma resetAction_logged ctx : logged (resetAction ctx).
Proof.
  unfold resetAction.
  apply logged_bind.
  { apply (logged_one _ (fun w => ConfigInit (config_Init w).2)); intros w.
    - apply trace_call.
    - rewrite world_call. cbn. destruct (config_Init w); reflexivity. }
  intros [e|]; [apply logged_ret|].
  apply logged_bind; [apply resetAction_body_logged|intros r].
  apply logged_bind; [|intros _; apply logged_ret].
  apply (logged_one _ (fun _ => ConfigShutdown)); intros w; reflexivity.
Qed.

End Logged.

(** ** The command on a Unix file system *)
Section WorldFacts.

Import World.

Variable c : Config.

Ltac env_step H :=
  cbn [op_step env config_Init config_Shutdown entity_SetDbProvider log_SetLevel
       prompt_Run time_Now filepath_Glob os_Remove os_RemoveAll tables_Drop
       entity_MigrateDb admin_InitPassword] in H.

Ltac world_step H :=
  env_step H; unfold run_prompt, on_fs, on_db in H;
  repeat case_match; simplify_eq.



(** The terminal is read by the prompts only, one input each. *)
Lemma steps_stdin tr : forall w w',
  steps (E := env c) w tr w' ->
  w_stdin w' = drop (length (prompts tr)) (w_stdin w).
Proof.
  induction tr as [|o tr IH]; intros w w' H.
  - cbn in H. subst. reflexivity.
  - destruct H as (w1 & Ho & H). rewrite (IH _ _ H).
    change (o :: tr) with ([o] ++ tr). rewrite prompts_app, length_app.
    rewrite <- drop_drop. f_equal.
    destruct o; world_step Ho; try reflexivity.
    match goal with H : w_stdin _ = [] |- _ => rewrite H end. reflexivity.
Qed.


(** Every enumeration is that of [filepath.Glob] on some file system. *)
Lemma steps_glob tr : forall w w' p r,
  steps (E := env c) w tr w' ->
  FilepathGlob p r ∈ tr ->
  exists fs, r = Unix.Glob p fs.
Proof.
  induction tr as [|o tr IH]; intros w w' p r H Hin.
  - apply elem_of_nil in Hin as [].
  - destruct H as (w1 & Ho & H).
    apply elem_of_cons in Hin as [<-|Hin]; [|eapply IH; eassumption].
    env_step Ho. exists (w_fs w). congruence.
Qed.

End WorldFacts.

(** ** What the observations of a session are *)

Lemma Forall_loop_obs (P : Obs -> Prop) rm ms : forall rs,
  (forall n r, P (rm n r)) -> (forall s, P (Print s)) ->
  Forall P (loop_obs rm ms rs).
Proof.
  induction ms as [|n ms IH]; intros [|r rs] Hrm Hp; cbn [loop_obs];
    try constructor; [apply Hrm|].
  constructor; [apply Hp|apply IH; assumption].
Qed.

Section SessionObs.

Variable P : Obs -> Prop.
Variable conf : Config.
Variable a : Answers.

Hypothesis P_other : forall o, is_db_op o = false -> is_file_op o = false -> P o.

Lemma Forall_preamble ctx : Forall P (preamble_obs ctx).
Proof.
  unfold preamble_obs.
  destruct (flag_yes ctx), (flag_index ctx), (flag_trace ctx);
    repeat constructor; apply P_other; reflexivity.
Qed.

Lemma Forall_index_obs :
  (forall o, is_db_op o = true -> P o) -> Forall P (index_obs conf a).
Proof.
  intros Hdb. unfold index_obs, password_obs.
  destruct (String.eqb _ _); repeat constructor;
    first [apply P_other; reflexivity | apply Hdb; reflexivity].
Qed.

Lemma Forall_removal_obs tx t0 t1 ms rs :
  (forall n r, P (st_remove tx n r)) ->
  (forall n, P (st_before tx n)) ->
  Forall P (removal_obs tx t0 t1 ms rs).
Proof.
  intros Hrm Hb. unfold removal_obs. destruct (0 <? length ms)%nat.
  - constructor; [apply Hb|]. apply Forall_app. split.
    + apply Forall_loop_obs; [exact Hrm|]. intros s. apply P_other; reflexivity.
    + repeat constructor; apply P_other; reflexivity.
  - repeat constructor. apply P_other; reflexivity.
Qed.

Lemma Forall_stage_obs tx t0 t1 g rs :
  P (FilepathGlob (st_pattern tx) g) ->
  (forall n r, P (st_remove tx n r)) ->
  (forall n, P (st_before tx n)) ->
  Forall P (stage_obs tx t0 t1 g rs) /\ Forall P (album_obs tx t0 t1 g rs).
Proof.
  intros Hg Hrm Hb. unfold stage_obs, album_obs.
  split; (constructor; [apply P_other; reflexivity|]); (constructor; [exact Hg|]);
    (destruct g.2; [|apply Forall_removal_obs; assumption]);
    repeat constructor. apply P_other; reflexivity.
Qed.

Lemma Forall_gate_obs st :
  ((a_prompt a st).2 = None -> st = Index -> forall o, is_db_op o = true -> P o) ->
  ((a_prompt a st).2 = None -> forall o, stage_file_op conf a st o -> P o) ->
  Forall P (gate_obs st conf a).
Proof.
  intros Hdb Hfile. unfold gate_obs, gate_body.
  constructor; [apply P_other; reflexivity|].
  destruct (a_prompt a st).2 as [e|].
  { repeat constructor. apply P_other; reflexivity. }
  specialize (Hdb eq_refl). specialize (Hfile eq_refl).
  destruct st; cbn [run_obs].
  - apply Forall_index_obs. apply Hdb. reflexivity.
  - apply Forall_stage_obs.
    + apply Hfile. split; reflexivity.
    + intros n r. apply Hfile. reflexivity.
    + intros n. apply P_other; reflexivity.
  - apply Forall_stage_obs.
    + apply Hfile. split; reflexivity.
    + intros n r. apply Hfile. cbn. auto.
    + intros n. apply P_other; reflexivity.
  - apply Forall_stage_obs.
    + apply Hfile. split; reflexivity.
    + intros n r. apply Hfile. cbn. auto.
    + intros n. apply P_other; reflexivity.
  - apply Forall_stage_obs.
    + apply Hfile. split; reflexivity.
    + intros n r. apply Hfile. cbn. auto.
    + intros n. apply P_other; reflexivity.
Qed.

(** Every observation of a session is one that touches neither the
    database nor the file system, a call of the schema reset when the
    index is reset, or what a confirmed removal stage of the flow does to
    the file system. *)
Lemma Forall_session_obs ctx :
  (flag_yes ctx = true \/ (a_prompt a Index).2 = None ->
   forall o, is_db_op o = true -> P o) ->
  (forall st o,
     st ∈ flow ctx -> (a_prompt a st).2 = None -> stage_file_op conf a st o -> P o) ->
  Forall P (session_obs ctx conf a).
Proof.
  intros Hdb Hfile. unfold session_obs.
  constructor; [apply P_other; reflexivity|].
  apply Forall_app. split; [apply Forall_preamble|].
  apply Forall_app. split.
  { destruct (flag_yes ctx) eqn:Hy; [|constructor].
    apply Forall_index_obs. apply Hdb. left. reflexivity. }
  apply Forall_app. split; [|repeat constructor; apply P_other; reflexivity].
  apply Forall_concat, Forall_map. apply Forall_forall. intros st Hst.
  apply Forall_gate_obs.
  - intros Hp ->. apply Hdb. right. exact Hp.
  - intros Hp o. apply Hfile; assumption.
Qed.

End SessionObs.

(** ** Sessions on a Unix file system *)

Lemma reset_steps ctx w :
  steps (E := World.env (World.w_conf w)) w
    (trace_of (World.reset ctx w)) (world_of (World.reset ctx w)).
Proof. apply (resetAction_logged (E := World.env (World.w_conf w))). Qed.

(** The trace of a session on a world: that of a bootstrap that failed,
    or that of a session with some answers. *)
Lemma reset_trace ctx w :
  match World.w_init w with
  | Some e =>
      trace_of (World.reset ctx w) = [ConfigInit (Some e)] /\
      value_of (World.reset ctx w) = Some e
  | None =>
      exists a,
        fitting a /\
        trace_of (World.reset ctx w) = session_obs ctx (World.w_conf w) a /\
        value_of (World.reset ctx w) = session_value ctx a
  end.
Proof.
  destruct (World.w_init w) as [e|] eqn:Hi.
  - apply (session_init_failed (E := World.env (World.w_conf w))). exact Hi.
  - apply (session_shape (E := World.env (World.w_conf w))). exact Hi.
Qed.


Lemma stage_file_op_index conf a o : stage_file_op conf a Index o -> False.
Proof.
  destruct o; cbn; try tauto.
  - intros [H _]. discriminate.
  - intros [H|[H|H]]; discriminate.
  - discriminate.
Qed.








(** X4: the command reads one input for each prompt of the flow and no
    other: five without flags, one with [--index], none with [--yes] or
    when the bootstrap fails. *)
Theorem one_input_per_prompt ctx w :
  World.w_stdin (world_of (World.reset ctx w)) =
  drop (match World.w_init w with
        | None => length (flow ctx)
        | Some _ => 0
        end) (World.w_stdin w).
Proof.
  rewrite (steps_stdin _ _ _ _ (reset_steps ctx w)).
  pose proof (reset_trace ctx w) as Ht.
  destruct (World.w_init w) as [e|].
  - destruct Ht as [-> _]. reflexivity.
  - destruct Ht as (a & _ & -> & _).
    rewrite session_prompts, length_map. reflexivity.
Qed.

(** *** Enumeration does not fail *)

Lemma separators_quote root : separators (Regexp.QuoteMeta root) = separators root.
Proof.
  induction root as [|b root IH]; [reflexivity|].
  cbn [Regexp.QuoteMeta]. destruct (Regexp.special b) eqn:Hb.
  - cbn [separators]. rewrite IH. cbn. reflexivity.
  - cbn [separators]. rewrite IH. reflexivity.
Qed.

(** The pattern of a stage is plain, with at most two separators more
    than its root. *)
Lemma stage_pattern_plain conf st p :
  stage_pattern conf st = Some p ->
  plain_pattern p = true /\ separators p <= separators (stage_root conf st) + 2.
Proof.
  destruct st; cbn [stage_pattern stage_root]; intros H; [discriminate|..];
    injection H as <-; cbn [st_pattern cache_text json_text yaml_text album_text];
    rewrite PlainFacts.plain_quote, PlainFacts.separators_app, separators_quote;
    (split; [reflexivity|cbn; lia]).
Qed.

Lemma shallow_root conf st :
  shallow conf -> separators (stage_root conf st) + 2 < Filepath.pathSeparatorsLimit.
Proof.
  intros (H1 & H2 & H3). destruct st; cbn [stage_root]; try assumption.
  cbn [separators]. unfold Filepath.pathSeparatorsLimit. lia.
Qed.

Lemma tame_session ctx conf a :
  shallow conf -> Forall tame_glob (session_obs ctx conf a).
Proof.
  intros Hsh. apply Forall_session_obs.
  - intros o _ Hf. destruct o; try exact I. discriminate.
  - intros _ o Hd. destruct o; try exact I. discriminate.
  - intros st o _ _ Hop. destruct o; try exact I.
    destruct Hop as [Hp _].
    destruct (stage_pattern_plain _ _ _ Hp) as [Hplain Hsep].
    split; [exact Hplain|].
    pose proof (shallow_root conf st Hsh). lia.
Qed.

Lemma steps_glob_ok c tr : forall w w',
  steps (E := World.env c) w tr w' -> Forall tame_glob tr -> Forall glob_ok tr.
Proof.
  induction tr as [|o tr IH]; intros w w' H Ht; [constructor|].
  destruct H as (w1 & Ho & H). inversion Ht as [|? ? Ht1 Ht2]; subst.
  constructor; [|eapply IH; eassumption].
  destruct o; try exact I.
  cbn [op_step World.env filepath_Glob] in Ho. injection Ho as _ <-.
  destruct Ht1 as [Hplain Hsep]. cbn [glob_ok].
  apply PlainFacts.globWithLimit_plain; assumption.
Qed.

Lemma glob_errors_ok tr : Forall glob_ok tr -> glob_errors tr = [].
Proof.
  induction 1 as [|o t Ho _ IH]; [reflexivity|].
  unfold glob_errors in *. cbn [omap].
  destruct o; try exact IH. destruct r as [ms [e|]]; [discriminate|exact IH].
Qed.

Lemma session_value_ok ctx conf a :
  Forall glob_ok (session_obs ctx conf a) -> session_value ctx a = None.
Proof.
  intros H. unfold session_value.
  destruct (flag_index ctx || flag_yes ctx) eqn:Hfl; [reflexivity|].
  apply orb_false_iff in Hfl as [Hx Hy].
  destruct (a_prompt a AlbumYaml).2 eqn:Hp; [reflexivity|].
  unfold session_obs, flow, all_stages in H. rewrite Hy, Hx in H.
  cbn [map concat] in H.
  apply Forall_cons in H as [_ H].
  do 2 apply Forall_app in H as [_ H].
  apply Forall_app in H as [H _].
  do 4 apply Forall_app in H as [_ H].
  apply Forall_app in H as [H _].
  unfold gate_obs, gate_body in H. rewrite Hp in H. cbn [run_obs album_obs] in H.
  apply Forall_cons in H as [_ H]. apply Forall_cons in H as [_ H].
  apply Forall_cons in H as [H _]. exact H.
Qed.

(** X5: on a Unix file system, with roots that are not ten thousand
    directories deep, no enumeration of the command fails: no error line
    is logged and the command returns what the bootstrap returned. *)
Theorem fails_only_at_bootstrap ctx w :
  shallow (World.w_conf w) ->
  glob_errors (trace_of (World.reset ctx w)) = [] /\
  value_of (World.reset ctx w) = World.w_init w.
Proof.
  intros Hsh.
  pose proof (reset_steps ctx w) as Hs.
  pose proof (reset_trace ctx w) as Ht.
  destruct (World.w_init w) as [e|].
  { destruct Ht as [-> ->]. split; reflexivity. }
  destruct Ht as (a & _ & Ht & Hv). rewrite Ht in *.
  pose proof (steps_glob_ok _ _ _ _ Hs (tame_session ctx _ a Hsh)) as Hok.
  split; [apply glob_errors_ok; exact Hok|].
  rewrite Hv. eapply session_value_ok. exact Hok.
Qed.

(** ** Counting and reading the observations of a session *)

Lemma count_app f t1 t2 : count f (t1 ++ t2) = count f t1 + count f t2.
Proof. unfold count. rewrite List.filter_app, length_app. reflexivity. Qed.

Lemma count_none f t : Forall (fun o => f o = false) t -> count f t = 0.
Proof.
  induction 1 as [|o t Ho _ IH]; [reflexivity|].
  unfold count in *. cbn [List.filter]. rewrite Ho. exact IH.
Qed.

Lemma globbed_app t1 t2 : globbed (t1 ++ t2) = globbed t1 ++ globbed t2.
Proof. apply omap_app. Qed.

Lemma confirmed_app t1 t2 : confirmed (t1 ++ t2) = confirmed t1 ++ confirmed t2.
Proof. apply omap_app. Qed.

Lemma globbed_globless t : Forall globless t -> globbed t = [].
Proof.
  induction 1 as [|o t Ho _ IH]; [reflexivity|].
  unfold globbed in *. cbn [omap]. destruct o; try exact IH. destruct Ho.
Qed.

Lemma confirmed_quiet t : Forall quiet t -> confirmed t = [].
Proof.
  induction 1 as [|o t Ho _ IH]; [reflexivity|].
  unfold confirmed in *. cbn [omap]. destruct o; try exact IH. discriminate.
Qed.

Lemma stage_of_stage_label st : stage_of_label (stage_label st) = Some st.
Proof. destruct st; reflexivity. Qed.

Lemma globless_index conf a : Forall globless (index_obs conf a).
Proof.
  unfold index_obs, password_obs. destruct (String.eqb _ _); repeat constructor.
Qed.

Lemma globless_preamble ctx : Forall globless (preamble_obs ctx).
Proof.
  unfold preamble_obs.
  destruct (flag_yes ctx), (flag_index ctx), (flag_trace ctx); repeat constructor.
Qed.

Lemma globbed_stage tx t0 t1 g rs :
  plain_text tx ->
  globbed (stage_obs tx t0 t1 g rs) = [st_pattern tx] /\
  globbed (album_obs tx t0 t1 g rs) = [st_pattern tx].
Proof.
  intros [Hrm Hb]. unfold stage_obs, album_obs.
  change (globbed (TimeNow ?t :: FilepathGlob ?p ?r :: ?l)) with (p :: globbed l).
  destruct g.2.
  - split; reflexivity.
  - rewrite (globbed_globless _ (globless_removal tx t0 t1 g.1 rs Hrm Hb)).
    split; reflexivity.
Qed.

Lemma confirmed_prompt st r :
  confirmed [PromptRun (stage_label st) r] =
  match r.2 with None => [st] | Some _ => [] end.
Proof. destruct r as [s [e|]]; destruct st; reflexivity. Qed.

Lemma globbed_gate st conf a :
  globbed (gate_obs st conf a) =
  omap (stage_pattern conf) (confirmed (gate_obs st conf a)).
Proof.
  unfold gate_obs.
  change (globbed (PromptRun ?l ?r :: ?t)) with (globbed t).
  change (PromptRun ?l ?r :: ?t) with ([PromptRun l r] ++ t).
  rewrite confirmed_app, (confirmed_quiet _ (quiet_gate_body st conf a)), app_nil_r.
  rewrite confirmed_prompt. unfold gate_body.
  destruct (a_prompt a st).2 as [e|]; [reflexivity|].
  destruct (plain_texts conf) as (Hc & Hj & Hy & Ha).
  destruct st; cbn [run_obs stage_pattern]; change (omap ?f [?x]) with (option_list (f x));
    cbn [stage_pattern option_list].
  - apply globbed_globless, globless_index.
  - apply globbed_stage, Hc.
  - apply globbed_stage, Hj.
  - apply globbed_stage, Hy.
  - apply globbed_stage, Ha.
Qed.

Lemma globbed_session ctx conf a :
  globbed (session_obs ctx conf a) =
  omap (stage_pattern conf) (confirmed (session_obs ctx conf a)).
Proof.
  unfold session_obs.
  change (globbed (ConfigInit None :: ?t)) with (globbed t).
  change (confirmed (ConfigInit None :: ?t)) with (confirmed t).
  rewrite !globbed_app, !confirmed_app.
  rewrite (globbed_globless _ (globless_preamble ctx)).
  rewrite (confirmed_quiet _ (quiet_preamble ctx)).
  rewrite (globbed_globless (if flag_yes ctx then _ else _))
    by (destruct (flag_yes ctx); [apply globless_index|constructor]).
  rewrite (confirmed_quiet (if flag_yes ctx then _ else _))
    by (destruct (flag_yes ctx); [apply quiet_index|constructor]).
  cbn [app]. change (globbed [ConfigShutdown]) with (@nil string).
  change (confirmed [ConfigShutdown]) with (@nil Stage). rewrite !app_nil_r.
  induction (flow ctx) as [|st l IH]; [reflexivity|].
  cbn [map concat]. rewrite globbed_app, confirmed_app, omap_app, IH, globbed_gate.
  reflexivity.
Qed.

Section Sessions.

Context {W : Type} {E : Env W}.

(** X6: when the bootstrap fails the command does nothing else: the
    trace is the failed bootstrap alone, with no shutdown; the error is
    returned and the world is the one the bootstrap left. *)
Theorem bootstrap_failure_stops ctx (w : W) e :
  (config_Init w).2 = Some e ->
  trace_of (resetAction ctx w) = [ConfigInit (Some e)] /\
  value_of (resetAction ctx w) = Some e /\
  world_of (resetAction ctx w) = (config_Init w).1.
Proof.
  intros Hinit.
  destruct (session_init_failed ctx w e Hinit) as [Ht Hv].
  repeat split; [exact Ht|exact Hv|].
  unfold resetAction. rewrite world_bind, world_call, value_call, Hinit.
  reflexivity.
Qed.

(** X7: once the bootstrap has succeeded, [conf.Shutdown] is called
    exactly once and it is the last thing the command does, also when the
    command returns the error of the album enumeration. *)
Theorem shutdown_once_and_last ctx (w : W) :
  (config_Init w).2 = None ->
  last (trace_of (resetAction ctx w)) = Some ConfigShutdown /\
  count is_shutdown (trace_of (resetAction ctx w)) = 1.
Proof.
  intros Hinit.
  destruct (session_shape ctx w Hinit) as (a & _ & -> & _).
  unfold session_obs. split.
  - rewrite app_comm_cons, !app_assoc. apply last_snoc.
  - change (ConfigInit None :: ?t) with ([ConfigInit None] ++ t).
    rewrite !count_app.
    assert (Hother : forall o, is_db_op o = false -> is_file_op o = false ->
                               is_shutdown o = false \/ o = ConfigShutdown).
    { intros o _ _. destruct o; auto. }
    rewrite (count_none _ (preamble_obs ctx)).
    2:{ unfold preamble_obs.
        destruct (flag_yes ctx), (flag_index ctx), (flag_trace ctx);
          repeat constructor. }
    rewrite (count_none _ (if flag_yes ctx then _ else _)).
    2:{ destruct (flag_yes ctx); [|constructor].
        unfold index_obs, password_obs. destruct (String.eqb _ _); repeat constructor. }
    rewrite (count_none _ (concat _)); [reflexivity|].
    apply Forall_concat, Forall_map, Forall_forall. intros st _.
    unfold gate_obs, gate_body. constructor; [reflexivity|].
    destruct (a_prompt a st).2; [repeat constructor|].
    assert (Hstage : forall tx t0 t1 g rs,
               (forall n r, is_shutdown (st_remove tx n r) = false) ->
               (forall n, is_shutdown (st_before tx n) = false) ->
               Forall (fun o => is_shutdown o = false) (stage_obs tx t0 t1 g rs) /\
               Forall (fun o => is_shutdown o = false) (album_obs tx t0 t1 g rs)).
    { intros tx t0 t1 g rs Hrm Hb. unfold stage_obs, album_obs, removal_obs.
      split; (do 2 (constructor; [reflexivity|]));
        (destruct g.2; [repeat constructor|]);
        (destruct (0 <? length g.1)%nat; [|repeat constructor]);
        (constructor; [apply Hb|]); (apply Forall_app; split; [|repeat constructor]);
        (apply Forall_loop_obs; [exact Hrm|reflexivity]). }
    destruct st; cbn [run_obs].
    + unfold index_obs, password_obs. destruct (String.eqb _ _); repeat constructor.
    + apply Hstage; reflexivity.
    + apply Hstage; reflexivity.
    + apply Hstage; reflexivity.
    + apply Hstage; reflexivity.
Qed.

(** X8: what is enumerated follows from what was confirmed: the
    patterns given to [filepath.Glob] are, in order, those of the removal
    stages whose prompt returned no error, each built from the root of
    its own stage; a stage that was not confirmed enumerates nothing. *)
Theorem patterns_follow_confirmation ctx (w : W) :
  globbed (trace_of (resetAction ctx w)) =
  omap (stage_pattern (config_NewConfig ctx)) (confirmed (trace_of (resetAction ctx w))).
Proof.
  destruct (config_Init w).2 as [e|] eqn:Hinit.
  - destruct (session_init_failed ctx w e Hinit) as [-> _]. reflexivity.
  - destruct (session_shape ctx w Hinit) as (a & _ & -> & _).
    apply globbed_session.
Qed.

End Sessions.

(** ** Lines of progress markers *)

Lemma count_cons f o t : count f (o :: t) = (if f o then 1 else 0) + count f t.
Proof. unfold count. cbn [List.filter]. destruct (f o); reflexivity. Qed.

Lemma Forall_loop_markers (P : Obs -> Prop) rm ms : forall rs,
  (forall n r, P (rm n r)) -> (forall b, P (Print (marker b))) ->
  Forall P (loop_obs rm ms rs).
Proof.
  induction ms as [|n ms IH]; intros [|r rs] Hrm Hp; cbn [loop_obs];
    try constructor; [apply Hrm|].
  constructor; [apply Hp|apply IH; assumption].
Qed.

Lemma newlines_removal tx t0 t1 ms rs :
  (forall n r, is_newline (st_remove tx n r) = false) ->
  (forall n, is_newline (st_before tx n) = false) ->
  count is_newline (removal_obs tx t0 t1 ms rs) = if (0 <? length ms)%nat then 1 else 0.
Proof.
  intros Hrm Hb. unfold removal_obs. destruct (0 <? length ms)%nat; [|reflexivity].
  rewrite count_cons, Hb, count_app, (count_none _ (loop_obs _ _ _)); [reflexivity|].
  apply Forall_loop_markers; [exact Hrm|]. intros []; reflexivity.
Qed.

Lemma newlines_stage tx t0 t1 g rs :
  (forall n r, is_newline (st_remove tx n r) = false) ->
  (forall n, is_newline (st_before tx n) = false) ->
  (forall n r, is_nonempty_glob (st_remove tx n r) = false) ->
  (forall n, is_nonempty_glob (st_before tx n) = false) ->
  count is_newline (stage_obs tx t0 t1 g rs) =
    count is_nonempty_glob (stage_obs tx t0 t1 g rs) /\
  count is_newline (album_obs tx t0 t1 g rs) =
    count is_nonempty_glob (album_obs tx t0 t1 g rs).
Proof.
  intros Hrm Hb Hrm' Hb'. unfold stage_obs, album_obs.
  assert (Hnone : count is_nonempty_glob (removal_obs tx t0 t1 g.1 rs) = 0).
  { apply count_none. apply Forall_removal_obs.
    - intros o _ Hf. destruct o; try reflexivity; discriminate.
    - exact Hrm'.
    - exact Hb'. }
  rewrite !count_cons. cbn [is_newline Nat.add].
  destruct g as [[|n ms] [e|]]; cbn [fst snd is_nonempty_glob] in *;
    try (split; reflexivity).
  rewrite Hnone, newlines_removal by assumption. split; reflexivity.
Qed.

Lemma newlines_gate st conf a :
  count is_newline (gate_obs st conf a) = count is_nonempty_glob (gate_obs st conf a).
Proof.
  unfold gate_obs, gate_body. rewrite !count_cons. cbn [is_newline is_nonempty_glob].
  destruct (a_prompt a st).2; [reflexivity|].
  destruct st; cbn [run_obs]; try (apply newlines_stage; reflexivity).
  rewrite !count_none; [reflexivity|..];
    unfold index_obs, password_obs; destruct (String.eqb _ _); repeat constructor.
Qed.

Lemma newlines_session ctx conf a :
  count is_newline (session_obs ctx conf a) =
  count is_nonempty_glob (session_obs ctx conf a).
Proof.
  unfold session_obs. rewrite !count_cons, !count_app.
  cbn [is_newline is_nonempty_glob].
  assert (Hpre : forall f,
             f SetDbProvider = false -> f (LogSetLevel TraceLevel) = false ->
             (forall l s args, f (Log l s args) = false) ->
             count f (preamble_obs ctx) = 0).
  { intros f H1 H2 H3. apply count_none. unfold preamble_obs.
    destruct (flag_yes ctx), (flag_index ctx), (flag_trace ctx);
      repeat constructor; auto. }
  assert (Hidx : forall f,
             (forall o, is_file_op o = false -> is_newline o = false -> f o = false) ->
             count f (if flag_yes ctx then index_obs conf a else []) = 0).
  { intros f Hf. apply count_none. destruct (flag_yes ctx); [|constructor].
    unfold index_obs, password_obs. destruct (String.eqb _ _);
      repeat constructor; apply Hf; reflexivity. }
  rewrite !Hpre by reflexivity.
  rewrite (Hidx is_newline) by (intros o _ H; exact H).
  rewrite (Hidx is_nonempty_glob)
    by (intros o H _; destruct o; try reflexivity; discriminate).
  assert (Hgates : forall l,
             count is_newline (concat (map (fun st => gate_obs st conf a) l)) =
             count is_nonempty_glob (concat (map (fun st => gate_obs st conf a) l))).
  { induction l as [|st l IH]; [reflexivity|].
    cbn [map concat]. rewrite !count_app, IH, newlines_gate. reflexivity. }
  rewrite Hgates. reflexivity.
Qed.

Section Output.

Context {W : Type} {E : Env W}.

(** X9: the command ends the line of progress markers once for every
    enumeration that returned names without error, and prints no other
    line end: a stage that found nothing, failed to enumerate or was not
    confirmed prints none. *)
Theorem newline_per_match_set ctx (w : W) :
  count is_newline (trace_of (resetAction ctx w)) =
  count is_nonempty_glob (trace_of (resetAction ctx w)).
Proof.
  destruct (config_Init w).2 as [e|] eqn:Hinit.
  - destruct (session_init_failed ctx w e Hinit) as [-> _]. reflexivity.
  - destruct (session_shape ctx w Hinit) as (a & _ & -> & _).
    apply newlines_session.
Qed.

(** X10: the schema reset comes before the files: the trace splits in
    two, with no enumeration and no removal in the first part and no call
    of the schema reset in the second. *)
Theorem schema_reset_before_files ctx (w : W) :
  exists t1 t2,
    trace_of (resetAction ctx w) = t1 ++ t2 /\
    Forall (fun o => is_file_op o = false) t1 /\
    Forall (fun o => is_db_op o = false) t2.
Proof.
  destruct (config_Init w).2 as [e|] eqn:Hinit.
  { destruct (session_init_failed ctx w e Hinit) as [-> _].
    exists [ConfigInit (Some e)], []. repeat constructor. }
  destruct (session_shape ctx w Hinit) as (a & _ & -> & _).
  set (conf := config_NewConfig ctx).
  assert (Hcalm : Forall (fun o => is_file_op o = false) (gate_obs Index conf a)).
  { apply Forall_gate_obs.
    - intros o _ Hf. exact Hf.
    - intros _ _ o Hd. destruct o; try discriminate; reflexivity.
    - intros _ o Hop. destruct (stage_file_op_index _ _ _ Hop). }
  assert (Hfile : forall st, st <> Index ->
             Forall (fun o => is_db_op o = false) (gate_obs st conf a)).
  { intros st Hst. apply Forall_gate_obs.
    - intros o Hd _. exact Hd.
    - intros _ ->. contradiction.
    - intros _ o Hop. destruct o; try reflexivity; destruct Hop. }
  unfold session_obs, flow.
  destruct (flag_yes ctx); [|destruct (flag_index ctx)].
  - eexists _, []. rewrite app_nil_r. split; [reflexivity|]. split; [|constructor].
    constructor; [reflexivity|].
    apply Forall_app. split; [apply calm_preamble|].
    apply Forall_app. split; [apply calm_index|]. repeat constructor.
  - eexists _, []. rewrite app_nil_r. split; [reflexivity|]. split; [|constructor].
    constructor; [reflexivity|].
    apply Forall_app. split; [apply calm_preamble|].
    cbn [map concat app]. rewrite app_nil_r.
    apply Forall_app. split; [exact Hcalm|]. repeat constructor.
  - exists (ConfigInit None :: preamble_obs ctx ++ gate_obs Index conf a),
      (gate_obs Cache conf a ++ gate_obs SidecarJson conf a
       ++ gate_obs SidecarYaml conf a ++ gate_obs AlbumYaml conf a ++ [ConfigShutdown]).
    split; [|split].
    + unfold all_stages. cbn [map concat app]. rewrite <- !app_assoc. reflexivity.
    + constructor; [reflexivity|].
      apply Forall_app. split; [apply calm_preamble|exact Hcalm].
    + do 4 (apply Forall_app; split; [apply Hfile; discriminate|]).
      repeat constructor.
Qed.

End Output.

(** ** The log level *)
Section Level.

Context {W : Type} {E : Env W}.

Variable T : W -> W.

Lemma equivariant_ret {A} (a : A) : equivariant T (mret a).
Proof. intros w. reflexivity. Qed.

Lemma equivariant_bind {A B} (m : M W A) (k : A -> M W B) :
  equivariant T m -> (forall a, equivariant T (k a)) -> equivariant T (m ≫= k).
Proof.
  intros Hm Hk w. rewrite (run_bind m k (T w)), (run_bind m k w), (Hm w).
  unfold trace_of, world_of, value_of. cbn [fst snd].
  rewrite (Hk (m w).2 (m w).1.2).
  unfold trace_of, world_of, value_of. reflexivity.
Qed.

Lemma equivariant_emit o : equivariant T (emit o).
Proof. intros w. reflexivity. Qed.

Lemma equivariant_call {A} (f : W -> W * A) obs :
  unseen T f -> equivariant T (call f obs).
Proof.
  intros Hf w. unfold call. rewrite Hf. destruct (f w) as [w' a]. reflexivity.
Qed.

Lemma equivariant_call_ {A} (f : W -> W * A) obs :
  unseen T f -> equivariant T (call_ f obs).
Proof.
  intros Hf w. unfold call_. rewrite Hf. destruct (f w) as [w' a]. reflexivity.
Qed.

Lemma equivariant_remove_each (rm : string -> M W (option error)) ms :
  (forall n, equivariant T (rm n)) -> equivariant T (remove_each rm ms).
Proof.
  intros Hrm. induction ms as [|n ms IH]; [apply equivariant_ret|].
  cbn [remove_each].
  apply equivariant_bind; [apply Hrm|intros err].
  apply equivariant_bind; [destruct err; apply equivariant_emit|intros _; exact IH].
Qed.

End Level.

Section TraceFlag.

Context {W : Type} {E : Env W}.

Hypothesis blind : level_blind TraceLevel.

Ltac blind_step :=
  first
    [ apply equivariant_ret | apply equivariant_emit
    | apply equivariant_call; apply blind
    | apply equivariant_call_; apply blind
    | apply equivariant_remove_each; intros ?
    | apply equivariant_bind; [|intros ?]
    | match goal with
      | |- equivariant _ (let '(_, _) := ?x in _) => destruct x
      | |- equivariant _ (match ?x with _ => _ end) => destruct x
      end ].

Ltac blind_all :=
  unfold logf, since, now, Glob, Remove, RemoveAll, Run; repeat blind_step.

Lemma resetIndexDb_blind conf :
  equivariant (log_SetLevel TraceLevel) (resetIndexDb conf).
Proof. unfold resetIndexDb. blind_all. Qed.

Lemma resetCache_blind conf :
  equivariant (log_SetLevel TraceLevel) (resetCache conf).
Proof. unfold resetCache. blind_all. Qed.

Lemma resetSidecarJson_blind conf :
  equivariant (log_SetLevel TraceLevel) (resetSidecarJson conf).
Proof. unfold resetSidecarJson. blind_all. Qed.

Lemma resetSidecarYaml_blind conf :
  equivariant (log_SetLevel TraceLevel) (resetSidecarYaml conf).
Proof. unfold resetSidecarYaml. blind_all. Qed.

Lemma resetAlbumYaml_blind conf :
  equivariant (log_SetLevel TraceLevel) (resetAlbumYaml conf).
Proof. unfold resetAlbumYaml. blind_all. Qed.

(** The body of [resetAction] is what comes before the test of
    [--trace], the test, and a rest that does not read the flag and does
    not see the log level. *)
Lemma resetAction_body_split ctx conf :
  exists (pre1 pre2 : M W unit) (rest : M W (option error)),
    equivariant (log_SetLevel TraceLevel) rest /\
    forall b,
      resetAction_body (with_trace b ctx) conf =
      pre1 ≫= fun _ => pre2 ≫= fun _ =>
        (if b then
           exec (log_SetLevel TraceLevel) (LogSetLevel TraceLevel);;
           logf InfoLevel "reset: enabled trace mode" []
         else mret tt) ≫= fun _ => rest.
Proof.
  eexists _, _, _. split.
  2:{ intros b. unfold resetAction_body.
      rewrite !ctx_Bool_yes, !ctx_Bool_index, !ctx_Bool_trace.
      cbn [with_trace flag_yes flag_index flag_trace]. reflexivity. }
  apply equivariant_bind.
  { destruct (negb (flag_yes ctx)); [|apply equivariant_ret]. blind_all. }
  intros resetIndex. apply equivariant_bind.
  { destruct resetIndex; [apply resetIndexDb_blind|apply equivariant_ret]. }
  intros _.
  destruct (flag_index ctx || flag_yes ctx); [apply equivariant_ret|].
  apply equivariant_bind; [blind_all|intros r].
  apply equivariant_bind.
  { destruct r.2; [blind_all|apply resetCache_blind]. }
  intros _. apply equivariant_bind; [blind_all|intros r'].
  apply equivariant_bind.
  { destruct r'.2; [blind_all|apply resetSidecarJson_blind]. }
  intros _. apply equivariant_bind; [blind_all|intros r''].
  apply equivariant_bind.
  { destruct r''.2; [blind_all|apply resetSidecarYaml_blind]. }
  intros _. apply resetAlbumYaml_blind.
Qed.

End TraceFlag.

(** X11: [--trace] sets the log level and logs one line, and changes
    nothing else.  When no collaborator but the logger reads the log
    level, and the configuration does not depend on the flag, the command
    with [--trace] returns what it returns without, its trace is the
    trace without the flag with those two observations put in, and it
    leaves the same world but for the log level. *)
Theorem trace_flag_sets_level_only {W : Type} {E : Env W} ctx (w : W) :
  level_blind TraceLevel ->
  config_NewConfig (with_trace true ctx) = config_NewConfig (with_trace false ctx) ->
  value_of (resetAction (with_trace true ctx) w) =
    value_of (resetAction (with_trace false ctx) w) /\
  match (config_Init w).2 with
  | Some _ =>
      trace_of (resetAction (with_trace true ctx) w) =
        trace_of (resetAction (with_trace false ctx) w) /\
      world_of (resetAction (with_trace true ctx) w) =
        world_of (resetAction (with_trace false ctx) w)
  | None =>
      (exists t1 t2,
         trace_of (resetAction (with_trace false ctx) w) = t1 ++ t2 /\
         trace_of (resetAction (with_trace true ctx) w) =
           t1 ++ [LogSetLevel TraceLevel; Log InfoLevel "reset: enabled trace mode" []]
           ++ t2) /\
      world_of (resetAction (with_trace true ctx) w) =
        log_SetLevel TraceLevel (world_of (resetAction (with_trace false ctx) w))
  end.
Proof.
  intros Hblind Hconf. unfold resetAction. rewrite Hconf.
  destruct (resetAction_body_split Hblind ctx (config_NewConfig (with_trace false ctx)))
    as (pre1 & pre2 & rest & Hrest & Hbody).
  rewrite !Hbody.
  unfold mbind, M_bind, call, exec, logf, emit, mret, M_ret,
    trace_of, world_of, value_of.
  destruct (config_Init w) as [w0 [e|]]; cbn [fst snd]; [auto|].
  destruct (pre1 w0) as [[t1 w1] []]. destruct (pre2 w1) as [[t2 w2] []].
  rewrite (Hrest w2).
  unfold trace_of, world_of, value_of.
  destruct (rest w2) as [[t3 w3] v]. cbn [fst snd].
  destruct Hblind as (Hshut & _). rewrite Hshut.
  split; [reflexivity|]. split; [|reflexivity].
  exists ([ConfigInit None] ++ t1 ++ t2), (t3 ++ [ConfigShutdown]).
  cbn [app]. rewrite <- !app_assoc. cbn [app]. split; reflexivity.
Qed.

(** ** A star before a literal *)
Module StarFacts.

Import GoString Filepath Utf8 Regexp MatchFacts PlainFacts.

Lemma literal_cons c lit :
  literal (String c lit) = true ->
  chunk_meta c = false /\ byte_is c "*" = false /\ literal lit = true.
Proof.
  cbn [literal]. intros H.
  apply andb_true_iff in H as [H Hl]. apply andb_true_iff in H as [Hm Hs].
  apply negb_true_iff in Hm, Hs. auto.
Qed.

Lemma literal_plain lit : literal lit = true -> plain_pattern lit = true.
Proof.
  induction lit as [|c lit IH]; [reflexivity|]. intros H.
  apply literal_cons in H as (Hm & _ & Hl). cbn [plain_pattern].
  unfold chunk_meta in Hm.
  apply orb_false_iff in Hm as [Hm Hbs]. apply orb_false_iff in Hm as [Hbr _].
  rewrite Hbs, Hbr. exact (IH Hl).
Qed.

(** [matchChunk] on a literal: whether the literal starts [s], byte for
    byte. *)
Lemma matchChunk_lit lit : forall s,
  literal lit = true ->
  matchChunk lit s =
  match strip_prefix lit s with
  | Some t => (t, true, None)
  | None => ("", false, None)
  end.
Proof.
  induction lit as [|c lit IH]; intros s Hl; [apply matchChunk_nil|].
  pose proof (matchChunk_plain (String c lit) s (literal_plain _ Hl)) as Herr.
  apply literal_cons in Hl as (Hm & _ & Hl).
  assert (Hno : (matchChunk (String c lit) s).1.2 = false ->
                matchChunk (String c lit) s = ("", false, None)).
  { intros Hok. destruct (matchChunk (String c lit) s) as [[t ok] err] eqn:Hmc.
    cbn in Hok, Herr. subst ok err.
    rewrite (matchChunk_false _ _ _ _ Hmc). reflexivity. }
  destruct s as [|b s]; cbn [strip_prefix].
  - apply Hno, matchChunk_nonempty_nil.
  - destruct (Ascii.eqb c b) eqn:Hcb.
    + apply Ascii.eqb_eq in Hcb as <-. rewrite matchChunk_literal by exact Hm.
      apply IH. exact Hl.
    + apply Hno, matchChunk_literal_ne; [exact Hm|].
      intros ->. rewrite Ascii.eqb_refl in Hcb. discriminate.
Qed.

Lemma scanIndex_literal lit :
  literal lit = true -> scanIndex lit false = String.length lit.
Proof.
  induction lit as [|c lit IH]; [reflexivity|]. intros H.
  apply literal_cons in H as (Hm & Hs & Hl). cbn [scanIndex String.length].
  unfold chunk_meta in Hm.
  apply orb_false_iff in Hm as [Hm Hbs]. apply orb_false_iff in Hm as [Hbr _].
  rewrite Hbs, Hbr, Hs, (IH Hl). destruct (byte_is c "]"); reflexivity.
Qed.

Lemma str_take_all s : take (String.length s) s = s.
Proof. induction s as [|c s IH]; [reflexivity|]. cbn. rewrite IH. reflexivity. Qed.

Lemma str_drop_all s : drop (String.length s) s = "".
Proof. induction s as [|c s IH]; [reflexivity|]. exact IH. Qed.

Lemma scanChunk_star_literal lit :
  literal lit = true -> scanChunk (String "*" lit) = (true, lit, "").
Proof.
  intros Hl. unfold scanChunk. cbn [skipStars byte_is Ascii.eqb Bool.eqb].
  replace (skipStars lit true) with (true, lit).
  2:{ destruct lit as [|c lit]; [reflexivity|].
      apply literal_cons in Hl as (_ & Hs & _). cbn [skipStars]. rewrite Hs. reflexivity. }
  rewrite (scanIndex_literal _ Hl), str_take_all, str_drop_all. reflexivity.
Qed.

Lemma strip_prefix_self lit : strip_prefix lit lit = Some "".
Proof.
  induction lit as [|c lit IH]; [reflexivity|].
  cbn [strip_prefix]. rewrite Ascii.eqb_refl. exact IH.
Qed.

Lemma strip_prefix_nil lit s : strip_prefix lit s = Some "" -> s = lit.
Proof.
  intros H. apply strip_prefix_Some in H. rewrite str_app_empty_r in H. exact H.
Qed.

(** The loop of [Match] behind a star that is followed by a literal and
    nothing else. *)
Lemma starLoop_literal lit : forall name,
  literal lit = true ->
  starLoop lit true name =
  if match name with
     | String c rest => negb (is_sep c) && ends_in_element lit rest
     | EmptyString => false
     end
  then StarFound "" else StarNone.
Proof.
  intros name Hl. induction name as [|c rest IH]; [reflexivity|].
  cbn [starLoop]. unfold is_sep at 1.
  destruct (byte_is c Separator); [reflexivity|]. cbn [negb andb].
  rewrite (matchChunk_lit lit rest Hl).
  assert (Hend : ends_in_element lit rest =
                 String.eqb rest lit ||
                 match rest with
                 | String c rest' => negb (is_sep c) && ends_in_element lit rest'
                 | EmptyString => false
                 end) by (destruct rest; reflexivity).
  rewrite Hend.
  destruct (strip_prefix lit rest) as [t|] eqn:Hsp.
  - destruct t as [|t0 t]; cbn [is_empty negb andb].
    + apply strip_prefix_nil in Hsp as ->. rewrite String.eqb_refl. reflexivity.
    + replace (String.eqb rest lit) with false; [exact IH|].
      symmetry. apply String.eqb_neq. intros ->.
      rewrite strip_prefix_self in Hsp. discriminate.
  - replace (String.eqb rest lit) with false; [exact IH|].
    symmetry. apply String.eqb_neq. intros ->.
    rewrite strip_prefix_self in Hsp. discriminate.
Qed.

(** [Match] of a star followed by a literal. *)
Lemma Match_star_literal lit name :
  literal lit = true ->
  Match (String "*" lit) name = (ends_in_element lit name, None).
Proof.
  intros Hl. rewrite Match_eq. unfold Match_body. cbn [is_empty].
  rewrite (scanChunk_star_literal lit Hl). cbn [andb is_empty negb orb].
  destruct lit as [|l0 lit].
  { cbn [is_empty]. f_equal.
    induction name as [|c rest IH]; [reflexivity|].
    cbn [contains_byte ends_in_element String.eqb orb].
    unfold is_sep, byte_is. rewrite Ascii.eqb_sym.
    destruct (Ascii.eqb c Separator); [reflexivity|]. exact IH. }
  cbn [is_empty]. rewrite (matchChunk_lit _ name Hl).
  rewrite (starLoop_literal _ name Hl).
  assert (Hend : ends_in_element (String l0 lit) name =
                 String.eqb name (String l0 lit) ||
                 match name with
                 | String c rest => negb (is_sep c) && ends_in_element (String l0 lit) rest
                 | EmptyString => false
                 end) by (destruct name; reflexivity).
  rewrite Hend.
  destruct (strip_prefix (String l0 lit) name) as [t|] eqn:Hsp.
  - destruct t as [|t0 t]; cbn [is_empty andb orb].
    + apply strip_prefix_nil in Hsp as ->. rewrite String.eqb_refl. reflexivity.
    + replace (String.eqb name (String l0 lit)) with false.
      2:{ symmetry. apply String.eqb_neq. intros ->.
          rewrite strip_prefix_self in Hsp. discriminate. }
      cbn [orb]. destruct (match name with EmptyString => _ | _ => _ end); reflexivity.
  - cbn [andb].
    replace (String.eqb name (String l0 lit)) with false.
    2:{ symmetry. apply String.eqb_neq. intros ->.
        rewrite strip_prefix_self in Hsp. discriminate. }
    cbn [orb]. destruct (match name with EmptyString => _ | _ => _ end); reflexivity.
Qed.

(** What [ends_in_element] says. *)
Lemma ends_in_element_spec lit name :
  ends_in_element lit name = true <->
  exists a, name = a +:+ lit /\ contains_byte Separator a = false.
Proof.
  split.
  - induction name as [|c rest IH]; cbn [ends_in_element]; intros H.
    + rewrite orb_false_r in H. apply String.eqb_eq in H as <-.
      exists "". split; reflexivity.
    + apply orb_true_iff in H as [H|H].
      * apply String.eqb_eq in H as <-. exists "". split; reflexivity.
      * apply andb_true_iff in H as [Hc H]. destruct (IH H) as (a & -> & Ha).
        exists (String c a). split; [reflexivity|].
        cbn [contains_byte]. apply negb_true_iff in Hc.
        unfold is_sep, byte_is in Hc. rewrite Ascii.eqb_sym, Hc. exact Ha.
  - intros (a & -> & Ha). induction a as [|c a IH].
    + change ("" +:+ lit) with lit.
      destruct lit; unfold ends_in_element; fold ends_in_element;
        rewrite String.eqb_refl; reflexivity.
    + rewrite str_app_cons. cbn [ends_in_element].
      cbn [contains_byte] in Ha.
      destruct (Ascii.eqb Separator c) eqn:Hc; [discriminate|].
      unfold is_sep, byte_is. rewrite Ascii.eqb_sym, Hc, (IH Ha).
      apply orb_true_r.
Qed.

End StarFacts.

(** ** [Glob] one directory level at a time *)
Module GlobFacts.

Import GoString Filepath Utf8 Regexp MatchFacts PlainFacts StarFacts.

Lemma str_app_assoc (a b c : string) : (a +:+ b) +:+ c = a +:+ (b +:+ c).
Proof.
  induction a as [|x a IH]; [reflexivity|].
  rewrite !str_app_cons, IH. reflexivity.
Qed.

Lemma contains_any_app a b chars :
  contains_any (a +:+ b) chars = contains_any a chars || contains_any b chars.
Proof.
  induction a as [|x a IH]; [reflexivity|].
  rewrite str_app_cons. cbn [contains_any]. rewrite IH.
  destruct (contains_byte x chars); reflexivity.
Qed.

Lemma hasMeta_app a b : hasMeta (a +:+ b) = hasMeta a || hasMeta b.
Proof. apply contains_any_app. Qed.

Lemma split_last_none F :
  contains_byte Separator F = false -> split_last Separator F = None.
Proof.
  induction F as [|c F IH]; [reflexivity|]. cbn [contains_byte split_last].
  destruct (Ascii.eqb Separator c); [discriminate|]. intros H. rewrite (IH H). reflexivity.
Qed.

Lemma split_last_app X F :
  contains_byte Separator F = false ->
  split_last Separator (X +:+ "/" +:+ F) = Some (X +:+ "/", F).
Proof.
  intros HF. induction X as [|c X IH].
  - change ("" +:+ "/" +:+ F) with (String "/" F). cbn [split_last].
    rewrite (split_last_none F HF). reflexivity.
  - rewrite (str_app_cons c X ("/" +:+ F)), (str_app_cons c X "/").
    cbn [split_last]. rewrite IH. reflexivity.
Qed.

Section Levels.

Variable os : FsView.

(** One round of [globWithLimit] on a plain pattern with a directory
    part [X] and a last element [F]. *)
Lemma globWithLimit_unfold rem X F :
  plain_pattern (X +:+ "/" +:+ F) = true ->
  contains_byte Separator F = false ->
  hasMeta (X +:+ "/" +:+ F) = true ->
  globWithLimit os (S rem) (X +:+ "/" +:+ F) =
  let dir := if is_empty X then "/" else X in
  if negb (hasMeta dir) then glob os dir F []
  else
    match globWithLimit os rem dir with
    | (_, Some e) => ([], Some e)
    | (m, None) => glob_dirs os F m []
    end.
Proof.
  intros Hp HF Hm. cbn [globWithLimit].
  rewrite (Match_plain _ Hp ""), Hm. cbn [negb].
  unfold Split. rewrite (split_last_app X F HF), cleanGlobPath_dir.
  cbv zeta. destruct (is_empty X) eqn:HX; [reflexivity|].
  destruct (negb (hasMeta X)); [reflexivity|].
  replace (String.eqb X (X +:+ "/" +:+ F)) with false; [reflexivity|].
  symmetry. apply String.eqb_neq. intros H.
  apply (f_equal String.length) in H. rewrite !str_length_app in H. cbn in H. lia.
Qed.

Lemma glob_names_ext dir f1 f2 names :
  (forall n, Match f1 n = Match f2 n) ->
  forall m, glob_names dir f1 names m = glob_names dir f2 names m.
Proof.
  intros Hf. induction names as [|n names IH]; intros m; [reflexivity|].
  cbn [glob_names]. rewrite Hf. destruct (Match f2 n) as [matched [e|]]; [reflexivity|].
  apply IH.
Qed.

Lemma glob_ext dir f1 f2 m :
  (forall n, Match f1 n = Match f2 n) -> glob os dir f1 m = glob os dir f2 m.
Proof.
  intros Hf. unfold glob.
  destruct (stat_is_dir os dir) as [[|]|]; try reflexivity.
  destruct (readdirnames os dir); [|reflexivity].
  apply glob_names_ext, Hf.
Qed.

Lemma glob_dirs_ext f1 f2 dirs :
  (forall n, Match f1 n = Match f2 n) ->
  forall m, glob_dirs os f1 dirs m = glob_dirs os f2 dirs m.
Proof.
  intros Hf. induction dirs as [|d dirs IH]; intros m; [reflexivity|].
  cbn [glob_dirs]. rewrite (glob_ext d f1 f2 m Hf).
  destruct (glob os d f2 m) as [m' [e|]]; [reflexivity|]. apply IH.
Qed.

Lemma Match_two_stars name : Match "**" name = Match "*" name.
Proof. reflexivity. Qed.

(** Below a quoted root, [**] enumerates what [*] enumerates. *)
Lemma globWithLimit_two_stars rem root :
  globWithLimit os rem (QuoteMeta root +:+ "/**") =
  globWithLimit os rem (QuoteMeta root +:+ "/*").
Proof.
  destruct rem as [|rem]; [reflexivity|].
  change (QuoteMeta root +:+ "/**") with (QuoteMeta root +:+ "/" +:+ "**").
  change (QuoteMeta root +:+ "/*") with (QuoteMeta root +:+ "/" +:+ "*").
  rewrite !globWithLimit_unfold;
    try reflexivity; try (rewrite plain_quote; reflexivity);
    try (rewrite hasMeta_app; apply orb_true_r).
  cbv zeta.
  rewrite (glob_ext _ "**" "*" [] Match_two_stars).
  destruct (negb (hasMeta _)); [reflexivity|].
  destruct (globWithLimit os rem _) as [m [e|]]; [reflexivity|].
  apply glob_dirs_ext, Match_two_stars.
Qed.

Lemma globWithLimit_two_stars_file rem root F :
  plain_pattern F = true ->
  contains_byte Separator F = false ->
  globWithLimit os rem (QuoteMeta root +:+ "/**/" +:+ F) =
  globWithLimit os rem (QuoteMeta root +:+ "/*/" +:+ F).
Proof.
  intros Hp HF. destruct rem as [|rem]; [reflexivity|].
  replace (QuoteMeta root +:+ "/**/" +:+ F)
    with ((QuoteMeta root +:+ "/**") +:+ "/" +:+ F)
    by (rewrite !str_app_assoc; reflexivity).
  replace (QuoteMeta root +:+ "/*/" +:+ F)
    with ((QuoteMeta root +:+ "/*") +:+ "/" +:+ F)
    by (rewrite !str_app_assoc; reflexivity).
  rewrite !globWithLimit_unfold;
    try exact HF;
    try (rewrite str_app_assoc, plain_quote; exact Hp);
    try (rewrite !hasMeta_app; cbn; rewrite ?orb_true_r; reflexivity).
  cbv zeta. rewrite !str_is_empty_app. cbn [is_empty andb].
  rewrite !andb_false_r, !hasMeta_app.
  replace (hasMeta "/**") with true by reflexivity.
  replace (hasMeta "/*") with true by reflexivity.
  rewrite !orb_true_r. cbn [negb].
  rewrite globWithLimit_two_stars. reflexivity.
Qed.

End Levels.

End GlobFacts.

(** X12: [filepath.Glob] has no recursive [**]: for every root and on
    every file system, each removal stage enumerates exactly what the
    pattern with a single star enumerates, the entries one directory
    below the root for the sidecar and album stages and the entries of
    the root for the cache stage. *)
Theorem double_star_is_single_star (os : Filepath.FsView) conf st p q :
  stage_pattern conf st = Some p ->
  one_level_pattern conf st = Some q ->
  Filepath.Glob os p = Filepath.Glob os q.
Proof.
  intros Hp Hq. unfold Filepath.Glob.
  destruct st; cbn [stage_pattern one_level_pattern] in Hp, Hq; try discriminate;
    injection Hp as <-; injection Hq as <-;
    cbn [st_pattern cache_text json_text yaml_text album_text].
  - apply GlobFacts.globWithLimit_two_stars.
  - apply (GlobFacts.globWithLimit_two_stars_file os _ _ "*.json"); reflexivity.
  - apply (GlobFacts.globWithLimit_two_stars_file os _ _ "*.yml"); reflexivity.
  - apply (GlobFacts.globWithLimit_two_stars_file os _ _ "*.yml"); reflexivity.
Qed.

(** ** [Join] keeps the name of a directory entry *)
Module JoinFacts.

Import GoString Filepath Utf8 Regexp MatchFacts PlainFacts StarFacts GlobFacts.

Lemma span_elem_name n :
  contains_byte Separator n = false -> span_elem n = (n, "").
Proof.
  induction n as [|c n IH]; [reflexivity|]. cbn [contains_byte span_elem].
  unfold is_sep, byte_is. rewrite (Ascii.eqb_sym c Separator).
  destruct (Ascii.eqb Separator c); intros H; [discriminate|]. rewrite (IH H). reflexivity.
Qed.

Lemma span_elem_sep n : forall Q,
  exists Qr, (span_elem (Q +:+ "/" +:+ n)).2 = Qr +:+ "/" +:+ n /\
             String.length Qr <= String.length Q.
Proof.
  induction Q as [|c Q IH].
  - exists "". split; [reflexivity|lia].
  - rewrite (str_app_cons c Q ("/" +:+ n)). cbn [span_elem].
    destruct (is_sep c).
    + exists (String c Q). split; [reflexivity|lia].
    + destruct IH as (Qr & Hr & Hlen).
      destruct (span_elem (Q +:+ "/" +:+ n)) as [e r]. cbn [snd] in *.
      exists Qr. split; [exact Hr|cbn; lia].
Qed.

(** The loop of [Clean] on a name: it is appended to the buffer. *)
Lemma Clean_loop_name fuel rooted n out dotdot :
  entry_name n -> 0 < fuel ->
  exists out', Clean_loop fuel rooted n out dotdot = out' +:+ n.
Proof.
  intros (Hne & Hsep & Hdot & Hdots) Hfuel.
  destruct fuel as [|fuel]; [lia|].
  destruct n as [|c rest]; [discriminate|].
  pose proof (span_elem_name _ Hsep) as Hspan.
  cbn [contains_byte] in Hsep.
  destruct (Ascii.eqb Separator c) eqn:Hc; [discriminate|].
  assert (Hends : forall s, contains_byte Separator s = false ->
                            ends_elem s = is_empty s).
  { intros [|x s]; [reflexivity|]. cbn [contains_byte ends_elem is_empty head_is orb].
    unfold byte_is. rewrite (Ascii.eqb_sym x Separator).
    destruct (Ascii.eqb Separator x); intros H; [discriminate|reflexivity]. }
  cbn [Clean_loop]. unfold is_sep at 1, byte_is at 1.
  rewrite (Ascii.eqb_sym c Separator), Hc.
  destruct (byte_is c "." && ends_elem rest) eqn:H1.
  { apply andb_true_iff in H1 as [Hd He]. apply byte_is_eq in Hd as ->.
    rewrite (Hends _ Hsep) in He. apply is_empty_true in He as ->. contradiction. }
  destruct (byte_is c "." && head_is "." rest && ends_elem (tail rest)) eqn:H2.
  { apply andb_true_iff in H2 as [H2 He]. apply andb_true_iff in H2 as [Hd Hh].
    apply byte_is_eq in Hd as ->.
    destruct rest as [|d rest]; [discriminate|].
    cbn [head_is] in Hh. apply byte_is_eq in Hh as ->.
    cbn [contains_byte] in Hsep. cbn [tail drop] in He.
    destruct (Ascii.eqb Separator ".") eqn:Hx; [discriminate|].
    rewrite (Hends _ Hsep) in He. apply is_empty_true in He as ->. contradiction. }
  rewrite Hspan.
  eexists. destruct fuel; reflexivity.
Qed.

(** The loop of [Clean] on a path that ends in a separator and a name:
    the name is the end of the result. *)
Lemma Clean_loop_entry n rooted fuel : forall Q out dotdot,
  entry_name n ->
  String.length (Q +:+ "/" +:+ n) <= fuel ->
  exists out', Clean_loop fuel rooted (Q +:+ "/" +:+ n) out dotdot = out' +:+ n.
Proof.
  induction fuel as [|fuel IH]; intros Q out dotdot Hn Hlen.
  { rewrite !str_length_app in Hlen. cbn in Hlen. lia. }
  assert (Hpos : 0 < String.length n).
  { destruct Hn as (Hne & _). destruct n; [discriminate|cbn; lia]. }
  destruct Q as [|c Q].
  - change ("" +:+ "/" +:+ n) with (String "/" n). cbn [Clean_loop is_sep byte_is].
    replace (Ascii.eqb "/" Separator) with true by reflexivity.
    apply Clean_loop_name; [exact Hn|].
    change ("" +:+ "/" +:+ n) with (String "/" n) in Hlen. cbn in Hlen. lia.
  - rewrite (str_app_cons c Q ("/" +:+ n)) in *. cbn [String.length] in Hlen.
    cbn [Clean_loop].
    destruct (is_sep c) eqn:Hc; [apply IH; [exact Hn|lia]|].
    destruct (byte_is c "." && ends_elem (Q +:+ "/" +:+ n));
      [apply IH; [exact Hn|lia]|].
    destruct (byte_is c "." && head_is "." (Q +:+ "/" +:+ n) &&
              ends_elem (tail (Q +:+ "/" +:+ n))) eqn:H2.
    { apply andb_true_iff in H2 as [H2 _]. apply andb_true_iff in H2 as [_ Hh].
      destruct Q as [|d Q]; [discriminate|].
      rewrite (str_app_cons d Q ("/" +:+ n)) in *. cbn [tail drop].
      cbn [String.length] in Hlen.
      destruct (_ <? _)%nat; [apply IH; [exact Hn|lia]|].
      destruct (negb rooted); apply IH; try exact Hn; lia. }
    destruct (span_elem_sep n Q) as (Qr & Hr & HQr).
    cbn [span_elem]. rewrite Hc.
    destruct (span_elem (Q +:+ "/" +:+ n)) as [e r]. cbn [snd] in Hr. subst r.
    apply IH; [exact Hn|]. rewrite !str_length_app in *. cbn in *. lia.
Qed.

(** [Join] of a directory and an entry name ends in the name. *)
Lemma Join_entry d n : entry_name n -> exists out, Join d n = out +:+ n.
Proof.
  intros Hn. pose proof Hn as (Hne & Hsep & _).
  unfold Join. destruct (is_empty d) eqn:Hd; cbn [negb].
  - rewrite Hne. cbn [negb]. unfold Clean. rewrite Hne.
    assert (Hhead : head_is Separator n = false).
    { destruct n as [|c n]; [reflexivity|]. cbn [contains_byte head_is] in *.
      unfold byte_is. rewrite (Ascii.eqb_sym c Separator).
      destruct (Ascii.eqb Separator c); [discriminate|reflexivity]. }
    rewrite Hhead.
    destruct (Clean_loop_name (String.length n) false n "" 0 Hn) as (out' & ->).
    { destruct n; [discriminate|cbn; lia]. }
    rewrite str_is_empty_app, Hne, andb_false_r. eexists. reflexivity.
  - unfold Clean. rewrite str_is_empty_app, Hd. cbn [andb].
    destruct d as [|c d]; [discriminate|].
    rewrite (str_app_cons c d ("/" +:+ n)). cbn [head_is tail drop].
    destruct (byte_is c Separator).
    + destruct (Clean_loop_entry n true (String.length (String c (d +:+ "/" +:+ n)))
                  d "/" 1 Hn) as (out' & ->); [cbn; lia|].
      rewrite str_is_empty_app, Hne, andb_false_r. eexists. reflexivity.
    + rewrite <- (str_app_cons c d ("/" +:+ n)).
      destruct (Clean_loop_entry n false (String.length (String c d +:+ "/" +:+ n))
                  (String c d) "" 0 Hn) as (out' & ->); [lia|].
      rewrite str_is_empty_app, Hne, andb_false_r. eexists. reflexivity.
Qed.

End JoinFacts.

(** ** What a removal stage can enumerate *)
Module SuffixFacts.

Import GoString Filepath Utf8 Regexp MatchFacts PlainFacts StarFacts GlobFacts JoinFacts.

Lemma str_take_drop n s : take n s +:+ drop n s = s.
Proof.
  revert s. induction n as [|n IH]; intros [|c s]; try reflexivity.
  cbn [take drop]. rewrite str_app_cons, IH. reflexivity.
Qed.

Lemma has_suffix_spec s suffix :
  has_suffix s suffix = true <-> exists a, s = a +:+ suffix.
Proof.
  unfold has_suffix. split.
  - intros H. apply andb_true_iff in H as [_ H]. apply String.eqb_eq in H.
    set (k := String.length s - String.length suffix) in *.
    exists (take k s). rewrite <- H. symmetry. apply str_take_drop.
  - intros (a & ->). rewrite str_length_app. apply andb_true_iff. split.
    + apply Nat.leb_le. lia.
    + replace (String.length a + String.length suffix - String.length suffix)
        with (String.length a + 0) by lia.
      rewrite str_drop_app. apply String.eqb_refl.
Qed.

Lemma contains_byte_app c a b :
  contains_byte c (a +:+ b) = contains_byte c a || contains_byte c b.
Proof.
  induction a as [|x a IH]; [reflexivity|].
  rewrite str_app_cons. cbn [contains_byte]. rewrite IH.
  destruct (Ascii.eqb c x); reflexivity.
Qed.

(** A name that ends in an extension of more than two bytes, without
    separator, is the name of a directory entry. *)
Lemma entry_name_ext a ext :
  contains_byte Separator a = false ->
  contains_byte Separator ext = false ->
  2 < String.length ext ->
  entry_name (a +:+ ext).
Proof.
  intros Ha He Hlen. repeat split.
  - rewrite str_is_empty_app. destruct ext; [cbn in Hlen; lia|].
    cbn [is_empty]. apply andb_false_r.
  - rewrite contains_byte_app, Ha, He. reflexivity.
  - intros H. apply (f_equal String.length) in H.
    rewrite str_length_app in H. cbn in H. lia.
  - intros H. apply (f_equal String.length) in H.
    rewrite str_length_app in H. cbn in H. lia.
Qed.

Section Members.

Variable os : FsView.

Lemma glob_names_mem dir f names : forall m x,
  x ∈ (glob_names dir f names m).1 ->
  x ∈ m \/ exists n, (Match f n).1 = true /\ x = Join dir n.
Proof.
  induction names as [|n names IH]; intros m x Hx; [left; exact Hx|].
  cbn [glob_names] in Hx.
  destruct (Match f n) as [matched [e|]] eqn:Hm; [left; exact Hx|].
  apply IH in Hx as [Hx|Hx]; [|right; exact Hx].
  destruct matched; [|left; exact Hx].
  apply elem_of_app in Hx as [Hx|Hx]; [left; exact Hx|].
  apply list_elem_of_singleton in Hx as ->.
  right. exists n. rewrite Hm. split; reflexivity.
Qed.

Lemma glob_mem dir f m x :
  x ∈ (glob os dir f m).1 ->
  x ∈ m \/ exists n, (Match f n).1 = true /\ x = Join dir n.
Proof.
  unfold glob.
  destruct (stat_is_dir os dir) as [[|]|]; try (intros H; left; exact H).
  destruct (readdirnames os dir); [|intros H; left; exact H].
  apply glob_names_mem.
Qed.

Lemma glob_dirs_mem f dirs : forall m x,
  x ∈ (glob_dirs os f dirs m).1 ->
  x ∈ m \/ exists d n, (Match f n).1 = true /\ x = Join d n.
Proof.
  induction dirs as [|d dirs IH]; intros m x Hx; [left; exact Hx|].
  cbn [glob_dirs] in Hx.
  destruct (glob os d f m) as [m' [e|]] eqn:Hg.
  - pose proof (glob_mem d f m x) as H. rewrite Hg in H.
    destruct (H Hx) as [H'|(n & H')]; [left; exact H'|right; exists d, n; exact H'].
  - apply IH in Hx as [Hx|Hx]; [|right; exact Hx].
    pose proof (glob_mem d f m x) as H. rewrite Hg in H.
    destruct (H Hx) as [H'|(n & H')]; [left; exact H'|right; exists d, n; exact H'].
Qed.

(** Every path that the pattern [root/**/*ext] enumerates ends in
    [ext]. *)
Lemma globWithLimit_suffix rem root ext x :
  literal ext = true ->
  contains_byte Separator ext = false ->
  2 < String.length ext ->
  x ∈ (globWithLimit os rem (QuoteMeta root +:+ "/**/*" +:+ ext)).1 ->
  has_suffix x ext = true.
Proof.
  intros Hl He Hlen Hx.
  destruct rem as [|rem]; [apply elem_of_nil in Hx as []|].
  replace (QuoteMeta root +:+ "/**/*" +:+ ext)
    with ((QuoteMeta root +:+ "/**") +:+ "/" +:+ String "*" ext) in Hx
    by (rewrite !str_app_assoc; reflexivity).
  rewrite globWithLimit_unfold in Hx.
  2:{ rewrite str_app_assoc, plain_quote.
      change (plain_pattern ("/**" +:+ "/" +:+ String "*" ext)) with (plain_pattern ext).
      apply literal_plain, Hl. }
  2:{ cbn [contains_byte]. replace (Ascii.eqb Separator "*") with false by reflexivity.
      exact He. }
  2:{ rewrite !hasMeta_app. replace (hasMeta "/**") with true by reflexivity.
      rewrite orb_true_r. reflexivity. }
  cbv zeta in Hx. rewrite str_is_empty_app, andb_false_r, hasMeta_app in Hx.
  replace (hasMeta "/**") with true in Hx by reflexivity.
  rewrite orb_true_r in Hx. cbn [negb] in Hx.
  destruct (globWithLimit os rem _) as [m [e|]]; [apply elem_of_nil in Hx as []|].
  apply glob_dirs_mem in Hx as [Hx|(d & n & Hm & ->)]; [apply elem_of_nil in Hx as []|].
  rewrite (Match_star_literal ext n Hl) in Hm. cbn [fst] in Hm.
  apply ends_in_element_spec in Hm as (a & -> & Ha).
  destruct (Join_entry d (a +:+ ext) (entry_name_ext a ext Ha He Hlen)) as (out & ->).
  apply has_suffix_spec. exists (out +:+ a). apply eq_sym, str_app_assoc.
Qed.

End Members.

End SuffixFacts.

(** X13: the sidecar and album stages select by extension: on every file
    system and for every root, each path that the json stage enumerates
    ends in [.json], and each path that the yaml and the album stage
    enumerate ends in [.yml]. *)
Theorem removal_stages_select_by_suffix (os : Filepath.FsView) conf st p x :
  st <> Cache ->
  stage_pattern conf st = Some p ->
  x ∈ (Filepath.Glob os p).1 ->
  has_suffix x (stage_suffix st) = true.
Proof.
  intros Hst Hp Hx. unfold Filepath.Glob in Hx.
  destruct st; cbn [stage_pattern] in Hp; try discriminate; try contradiction;
    injection Hp as <-; cbn [st_pattern json_text yaml_text album_text] in Hx;
    cbn [stage_suffix].
  - apply (SuffixFacts.globWithLimit_suffix os Filepath.pathSeparatorsLimit (SidecarPath conf) ".json");
      [reflexivity|reflexivity|cbn; lia|exact Hx].
  - apply (SuffixFacts.globWithLimit_suffix os Filepath.pathSeparatorsLimit (SidecarPath conf) ".yml");
      [reflexivity|reflexivity|cbn; lia|exact Hx].
  - apply (SuffixFacts.globWithLimit_suffix os Filepath.pathSeparatorsLimit (AlbumsPath conf) ".yml");
      [reflexivity|reflexivity|cbn; lia|exact Hx].
Qed.

(** X14: a star followed by a literal matches a name exactly when the
    name ends in the literal and the bytes before it hold no separator,
    and it is never a syntax error; the file part [*.json] of the json
    stage so selects, among the entries of a directory, those whose name
    ends in [.json], hidden ones and directories included. *)
Theorem star_literal_selects_suffix lit name :
  literal lit = true ->
  (Filepath.Match (String "*" lit) name).2 = None /\
  ((Filepath.Match (String "*" lit) name).1 = true <->
   exists a, name = a +:+ lit /\ GoString.contains_byte Filepath.Separator a = false).
Proof.
  intros Hl. rewrite (StarFacts.Match_star_literal lit name Hl). cbn [fst snd].
  split; [reflexivity|]. apply StarFacts.ends_in_element_spec.
Qed.

(** X15: on every file system the enumeration of a stage returns no
    error, as long as the root of the stage has fewer separators than the
    depth at which [Glob] gives up, less two: the pattern is well formed
    whatever the bytes of the root are. *)
Theorem enumeration_never_fails (os : Filepath.FsView) conf st p :
  stage_pattern conf st = Some p ->
  separators (stage_root conf st) + 2 < Filepath.pathSeparatorsLimit ->
  (Filepath.Glob os p).2 = None.
Proof.
  intros Hp Hsep. destruct (stage_pattern_plain conf st p Hp) as [Hplain Hle].
  apply PlainFacts.globWithLimit_plain; [exact Hplain|lia].
Qed.

(** On a world, no collaborator but the logger reads the log level. *)
Lemma World_level_blind c l : level_blind (E := World.env c) l.
Proof.
  repeat split; try (intros; reflexivity); intros; intros w;
    cbn [World.env prompt_Run time_Now filepath_Glob os_Remove os_RemoveAll
         tables_Drop entity_MigrateDb admin_InitPassword log_SetLevel];
    unfold World.run_prompt, World.on_fs, World.on_db;
    cbn [World.set_level World.w_stdin World.w_fs World.w_db];
    repeat case_match; simplify_eq; reflexivity.
Qed.

(** ** The properties on concrete sessions *)

Lemma bootstrap_failure_stops_witness :
  (config_Init init_fails).2 = Some "config: not found" /\
  trace_of (resetAction no_flags init_fails) = [ConfigInit (Some "config: not found")] /\
  value_of (resetAction no_flags init_fails) = Some "config: not found" /\
  world_of (resetAction no_flags init_fails) = (config_Init init_fails).1.
Proof.
  split; [reflexivity|].
  apply (bootstrap_failure_stops no_flags init_fails "config: not found"). reflexivity.
Defined.

Lemma shutdown_once_and_last_witness :
  (config_Init album_fails).2 = None /\
  value_of (resetAction no_flags album_fails) = Some ErrBadPattern /\
  last (trace_of (resetAction no_flags album_fails)) = Some ConfigShutdown /\
  count is_shutdown (trace_of (resetAction no_flags album_fails)) = 1.
Proof.
  split; [reflexivity|]. split; [reflexivity|].
  apply (shutdown_once_and_last no_flags album_fails). reflexivity.
Defined.

Lemma trace_flag_sets_level_only_witness :
  level_blind (E := World.env sidecar_conf) TraceLevel /\
  config_NewConfig (Env := World.env sidecar_conf) (with_trace true no_flags) =
    config_NewConfig (Env := World.env sidecar_conf) (with_trace false no_flags) /\
  value_of (resetAction (E := World.env sidecar_conf) (with_trace true no_flags)
              confirming_world) =
    value_of (resetAction (E := World.env sidecar_conf) (with_trace false no_flags)
                confirming_world) /\
  world_of (resetAction (E := World.env sidecar_conf) (with_trace true no_flags)
              confirming_world) =
    World.set_level
      (world_of (resetAction (E := World.env sidecar_conf) (with_trace false no_flags)
                   confirming_world)) TraceLevel.
Proof.
  split; [apply World_level_blind|]. split; [reflexivity|].
  destruct (trace_flag_sets_level_only (E := World.env sidecar_conf) no_flags
              confirming_world (World_level_blind sidecar_conf TraceLevel) eq_refl)
    as (Hv & _ & Hw).
  split; [exact Hv|exact Hw].
Defined.




Lemma shallow_sidecar_conf : shallow sidecar_conf.
Proof. repeat split; apply Nat.ltb_lt; vm_compute; reflexivity. Qed.

Lemma fails_only_at_bootstrap_witness :
  shallow (World.w_conf confirming_world) /\
  glob_errors (trace_of (World.reset no_flags confirming_world)) = [] /\
  value_of (World.reset no_flags confirming_world) = World.w_init confirming_world.
Proof.
  split; [exact shallow_sidecar_conf|].
  apply (fails_only_at_bootstrap no_flags confirming_world). exact shallow_sidecar_conf.
Defined.

Lemma enumeration_never_fails_witness :
  stage_pattern sidecar_conf SidecarJson = Some "/data/sidecar/**/*.json" /\
  separators (stage_root sidecar_conf SidecarJson) + 2 < Filepath.pathSeparatorsLimit /\
  (Filepath.Glob (Unix.view dir_json_fs) "/data/sidecar/**/*.json").2 = None.
Proof.
  assert (H : separators (stage_root sidecar_conf SidecarJson) + 2
              < Filepath.pathSeparatorsLimit)
    by (apply Nat.ltb_lt; vm_compute; reflexivity).
  split; [reflexivity|]. split; [exact H|].
  apply (enumeration_never_fails (Unix.view dir_json_fs) sidecar_conf SidecarJson);
    [reflexivity|exact H].
Defined.

Lemma double_star_is_single_star_witness :
  stage_pattern sidecar_conf SidecarJson = Some "/data/sidecar/**/*.json" /\
  one_level_pattern sidecar_conf SidecarJson = Some "/data/sidecar/*/*.json" /\
  Filepath.Glob (Unix.view sidecar_fs) "/data/sidecar/**/*.json" =
    Filepath.Glob (Unix.view sidecar_fs) "/data/sidecar/*/*.json".
Proof.
  split; [reflexivity|]. split; [reflexivity|].
  apply (double_star_is_single_star (Unix.view sidecar_fs) sidecar_conf SidecarJson);
    reflexivity.
Defined.

Lemma removal_stages_select_by_suffix_witness :
  SidecarJson <> Cache /\
  stage_pattern sidecar_conf SidecarJson = Some "/data/sidecar/**/*.json" /\
  "/data/sidecar/x/e.json"
    ∈ (Filepath.Glob (Unix.view dir_json_fs) "/data/sidecar/**/*.json").1 /\
  has_suffix "/data/sidecar/x/e.json" (stage_suffix SidecarJson) = true.
Proof.
  assert (H : "/data/sidecar/x/e.json"
              ∈ (Filepath.Glob (Unix.view dir_json_fs) "/data/sidecar/**/*.json").1).
  { replace (Filepath.Glob (Unix.view dir_json_fs) "/data/sidecar/**/*.json")
      with (["/data/sidecar/x/d.json"; "/data/sidecar/x/e.json"], @None error)
      by (vm_compute; reflexivity).
    apply elem_of_cons. right. apply elem_of_cons. left. reflexivity. }
  split; [discriminate|]. split; [reflexivity|]. split; [exact H|].
  apply (removal_stages_select_by_suffix (Unix.view dir_json_fs) sidecar_conf
           SidecarJson "/data/sidecar/**/*.json");
    [discriminate|reflexivity|exact H].
Defined.

Lemma star_literal_selects_suffix_witness :
  literal ".json" = true /\
  (Filepath.Match "*.json" ".json").2 = None /\
  ((Filepath.Match "*.json" ".json").1 = true <->
   exists a, ".json" = a +:+ ".json" /\
             GoString.contains_byte Filepath.Separator a = false).
Proof.
  split; [reflexivity|].
  apply (star_literal_selects_suffix ".json" ".json"). reflexivity.
Defined.

(** ** The cache stage and the schema reset in a session *)

Lemma db_calls_app t1 t2 : db_calls (t1 ++ t2) = db_calls t1 ++ db_calls t2.
Proof. apply omap_app. Qed.

Lemma db_calls_none t : Forall (fun o => is_db_op o = false) t -> db_calls t = [].
Proof.
  induction 1 as [|o t Ho _ IH]; [reflexivity|].
  change (o :: t) with ([o] ++ t). rewrite db_calls_app, IH, app_nil_r.
  unfold db_calls. cbn. rewrite Ho. reflexivity.
Qed.

Lemma db_calls_preamble ctx : db_calls (preamble_obs ctx) = [].
Proof.
  unfold preamble_obs.
  destruct (flag_yes ctx), (flag_index ctx), (flag_trace ctx); reflexivity.
Qed.

Lemma db_calls_gate st conf a :
  db_calls (gate_obs st conf a) =
  match st, (a_prompt a st).2 with
  | Index, None => db_calls (index_obs conf a)
  | _, _ => []
  end.
Proof.
  destruct (decide (st = Index)) as [->|Hst].
  - unfold gate_obs, gate_body. destruct (a_prompt a Index).2; reflexivity.
  - rewrite db_calls_none.
    + destruct st; try reflexivity. contradiction.
    + apply Forall_gate_obs.
      * intros o Hd _. exact Hd.
      * intros _ ->. contradiction.
      * intros _ o Hop. destruct o; try reflexivity; destruct Hop.
Qed.

Lemma confirmed_gate st conf a :
  confirmed (gate_obs st conf a) =
  match (a_prompt a st).2 with None => [st] | Some _ => [] end.
Proof.
  unfold gate_obs.
  change (PromptRun ?l ?r :: ?t) with ([PromptRun l r] ++ t).
  rewrite confirmed_app, (confirmed_quiet _ (quiet_gate_body st conf a)), app_nil_r.
  apply confirmed_prompt.
Qed.

Lemma confirmed_gates conf a l :
  confirmed (concat (map (fun st => gate_obs st conf a) l)) =
  concat (map (fun st => match (a_prompt a st).2 with None => [st] | Some _ => [] end) l).
Proof.
  induction l as [|st l IH]; [reflexivity|].
  cbn [map concat]. rewrite confirmed_app, confirmed_gate, IH. reflexivity.
Qed.

Lemma db_calls_gates conf a l :
  db_calls (concat (map (fun st => gate_obs st conf a) l)) =
  concat (map (fun st => match st, (a_prompt a st).2 with
                         | Index, None => db_calls (index_obs conf a)
                         | _, _ => []
                         end) l).
Proof.
  induction l as [|st l IH]; [reflexivity|].
  cbn [map concat]. rewrite db_calls_app, db_calls_gate, IH. reflexivity.
Qed.

Section CacheAndIndex.

Context {W : Type} {E : Env W}.

(** X16: the schema reset runs at most once in a session, and only with
    [--yes] or when the index prompt was confirmed: the calls into the
    entity and schema registry are those of one schema reset in that
    case and none otherwise, whatever the removal stages do. *)
Theorem schema_reset_once_when_confirmed ctx (w : W) :
  (config_Init w).2 = None ->
  exists a,
    db_calls (trace_of (resetAction ctx w)) =
    if flag_yes ctx || bool_decide (Index ∈ confirmed (trace_of (resetAction ctx w)))
    then db_calls (index_obs (config_NewConfig ctx) a)
    else [].
Proof.
  intros Hinit.
  destruct (session_shape ctx w Hinit) as (a & _ & -> & _). exists a.
  unfold session_obs.
  change (db_calls (ConfigInit None :: ?t)) with (db_calls t).
  change (confirmed (ConfigInit None :: ?t)) with (confirmed t).
  rewrite !db_calls_app, !confirmed_app, db_calls_preamble.
  rewrite (confirmed_quiet _ (quiet_preamble ctx)).
  rewrite (confirmed_quiet (if flag_yes ctx then _ else _))
    by (destruct (flag_yes ctx); [apply quiet_index|constructor]).
  rewrite db_calls_gates, confirmed_gates.
  change (db_calls [ConfigShutdown]) with (@nil Obs).
  change (confirmed [ConfigShutdown]) with (@nil Stage).
  rewrite !app_nil_r. cbn [app].
  unfold flow, all_stages.
  destruct (flag_yes ctx); [cbn [map concat orb]; apply app_nil_r|].
  destruct (flag_index ctx); cbn [map concat app orb].
  - destruct (a_prompt a Index).2; [reflexivity|]. rewrite app_nil_r. reflexivity.
  - destruct (a_prompt a Index).2, (a_prompt a Cache).2, (a_prompt a SidecarJson).2,
      (a_prompt a SidecarYaml).2, (a_prompt a AlbumYaml).2;
      cbn [app]; rewrite ?app_nil_r; reflexivity.
Qed.

(** X17: when the enumeration of the cache stage returns an error, the
    stage takes the time, enumerates the pattern of the cache root, logs
    the error and does nothing else; the prompts of the stages after it
    are shown all the same. *)
Theorem cache_enumeration_error_is_logged ctx (w : W) l r seg p ms e :
  flag_index ctx = false ->
  flag_yes ctx = false ->
  (config_Init w).2 = None ->
  segments (trace_of (resetAction ctx w)) !! stage_index Cache = Some (l, r, seg) ->
  FilepathGlob p (ms, Some e) ∈ seg ->
  (exists t0,
     seg = [TimeNow t0; FilepathGlob p (ms, Some e);
            Log ErrorLevel (stage_error_text Cache) [ArgError e]]) /\
  p = Regexp.QuoteMeta (CachePath (config_NewConfig ctx)) +:+ "/**" /\
  prompts (trace_of (resetAction ctx w)) = map stage_label all_stages.
Proof.
  intros Hidx Hyes Hinit Hseg Hin.
  destruct (session_shape ctx w Hinit) as (a & _ & Htr & _).
  rewrite Htr, session_prompts in *. rewrite session_segments in Hseg.
  rewrite (full_flow ctx Hidx Hyes) in *.
  destruct (plain_texts (config_NewConfig ctx)) as (Hpc & _).
  cbn in Hseg. injection Hseg as <- <- <-.
  unfold gate_body in *. destruct (a_prompt a Cache).2 as [e'|].
  { cbn in Hin. apply list_elem_of_singleton in Hin. discriminate. }
  cbn [run_obs] in *.
  apply stage_obs_glob_error in Hin as (_ & -> & ->); [|exact Hpc|constructor].
  rewrite app_nil_r. repeat split. eexists; reflexivity.
Qed.

End CacheAndIndex.

Lemma schema_reset_once_when_confirmed_witness :
  (config_Init some_declined).2 = None /\
  exists a,
    db_calls (trace_of (resetAction no_flags some_declined)) =
    if flag_yes no_flags
       || bool_decide (Index ∈ confirmed (trace_of (resetAction no_flags some_declined)))
    then db_calls (index_obs (config_NewConfig no_flags) a)
    else [].
Proof.
  split; [reflexivity|].
  apply (schema_reset_once_when_confirmed no_flags some_declined). reflexivity.
Defined.

Lemma cache_enumeration_error_is_logged_witness :
  flag_index no_flags = false /\
  flag_yes no_flags = false /\
  (config_Init cache_fails).2 = None /\
  (exists t0,
     [TimeNow 2; FilepathGlob "/data/cache/**" ([], Some ErrBadPattern);
      Log ErrorLevel "reset: %s (find cache files)" [ArgError ErrBadPattern]] =
     [TimeNow t0; FilepathGlob "/data/cache/**" ([], Some ErrBadPattern);
      Log ErrorLevel (stage_error_text Cache) [ArgError ErrBadPattern]]) /\
  "/data/cache/**" = Regexp.QuoteMeta (CachePath (config_NewConfig no_flags)) +:+ "/**" /\
  prompts (trace_of (resetAction no_flags cache_fails)) = map stage_label all_stages.
Proof.
  split; [reflexivity|]. split; [reflexivity|]. split; [reflexivity|].
  apply (cache_enumeration_error_is_logged no_flags cache_fails
           "Clear cache incl thumbnails?" yes
           [TimeNow 2; FilepathGlob "/data/cache/**" ([], Some ErrBadPattern);
            Log ErrorLevel "reset: %s (find cache files)" [ArgError ErrBadPattern]]
           "/data/cache/**" [] ErrBadPattern);
    [reflexivity|reflexivity|reflexivity|vm_compute; reflexivity|].
  apply elem_of_cons. right. apply elem_of_cons. left. reflexivity.
Defined.

(** ** Paths and nodes of a well-formed file system *)
Module TreeFacts.

Import GoString Filepath Regexp MatchFacts PlainFacts StarFacts GlobFacts JoinFacts
  SuffixFacts Unix.

(** *** Sorting *)

Lemma insert_sorted_perm x l : insert_sorted x l ≡ₚ x :: l.
Proof.
  induction l as [|y l IH]; [reflexivity|]. cbn [insert_sorted].
  destruct (leb x y); [reflexivity|]. rewrite IH. apply Permutation_swap.
Qed.

Lemma sort_perm l : sort l ≡ₚ l.
Proof.
  induction l as [|x l IH]; [reflexivity|].
  unfold sort in *. cbn [foldr]. rewrite insert_sorted_perm, IH. reflexivity.
Qed.

(** *** The entries of a directory *)

Lemma elem_of_children (m : gmap (list string) kind) (p : list string) n :
  n ∈ children m p <-> is_Some (m !! (p ++ [n])).
Proof.
  unfold children. rewrite list_elem_of_omap. split.
  - intros (k & Hk & Hf). apply list_elem_of_fmap in Hk as ([k' v] & -> & Hkv).
    apply elem_of_map_to_list in Hkv. cbn [fst] in Hf.
    destruct (last k') as [n'|]; [|discriminate].
    destruct (decide (k' = p ++ [n'])) as [->|]; [|discriminate].
    injection Hf as <-. exists v. exact Hkv.
  - intros [v Hv]. exists (p ++ [n]). split.
    + apply list_elem_of_fmap. exists (p ++ [n], v). split; [reflexivity|].
      apply elem_of_map_to_list. exact Hv.
    + rewrite last_snoc. rewrite decide_True by reflexivity. reflexivity.
Qed.

Lemma NoDup_omap_inj {A B} (f : A -> option B) l :
  (forall x y z, f x = Some z -> f y = Some z -> x = y) ->
  NoDup l -> NoDup (omap f l).
Proof.
  intros Hinj. induction 1 as [|x l Hx Hl IH]; [constructor|].
  change (x :: l) with ([x] ++ l). rewrite omap_app.
  destruct (f x) as [z|] eqn:Hfx.
  - replace (omap f [x]) with [z] by (cbn; rewrite Hfx; reflexivity).
    cbn [app]. constructor; [|exact IH].
    intros Hz. apply list_elem_of_omap in Hz as (y & Hy & Hfy).
    rewrite (Hinj x y z Hfx Hfy) in Hx. contradiction.
  - replace (omap f [x]) with (@nil B) by (cbn; rewrite Hfx; reflexivity).
    exact IH.
Qed.

Lemma NoDup_children (m : gmap (list string) kind) (p : list string) :
  NoDup (children m p).
Proof.
  unfold children. apply NoDup_omap_inj; [|apply NoDup_fst_map_to_list].
  intros x y z Hx Hy.
  destruct (last x) as [n|]; [|discriminate].
  destruct (decide (x = p ++ [n])) as [->|]; [|discriminate].
  destruct (last y) as [n'|]; [|discriminate].
  destruct (decide (y = p ++ [n'])) as [->|]; [|discriminate].
  congruence.
Qed.

(** *** Well-formed trees *)

Lemma wf_above (m : gmap (list string) kind) (p q : list string) k :
  wf_fs m -> m !! (p ++ q) = Some k -> q <> [] -> m !! p = Some Dir.
Proof.
  intros [_ Hwf]. revert k. induction q as [|n q IH] using rev_ind; intros k Hk Hq.
  - contradiction.
  - rewrite app_assoc in Hk. destruct (Hwf _ _ _ Hk) as [Hd _].
    destruct q as [|n' q']; [rewrite app_nil_r in Hd; exact Hd|].
    eapply IH; [exact Hd|discriminate].
Qed.


Lemma entry_name_walk n :
  entry_name n ->
  String.eqb n "" || String.eqb n "." = false /\ String.eqb n ".." = false.
Proof.
  intros (Hne & _ & Hdot & Hdots). split.
  - apply orb_false_iff. split; apply String.eqb_neq; [|exact Hdot].
    intros ->. discriminate.
  - apply String.eqb_neq. exact Hdots.
Qed.

(** Path resolution on a well-formed tree: walking [names] from [cur]
    arrives at [cur ++ names] when that node exists and fails
    otherwise. *)
Lemma walk_wf (m : gmap (list string) kind) names : forall cur,
  wf_fs m -> Forall entry_name names ->
  match m !! (cur ++ names) with
  | Some _ => walk m cur names = inr (cur ++ names)
  | None => exists e, walk m cur names = inl e
  end.
Proof.
  induction names as [|n names IH]; intros cur Hwf Hn.
  - rewrite app_nil_r. cbn [walk]. destruct (m !! cur); [reflexivity|eauto].
  - inversion Hn as [|? ? Hn1 Hn2]; subst. cbn [walk].
    destruct (entry_name_walk n Hn1) as [H1 H2].
    specialize (IH (cur ++ [n]) Hwf Hn2). rewrite <- app_assoc in IH. cbn [app] in IH.
    destruct (m !! cur) as [[|]|] eqn:Hcur.
    + destruct (m !! (cur ++ n :: names)) eqn:Hq; [|eauto].
      rewrite (wf_above m cur (n :: names) _ Hwf Hq) in Hcur by discriminate.
      discriminate.
    + rewrite H1, H2. exact IH.
    + destruct (m !! (cur ++ n :: names)) eqn:Hq; [|eauto].
      rewrite (wf_above m cur (n :: names) _ Hwf Hq) in Hcur by discriminate.
      discriminate.
Qed.

(** *** The components of a path *)

Lemma components_nonempty s : components s <> [].
Proof.
  induction s as [|c s IH]; [discriminate|]. cbn [components].
  destruct (Ascii.eqb c "/"); [discriminate|].
  destruct (components s); discriminate.
Qed.

Lemma components_name n :
  contains_byte Separator n = false -> components n = [n].
Proof.
  induction n as [|c n IH]; [reflexivity|]. cbn [contains_byte components].
  rewrite (Ascii.eqb_sym c "/").
  destruct (Ascii.eqb Separator c) eqn:Hc; intros H.
  - discriminate.
  - unfold Separator in Hc. rewrite Hc, (IH H). reflexivity.
Qed.

Lemma components_sep a b :
  components (a +:+ "/" +:+ b) = components a ++ components b.
Proof.
  induction a as [|c a IH]; [reflexivity|].
  rewrite (str_app_cons c a ("/" +:+ b)). cbn [components].
  destruct (Ascii.eqb c "/"); [rewrite IH; reflexivity|].
  rewrite IH. pose proof (components_nonempty a).
  destruct (components a); [contradiction|reflexivity].
Qed.

Lemma components_abs names :
  Forall entry_name names -> components (abs_path names) = "" :: names.
Proof.
  induction 1 as [|n names Hn _ IH]; [reflexivity|].
  cbn [abs_path]. change ("/" +:+ n +:+ abs_path names)
    with (String "/" (n +:+ abs_path names)).
  cbn [components Ascii.eqb Bool.eqb]. f_equal.
  destruct Hn as (_ & Hsep & _).
  destruct names as [|n' names'].
  - cbn [abs_path]. rewrite str_app_empty_r. apply components_name, Hsep.
  - cbn [abs_path] in *. rewrite components_sep, (components_name n Hsep).
    change ("/" +:+ n' +:+ abs_path names') with (String "/" (n' +:+ abs_path names')) in IH.
    cbn [components Ascii.eqb Bool.eqb] in IH. injection IH as ->. reflexivity.
Qed.

Lemma abs_path_app a b : abs_path (a ++ b) = abs_path a +:+ abs_path b.
Proof.
  induction a as [|n a IH]; [reflexivity|].
  cbn [app abs_path]. rewrite IH, !str_app_assoc. reflexivity.
Qed.

Lemma abs_path_cons_empty n names : is_empty (abs_path (n :: names)) = false.
Proof. reflexivity. Qed.

Lemma walk_skip (m : gmap (list string) kind) (cur : list string) names :
  m !! cur = Some Dir -> walk m cur ("" :: names) = walk m cur names.
Proof. intros H. cbn [walk]. rewrite H. reflexivity. Qed.

(** Resolving the path of a node. *)
Lemma resolve_abs fs names :
  wf_fs (nodes fs) -> Forall entry_name names ->
  match nodes fs !! names with
  | Some _ => resolve fs (dir_path names) = inr names
  | None => exists e, resolve fs (dir_path names) = inl e
  end.
Proof.
  intros Hwf Hn. pose proof Hwf as [Hroot _].
  destruct names as [|n names].
  - rewrite Hroot. change (resolve fs (dir_path [])) with (walk (nodes fs) [] [""; ""]).
    cbn [walk]. rewrite Hroot. reflexivity.
  - cbn [dir_path]. unfold resolve. rewrite abs_path_cons_empty.
    replace (head_is "/" (abs_path (n :: names))) with true by reflexivity.
    rewrite (components_abs _ Hn), (walk_skip _ _ _ Hroot).
    apply (walk_wf (nodes fs) (n :: names) [] Hwf Hn).
Qed.

End TreeFacts.

(** ** [Clean] and [Join] on the paths of nodes *)
Module PathFacts.

Import GoString Filepath Regexp MatchFacts PlainFacts StarFacts GlobFacts JoinFacts
  SuffixFacts TreeFacts.

Lemma ends_elem_app s S :
  contains_byte Separator s = false -> ends_elem S = true ->
  ends_elem (s +:+ S) = is_empty s.
Proof.
  destruct s as [|x s]; [intros _ H; exact H|].
  cbn [contains_byte]. intros H _. rewrite str_app_cons.
  cbn [ends_elem is_empty head_is orb]. unfold byte_is.
  rewrite (Ascii.eqb_sym x Separator).
  destruct (Ascii.eqb Separator x); [discriminate|reflexivity].
Qed.

Lemma span_elem_app_name n : forall S,
  contains_byte Separator n = false -> ends_elem S = true ->
  span_elem (n +:+ S) = (n, S).
Proof.
  induction n as [|c n IH]; intros S Hn HS.
  - change ("" +:+ S) with S. destruct S as [|x S]; [reflexivity|].
    cbn [ends_elem is_empty head_is orb] in HS. cbn [span_elem].
    unfold is_sep. rewrite HS. reflexivity.
  - rewrite str_app_cons. cbn [contains_byte] in Hn. cbn [span_elem].
    unfold is_sep, byte_is. rewrite (Ascii.eqb_sym c Separator).
    destruct (Ascii.eqb Separator c); [discriminate|].
    rewrite (IH S Hn HS). reflexivity.
Qed.

(** One round of the loop of [Clean] on an entry name: the name is
    appended to the buffer, behind a separator unless the buffer is the
    root (or empty, for a path that is not rooted). *)
Lemma Clean_loop_elem fuel rooted n S out dotdot :
  entry_name n -> ends_elem S = true ->
  Clean_loop (Datatypes.S fuel) rooted (n +:+ S) out dotdot =
  Clean_loop fuel rooted S
    ((if (rooted && negb (String.length out =? 1)%nat)
         || (negb rooted && negb (String.length out =? 0)%nat)
      then out +:+ "/" else out) +:+ n) dotdot.
Proof.
  intros (Hne & Hsep & Hdot & Hdots) HS.
  pose proof (span_elem_app_name n S Hsep HS) as Hspan.
  destruct n as [|c rest]; [discriminate|].
  rewrite str_app_cons in *. cbn [contains_byte] in Hsep.
  destruct (Ascii.eqb Separator c) eqn:Hc; [discriminate|].
  cbn [Clean_loop]. unfold is_sep at 1, byte_is at 1.
  rewrite (Ascii.eqb_sym c Separator), Hc.
  destruct (byte_is c "." && ends_elem (rest +:+ S)) eqn:H1.
  { apply andb_true_iff in H1 as [Hd He]. apply byte_is_eq in Hd as ->.
    rewrite (ends_elem_app _ _ Hsep HS) in He. apply is_empty_true in He as ->.
    contradiction. }
  destruct (byte_is c "." && head_is "." (rest +:+ S) && ends_elem (tail (rest +:+ S)))
    eqn:H2.
  { apply andb_true_iff in H2 as [H2 He]. apply andb_true_iff in H2 as [Hd Hh].
    apply byte_is_eq in Hd as ->.
    destruct rest as [|d rest].
    - change ("" +:+ S) with S in Hh. destruct S as [|x S]; [discriminate|].
      cbn [ends_elem is_empty head_is orb] in HS. cbn [head_is] in Hh.
      apply byte_is_eq in HS as ->. discriminate.
    - rewrite str_app_cons in Hh, He. cbn [head_is] in Hh. apply byte_is_eq in Hh as ->.
      cbn [tail drop] in He. cbn [contains_byte] in Hsep.
      destruct (Ascii.eqb Separator ".") eqn:Hx; [discriminate|].
      rewrite (ends_elem_app _ _ Hsep HS) in He. apply is_empty_true in He as ->.
      contradiction. }
  rewrite Hspan. reflexivity.
Qed.

Lemma ends_elem_abs names : ends_elem (abs_path names) = true.
Proof. destruct names; reflexivity. Qed.

(** The loop of [Clean] on the path of a node. *)
Lemma Clean_loop_abs names : forall fuel out dotdot,
  Forall entry_name names ->
  String.length (abs_path names) <= fuel ->
  Clean_loop fuel true (abs_path names) out dotdot =
  match names with
  | [] => out
  | n :: rest =>
      (if negb (String.length out =? 1)%nat then out +:+ "/" else out)
      +:+ n +:+ abs_path rest
  end.
Proof.
  induction names as [|n rest IH]; intros fuel out dotdot Hn Hlen.
  - destruct fuel; reflexivity.
  - inversion Hn as [|? ? Hn1 Hn2]; subst.
    cbn [abs_path] in *.
    change ("/" +:+ n +:+ abs_path rest) with (String "/" (n +:+ abs_path rest)) in *.
    cbn [String.length] in Hlen.
    destruct fuel as [|fuel]; [lia|].
    cbn [Clean_loop is_sep byte_is]. replace (Ascii.eqb "/" Separator) with true by reflexivity.
    assert (Hpos : 0 < String.length n).
    { destruct Hn1 as (Hne & _). destruct n; [discriminate|cbn; lia]. }
    rewrite str_length_app in Hlen.
    destruct fuel as [|fuel]; [lia|].
    rewrite (Clean_loop_elem fuel true n (abs_path rest) out dotdot Hn1 (ends_elem_abs rest)).
    cbn [andb negb orb]. rewrite orb_false_r.
    rewrite IH; [|exact Hn2|lia].
    destruct rest as [|n2 rest2]; [cbn [abs_path]; rewrite str_app_empty_r; reflexivity|].
    set (o := (if negb (String.length out =? 1)%nat then out +:+ "/" else out)).
    assert (Ho : (String.length (o +:+ n) =? 1)%nat = false).
    { apply Nat.eqb_neq. rewrite str_length_app.
      assert (0 < String.length o); [|lia].
      unfold o. destruct (String.length out =? 1)%nat eqn:H1; cbn [negb].
      - apply Nat.eqb_eq in H1. lia.
      - rewrite str_length_app. cbn. lia. }
    rewrite Ho. cbn [negb abs_path]. rewrite !str_app_assoc. reflexivity.
Qed.

Lemma glue_root n rest :
  entry_name n ->
  match rest with
  | [] => "/" +:+ n
  | n2 :: rest2 =>
      (if negb (String.length ("/" +:+ n) =? 1)%nat then ("/" +:+ n) +:+ "/" else "/" +:+ n)
      +:+ n2 +:+ abs_path rest2
  end = abs_path (n :: rest).
Proof.
  intros (Hne & _). destruct rest as [|n2 rest2].
  - cbn [abs_path]. rewrite str_app_empty_r. reflexivity.
  - destruct n as [|c n]; [discriminate|].
    change ("/" +:+ String c n) with (String "/" (String c n)).
    cbn [String.length Nat.eqb negb abs_path].
    rewrite !str_app_cons, !str_app_assoc. reflexivity.
Qed.

(** [Clean] leaves the path of a node as it is. *)
Lemma Clean_abs n names :
  Forall entry_name (n :: names) -> Clean (abs_path (n :: names)) = abs_path (n :: names).
Proof.
  intros Hn. inversion Hn as [|? ? Hn1 Hn2]; subst.
  rewrite <- (glue_root n names Hn1) at 2.
  unfold Clean. cbn [abs_path].
  change ("/" +:+ n +:+ abs_path names) with (String "/" (n +:+ abs_path names)).
  cbn [is_empty head_is tail drop String.length].
  replace (byte_is "/" Separator) with true by reflexivity.
  rewrite (Clean_loop_elem _ true n (abs_path names) "/" 1 Hn1 (ends_elem_abs names)).
  cbn [String.length Nat.eqb andb negb orb].
  rewrite Clean_loop_abs; [|exact Hn2|rewrite str_length_app; lia].
  destruct names as [|n2 rest2].
  - destruct Hn1 as (Hne & _). rewrite str_is_empty_app. reflexivity.
  - rewrite !str_is_empty_app.
    destruct (negb (String.length ("/" +:+ n) =? 1)%nat); reflexivity.
Qed.

(** [Join] of the path of a directory and an entry name is the path of
    the entry. *)
Lemma Join_abs names n :
  Forall entry_name names -> entry_name n ->
  Join (dir_path names) n = abs_path (names ++ [n]).
Proof.
  intros Hns Hn. unfold Join.
  destruct names as [|n1 rest]; cbn [dir_path].
  - cbn [is_empty negb app].
    change ("/" +:+ "/" +:+ n) with (String "/" (String "/" n)).
    replace (String "/" n) with (abs_path [n])
      by (cbn [abs_path]; rewrite str_app_empty_r; reflexivity).
    unfold Clean. cbn [is_empty head_is tail drop].
    replace (byte_is "/" Separator) with true by reflexivity.
    rewrite Clean_loop_abs; [|constructor; [exact Hn|constructor]|cbn [String.length]; lia].
    cbn [String.length Nat.eqb negb abs_path]. rewrite !str_app_empty_r. reflexivity.
  - rewrite abs_path_cons_empty. cbn [negb].
    replace (abs_path (n1 :: rest) +:+ "/" +:+ n) with (abs_path ((n1 :: rest) ++ [n])).
    2:{ rewrite abs_path_app. cbn [abs_path]. rewrite str_app_empty_r. reflexivity. }
    cbn [app]. apply Clean_abs. constructor.
    + inversion Hns; assumption.
    + apply Forall_app. split; [inversion Hns; assumption|].
      constructor; [exact Hn|constructor].
Qed.

End PathFacts.

(** ** [Glob] on a well-formed file system *)
Module TreeGlob.

Import GoString Filepath Regexp MatchFacts PlainFacts StarFacts GlobFacts JoinFacts
  SuffixFacts TreeFacts PathFacts.

Lemma QuoteMeta_app a b : QuoteMeta (a +:+ b) = QuoteMeta a +:+ QuoteMeta b.
Proof.
  induction a as [|c a IH]; [reflexivity|].
  rewrite str_app_cons. cbn [QuoteMeta]. rewrite IH.
  destruct (special c); rewrite ?str_app_cons; reflexivity.
Qed.

Lemma QuoteMeta_snoc names n :
  QuoteMeta (abs_path (names ++ [n])) =
  QuoteMeta (abs_path names) +:+ "/" +:+ QuoteMeta n.
Proof.
  rewrite abs_path_app, QuoteMeta_app. cbn [abs_path].
  rewrite str_app_empty_r, (QuoteMeta_app "/" n). reflexivity.
Qed.

Lemma contains_sep_quote n :
  contains_byte Separator (QuoteMeta n) = contains_byte Separator n.
Proof.
  induction n as [|c n IH]; [reflexivity|]. cbn [QuoteMeta].
  destruct (special c); cbn [contains_byte]; rewrite IH; reflexivity.
Qed.

(** Quoting a path without special bytes changes nothing. *)
Lemma quote_no_meta s : hasMeta (QuoteMeta s) = false -> QuoteMeta s = s.
Proof.
  induction s as [|c s IH]; [reflexivity|]. cbn [QuoteMeta].
  destruct (special c); [discriminate|].
  unfold hasMeta in *. cbn [contains_any].
  destruct (contains_byte c "*?[\"); [discriminate|]. intros H. rewrite (IH H). reflexivity.
Qed.

Lemma Match_nil name : Match "" name = (is_empty name, None).
Proof. rewrite Match_eq. reflexivity. Qed.

(** A quoted name matches itself and nothing else. *)
Lemma Match_quote_exact n x : Match (QuoteMeta n) x = (String.eqb x n, None).
Proof.
  pose proof (Match_plain (QuoteMeta n +:+ "")) as Herr.
  rewrite plain_quote in Herr. specialize (Herr eq_refl x).
  rewrite str_app_empty_r in Herr.
  destruct (strip_prefix n x) as [rest|] eqn:Hsp.
  - apply strip_prefix_Some in Hsp as ->.
    rewrite <- (str_app_empty_r (QuoteMeta n)), Match_quote_prefix, Match_nil.
    f_equal. destruct rest as [|c rest].
    + rewrite str_app_empty_r, String.eqb_refl. reflexivity.
    + symmetry. apply String.eqb_neq. intros H.
      apply (f_equal String.length) in H. rewrite str_length_app in H. cbn in H. lia.
  - pose proof (Match_quote_other n "" x Hsp) as Hno.
    rewrite str_app_empty_r in Hno.
    destruct (Match (QuoteMeta n) x) as [b e]. cbn in Hno, Herr. subst b e.
    f_equal. symmetry. apply String.eqb_neq. intros ->.
    rewrite <- (str_app_empty_r n) in Hsp at 2. rewrite strip_prefix_app in Hsp.
    discriminate.
Qed.

(** The loop of [glob] on a pattern that is never an error: the names
    that match, joined to the directory. *)
Lemma glob_names_spec dir f names : forall m,
  (forall x, (Match f x).2 = None) ->
  glob_names dir f names m =
  (m ++ map (Join dir) (List.filter (fun x => (Match f x).1) names), None).
Proof.
  induction names as [|n names IH]; intros m Hf; [rewrite app_nil_r; reflexivity|].
  cbn [glob_names List.filter]. specialize (Hf n) as Hn.
  destruct (Match f n) as [matched err]. cbn [fst snd] in *. subst err.
  rewrite (IH _ Hf). destruct matched; [|reflexivity].
  cbn [map]. rewrite <- app_assoc. reflexivity.
Qed.

Lemma filter_eqb_NoDup l n :
  NoDup l ->
  List.filter (fun x => String.eqb x n) l = if bool_decide (n ∈ l) then [n] else [].
Proof.
  induction 1 as [|x l Hx Hl IH]; [reflexivity|]. cbn [List.filter].
  destruct (String.eqb x n) eqn:Hxn.
  - apply String.eqb_eq in Hxn as ->.
    rewrite bool_decide_eq_true_2 by (apply elem_of_cons; auto).
    rewrite IH, bool_decide_eq_false_2 by exact Hx. reflexivity.
  - rewrite IH. apply String.eqb_neq in Hxn.
    destruct (decide (n ∈ l)) as [Hin|Hin].
    + rewrite !bool_decide_eq_true_2; [reflexivity|apply elem_of_cons; auto|exact Hin].
    + rewrite !bool_decide_eq_false_2; [reflexivity| |exact Hin].
      intros H. apply elem_of_cons in H as [->|H]; [congruence|contradiction].
Qed.

Lemma filter_ext_in {A} (f g : A -> bool) l :
  (forall x, x ∈ l -> f x = g x) -> List.filter f l = List.filter g l.
Proof.
  induction l as [|x l IH]; intros H; [reflexivity|]. cbn [List.filter].
  rewrite (H x) by (apply elem_of_cons; auto).
  rewrite IH by (intros y Hy; apply H, elem_of_cons; auto). reflexivity.
Qed.

Section Tree.

Variable fs : Unix.FS.

Hypothesis wf : wf_fs (Unix.nodes fs).

Lemma stat_dir names :
  Forall entry_name names ->
  stat_is_dir (Unix.view fs) (dir_path names) =
  match Unix.nodes fs !! names with
  | Some Unix.Dir => Some true
  | Some Unix.File => Some false
  | None => None
  end.
Proof.
  intros Hn. cbn [Unix.view stat_is_dir].
  pose proof (resolve_abs fs names wf Hn) as Hr.
  destruct (Unix.nodes fs !! names) as [k|] eqn:Hk.
  - rewrite Hr, Hk. destruct k; reflexivity.
  - destruct Hr as [e ->]. reflexivity.
Qed.

Lemma readdir_dir names :
  Forall entry_name names ->
  Unix.nodes fs !! names = Some Unix.Dir ->
  readdirnames (Unix.view fs) (dir_path names) =
  Some (Unix.children (Unix.nodes fs) names).
Proof.
  intros Hn Hk. cbn [Unix.view readdirnames].
  pose proof (resolve_abs fs names wf Hn) as Hr. rewrite Hk in Hr.
  rewrite Hr, Hk. reflexivity.
Qed.

(** [glob] for a quoted name in a directory: the entry of that name,
    when there is one. *)
Lemma glob_entry names n :
  Forall entry_name names -> entry_name n ->
  glob (Unix.view fs) (dir_path names) (QuoteMeta n) [] =
  (match Unix.nodes fs !! (names ++ [n]) with
   | Some _ => [abs_path (names ++ [n])]
   | None => []
   end, None).
Proof.
  intros Hns Hn. unfold glob. rewrite (stat_dir names Hns).
  destruct (Unix.nodes fs !! names) as [[|]|] eqn:Hk.
  - destruct (Unix.nodes fs !! (names ++ [n])) eqn:Hq; [|reflexivity].
    destruct wf as [_ Hwf]. destruct (Hwf _ _ _ Hq) as [Hd _]. congruence.
  - rewrite (readdir_dir names Hns Hk).
    rewrite glob_names_spec by (intros x; rewrite Match_quote_exact; reflexivity).
    rewrite (filter_ext_in _ (fun x => String.eqb x n))
      by (intros x _; rewrite Match_quote_exact; reflexivity).
    rewrite filter_eqb_NoDup.
    2:{ rewrite sort_perm. apply NoDup_children. }
    cbn [app]. f_equal.
    destruct (Unix.nodes fs !! (names ++ [n])) eqn:Hq.
    + rewrite bool_decide_eq_true_2.
      * cbn [map]. rewrite (Join_abs names n Hns Hn). reflexivity.
      * rewrite sort_perm. apply elem_of_children. rewrite Hq. eauto.
    + rewrite bool_decide_eq_false_2; [reflexivity|].
      rewrite sort_perm. intros H. apply elem_of_children in H as [k H]. congruence.
  - destruct (Unix.nodes fs !! (names ++ [n])) eqn:Hq; [|reflexivity].
    destruct wf as [_ Hwf]. destruct (Hwf _ _ _ Hq) as [Hd _]. congruence.
Qed.

Lemma plain_quoted s : plain_pattern (QuoteMeta s) = true.
Proof. rewrite <- (str_app_empty_r (QuoteMeta s)). apply plain_quote. Qed.

(** [Glob] for the quoted path of a node: the path, when the node
    exists. *)
Lemma globWithLimit_node names : forall rem,
  names <> [] -> Forall entry_name names -> length names < rem ->
  globWithLimit (Unix.view fs) rem (QuoteMeta (abs_path names)) =
  (match Unix.nodes fs !! names with
   | Some _ => [abs_path names]
   | None => []
   end, None).
Proof.
  induction names as [|n names IH] using rev_ind; intros rem Hne Hn Hlen; [contradiction|].
  apply Forall_app in Hn as [Hns Hn]. inversion Hn as [|? ? Hn1 _]; subst.
  rewrite length_app in Hlen. cbn [length] in Hlen.
  destruct rem as [|rem]; [lia|].
  destruct (hasMeta (QuoteMeta (abs_path (names ++ [n])))) eqn:Hmeta.
  - rewrite QuoteMeta_snoc in *.
    rewrite globWithLimit_unfold; [| |rewrite contains_sep_quote; apply Hn1|exact Hmeta].
    2:{ rewrite <- QuoteMeta_snoc. apply plain_quoted. }
    cbv zeta. rewrite is_empty_quote.
    destruct names as [|n1 rest].
    + cbn [abs_path is_empty]. replace (hasMeta "/") with false by reflexivity.
      cbn [negb]. apply (glob_entry [] n Hns Hn1).
    + rewrite abs_path_cons_empty.
      destruct (hasMeta (QuoteMeta (abs_path (n1 :: rest)))) eqn:Hm; cbn [negb].
      * rewrite IH; [|discriminate|exact Hns|lia].
        destruct (Unix.nodes fs !! (n1 :: rest)) eqn:Hk.
        -- cbn [glob_dirs].
           pose proof (glob_entry (n1 :: rest) n Hns Hn1) as Hg. cbn [dir_path] in Hg.
           rewrite Hg. reflexivity.
        -- cbn [glob_dirs].
           destruct (Unix.nodes fs !! ((n1 :: rest) ++ [n])) eqn:Hq; [|reflexivity].
           destruct wf as [_ Hwf]. destruct (Hwf _ _ _ Hq) as [Hd _]. congruence.
      * rewrite (quote_no_meta _ Hm).
        apply (glob_entry (n1 :: rest) n Hns Hn1).
  - cbn [globWithLimit]. rewrite (Match_plain _ (plain_quoted _) ""), Hmeta. cbn [negb].
    rewrite (quote_no_meta _ Hmeta). cbn [Unix.view lstat].
    assert (Hall : Forall entry_name (names ++ [n])) by (apply Forall_app; auto).
    pose proof (resolve_abs fs (names ++ [n]) wf Hall) as Hr.
    replace (dir_path (names ++ [n])) with (abs_path (names ++ [n])) in Hr
      by (destruct names; reflexivity).
    destruct (Unix.nodes fs !! (names ++ [n])).
    + rewrite Hr. reflexivity.
    + destruct Hr as [e ->]. reflexivity.
Qed.

End Tree.

End TreeGlob.

(** ** What the stages enumerate on a well-formed file system *)
Module StageGlob.

Import GoString Filepath Regexp MatchFacts PlainFacts StarFacts GlobFacts JoinFacts
  SuffixFacts TreeFacts PathFacts TreeGlob.

Lemma filter_all {A} (f : A -> bool) l :
  (forall x, x ∈ l -> f x = true) -> List.filter f l = l.
Proof.
  induction l as [|x l IH]; intros H; [reflexivity|]. cbn [List.filter].
  rewrite (H x) by (apply elem_of_cons; auto).
  rewrite IH by (intros y Hy; apply H, elem_of_cons; auto). reflexivity.
Qed.

Lemma map_ext_elem {A B} (f g : A -> B) l :
  (forall x, x ∈ l -> f x = g x) -> map f l = map g l.
Proof.
  induction l as [|x l IH]; intros H; [reflexivity|]. cbn [map].
  rewrite (H x) by (apply elem_of_cons; auto).
  rewrite IH by (intros y Hy; apply H, elem_of_cons; auto). reflexivity.
Qed.

Section Tree.

Variable fs : Unix.FS.

Hypothesis wf : wf_fs (Unix.nodes fs).

Lemma child_name names m :
  m ∈ sort (Unix.children (Unix.nodes fs) names) -> entry_name m.
Proof.
  rewrite sort_perm. intros H. apply elem_of_children in H as [k Hk].
  destruct wf as [_ Hwf]. apply (Hwf _ _ _ Hk).
Qed.

(** [glob] in a directory for a pattern that is never an error. *)
Lemma glob_dir names f :
  Forall entry_name names ->
  (forall x, (Match f x).2 = None) ->
  glob (Unix.view fs) (dir_path names) f [] =
  (match Unix.nodes fs !! names with
   | Some Unix.Dir =>
       map (fun m => abs_path (names ++ [m]))
         (List.filter (fun x => (Match f x).1)
            (sort (Unix.children (Unix.nodes fs) names)))
   | _ => []
   end, None).
Proof.
  intros Hns Hf. unfold glob. rewrite (stat_dir fs wf names Hns).
  destruct (Unix.nodes fs !! names) as [[|]|] eqn:Hk; try reflexivity.
  rewrite (readdir_dir fs wf names Hns Hk), (glob_names_spec _ _ _ _ Hf).
  cbn [app]. f_equal. apply map_ext_elem. intros m Hm.
  apply Join_abs; [exact Hns|].
  apply (child_name names). apply list_elem_of_In.
  apply list_elem_of_In in Hm. apply List.filter_In in Hm as [Hm _]. exact Hm.
Qed.

(** The entries of a directory, for the pattern of the cache stage. *)
Lemma glob_all names :
  Forall entry_name names ->
  glob (Unix.view fs) (dir_path names) "**" [] = (cache_matches fs names, None).
Proof.
  intros Hns. rewrite glob_dir; [|exact Hns|intros x; reflexivity].
  unfold cache_matches. destruct (Unix.nodes fs !! names) as [[|]|]; try reflexivity.
  rewrite filter_all; [reflexivity|].
  intros m Hm. apply child_name in Hm as (_ & Hsep & _).
  change (Match "**" m) with (negb (contains_byte Separator m), @None error).
  cbn [fst]. rewrite Hsep. reflexivity.
Qed.

(** The entries of a directory that end in a suffix. *)
Lemma glob_suffix names ext :
  Forall entry_name names -> literal ext = true ->
  glob (Unix.view fs) (dir_path names) (String "*" ext) [] =
  (suffix_entries fs ext names, None).
Proof.
  intros Hns Hl.
  rewrite glob_dir; [|exact Hns|intros x; rewrite (Match_star_literal ext x Hl); reflexivity].
  unfold suffix_entries. destruct (Unix.nodes fs !! names) as [[|]|]; try reflexivity.
  rewrite (filter_ext_in _ (ends_in_element ext)); [reflexivity|].
  intros x _. rewrite (Match_star_literal ext x Hl). reflexivity.
Qed.

(** The pattern of the cache stage on the directory [names]. *)
Lemma globWithLimit_cache names rem :
  names <> [] -> Forall entry_name names -> length names + 1 < rem ->
  globWithLimit (Unix.view fs) rem (QuoteMeta (abs_path names) +:+ "/**") =
  (cache_matches fs names, None).
Proof.
  intros Hne Hns Hlen. destruct rem as [|rem]; [lia|].
  change (QuoteMeta (abs_path names) +:+ "/**")
    with (QuoteMeta (abs_path names) +:+ "/" +:+ "**").
  rewrite globWithLimit_unfold;
    [|rewrite plain_quote; reflexivity|reflexivity
     |rewrite hasMeta_app; apply orb_true_r].
  cbv zeta. rewrite is_empty_quote.
  destruct names as [|n rest]; [contradiction|]. rewrite abs_path_cons_empty.
  pose proof (glob_all (n :: rest) Hns) as Hall. cbn [dir_path] in Hall.
  destruct (hasMeta (QuoteMeta (abs_path (n :: rest)))) eqn:Hm; cbn [negb].
  - rewrite (globWithLimit_node fs wf (n :: rest) rem Hne Hns) by lia.
    destruct (Unix.nodes fs !! (n :: rest)) eqn:Hk.
    + cbn [glob_dirs]. rewrite Hall. reflexivity.
    + cbn [glob_dirs]. unfold cache_matches. rewrite Hk. reflexivity.
  - rewrite (quote_no_meta _ Hm). exact Hall.
Qed.

(** The loop of [globWithLimit] over the entries of [names], for a
    suffix. *)
Lemma glob_dirs_suffix names ext ds : forall acc,
  Forall entry_name names -> literal ext = true ->
  (forall d, d ∈ ds -> entry_name d) ->
  glob_dirs (Unix.view fs) (String "*" ext)
    (map (fun d => abs_path (names ++ [d])) ds) acc =
  (acc ++ concat (map (fun d => suffix_entries fs ext (names ++ [d])) ds), None).
Proof.
  induction ds as [|d ds IH]; intros acc Hns Hl Hds; [rewrite app_nil_r; reflexivity|].
  cbn [map glob_dirs concat].
  assert (Hd : Forall entry_name (names ++ [d])).
  { apply Forall_app. split; [exact Hns|].
    constructor; [apply Hds, elem_of_cons; auto|constructor]. }
  pose proof (glob_suffix (names ++ [d]) ext Hd Hl) as Hg.
  replace (dir_path (names ++ [d])) with (abs_path (names ++ [d])) in Hg
    by (destruct names; reflexivity).
  assert (Hacc : glob (Unix.view fs) (abs_path (names ++ [d])) (String "*" ext) acc =
                 (acc ++ suffix_entries fs ext (names ++ [d]), None)).
  { revert Hg. unfold glob.
    destruct (stat_is_dir _ _) as [[|]|]; try (intros [= <-]; rewrite app_nil_r; reflexivity).
    destruct (readdirnames _ _); [|intros [= <-]; rewrite app_nil_r; reflexivity].
    rewrite !glob_names_spec
      by (intros x; rewrite (Match_star_literal ext x Hl); reflexivity).
    cbn [app]. intros [= <-]. reflexivity. }
  rewrite Hacc, IH; [|exact Hns|exact Hl|intros x Hx; apply Hds, elem_of_cons; auto].
  rewrite <- app_assoc. reflexivity.
Qed.

(** The pattern of a sidecar or album stage on the directory
    [names]. *)
Lemma globWithLimit_suffix_matches names ext rem :
  names <> [] -> Forall entry_name names -> literal ext = true ->
  contains_byte Separator ext = false ->
  length names + 2 < rem ->
  globWithLimit (Unix.view fs) rem (QuoteMeta (abs_path names) +:+ "/**/*" +:+ ext) =
  (suffix_matches fs ext names, None).
Proof.
  intros Hne Hns Hl He Hlen. destruct rem as [|rem]; [lia|].
  replace (QuoteMeta (abs_path names) +:+ "/**/*" +:+ ext)
    with ((QuoteMeta (abs_path names) +:+ "/**") +:+ "/" +:+ String "*" ext)
    by (rewrite !str_app_assoc; reflexivity).
  rewrite globWithLimit_unfold.
  2:{ rewrite str_app_assoc, plain_quote.
      change (plain_pattern ("/**" +:+ "/" +:+ String "*" ext)) with (plain_pattern ext).
      apply literal_plain, Hl. }
  2:{ cbn [contains_byte]. replace (Ascii.eqb Separator "*") with false by reflexivity.
      exact He. }
  2:{ rewrite !hasMeta_app. replace (hasMeta "/**") with true by reflexivity.
      rewrite orb_true_r. reflexivity. }
  cbv zeta. rewrite str_is_empty_app, andb_false_r, hasMeta_app.
  replace (hasMeta "/**") with true by reflexivity.
  rewrite orb_true_r. cbn [negb].
  rewrite (globWithLimit_cache names rem Hne Hns) by lia.
  unfold cache_matches, suffix_matches.
  destruct (Unix.nodes fs !! names) as [[|]|]; try reflexivity.
  rewrite glob_dirs_suffix; [reflexivity|exact Hns|exact Hl|].
  intros d. apply child_name.
Qed.

End Tree.

End StageGlob.

(** ** Removal on a well-formed file system *)
Module TreeRemove.

Import GoString Filepath Regexp MatchFacts PlainFacts StarFacts GlobFacts JoinFacts
  SuffixFacts TreeFacts PathFacts TreeGlob StageGlob UnixFacts.










End TreeRemove.

(** ** The cache stage on a well-formed file system *)

Lemma entry_nameb_sound n : entry_nameb n = true -> entry_name n.
Proof.
  unfold entry_nameb, entry_name. intros H.
  apply andb_true_iff in H as [H H4]. apply andb_true_iff in H as [H H3].
  apply andb_true_iff in H as [H1 H2].
  apply negb_true_iff in H1, H2, H3, H4.
  repeat split; try assumption; apply String.eqb_neq; assumption.
Qed.

(** A file system that passes the check is well formed. *)
Lemma wf_check_sound (m : gmap (list string) Unix.kind) : wf_check m = true -> wf_fs m.
Proof.
  unfold wf_check. intros H. apply andb_true_iff in H as [Hroot Hall].
  apply bool_decide_eq_true in Hroot. split; [exact Hroot|].
  intros p n k Hk. rewrite List.forallb_forall in Hall.
  specialize (Hall (p ++ [n], k)).
  rewrite <- list_elem_of_In, elem_of_map_to_list in Hall. specialize (Hall Hk).
  unfold wf_node in Hall. cbn [fst] in Hall. rewrite last_snoc in Hall.
  apply andb_true_iff in Hall as [Hd Hn]. apply bool_decide_eq_true in Hd.
  rewrite removelast_last in Hd. split; [exact Hd|apply entry_nameb_sound, Hn].
Qed.

Lemma cache_matches_entries fs names :
  cache_matches fs names = map (fun c => abs_path (names ++ [c])) (entries fs names).
Proof.
  unfold cache_matches, entries. destruct (Unix.nodes fs !! names) as [[|]|]; reflexivity.
Qed.


Lemma elem_of_entries fs names c :
  c ∈ entries fs names -> is_Some (Unix.nodes fs !! (names ++ [c])).
Proof.
  unfold entries. destruct (Unix.nodes fs !! names) as [[|]|];
    try (intros H; apply elem_of_nil in H as []).
  rewrite TreeFacts.sort_perm. apply TreeFacts.elem_of_children.
Qed.



(** ** What the stages enumerate on a well-formed file system *)

Lemma suffix_matches_nodes fs ext names :
  suffix_matches fs ext names = map abs_path (suffix_nodes fs ext names).
Proof.
  unfold suffix_matches, suffix_nodes. unfold entries at 2.
  destruct (Unix.nodes fs !! names) as [[|]|]; try reflexivity.
  induction (GoString.sort (Unix.children (Unix.nodes fs) names)) as [|d ds IH];
    [reflexivity|].
  cbn [map concat]. rewrite map_app, IH. f_equal.
  unfold suffix_entries, entries.
  destruct (Unix.nodes fs !! (names ++ [d])) as [[|]|]; try reflexivity.
  rewrite map_map. apply map_ext. intros e. rewrite <- app_assoc. reflexivity.
Qed.

Lemma elem_of_entries_iff fs names c :
  wf_fs (Unix.nodes fs) ->
  c ∈ entries fs names <-> is_Some (Unix.nodes fs !! (names ++ [c])).
Proof.
  intros Hwf. split; [apply elem_of_entries|].
  intros [k Hk]. destruct Hwf as [_ Hwf]. destruct (Hwf _ _ _ Hk) as [Hd _].
  unfold entries. rewrite Hd, TreeFacts.sort_perm.
  apply TreeFacts.elem_of_children. exists k. exact Hk.
Qed.

(** On an entry name, ending in a literal is having it as suffix. *)
Lemma ends_in_element_suffix ext e :
  GoString.contains_byte Filepath.Separator ext = false ->
  entry_name e ->
  ends_in_element ext e = has_suffix e ext.
Proof.
  intros Hext (_ & Hsep & _).
  apply eq_true_iff_eq. rewrite StarFacts.ends_in_element_spec, SuffixFacts.has_suffix_spec.
  split.
  - intros (a & -> & _). exists a. reflexivity.
  - intros (a & ->). exists a. split; [reflexivity|].
    rewrite SuffixFacts.contains_byte_app in Hsep.
    apply orb_false_iff in Hsep as [H _]. exact H.
Qed.

Lemma take_drop_app {A} (l q : list A) :
  take (length l) q = l -> q = l ++ drop (length l) q.
Proof. intros H. rewrite <- H at 1. symmetry. apply take_drop. Qed.

(** The nodes that a sidecar or album stage enumerates are those it
    selects. *)
Lemma elem_of_suffix_nodes fs st names q :
  wf_fs (Unix.nodes fs) ->
  st <> Index -> st <> Cache ->
  q ∈ suffix_nodes fs (stage_suffix st) names <->
  is_Some (Unix.nodes fs !! q) /\ selected st names q = true.
Proof.
  intros Hwf Hi Hc.
  assert (Hext : GoString.contains_byte Filepath.Separator (stage_suffix st) = false)
    by (destruct st; reflexivity).
  unfold suffix_nodes. rewrite list_elem_of_In, in_concat. split.
  - intros (l & Hl & Hq). apply in_map_iff in Hl as (d & <- & Hd).
    apply in_map_iff in Hq as (e & <- & He). apply filter_In in He as [He Hs].
    apply list_elem_of_In, elem_of_entries in He. rewrite <- app_assoc in He.
    cbn [app] in He. split; [exact He|].
    destruct He as [k Hk].
    assert (Hn : entry_name e).
    { change (names ++ [d; e]) with (names ++ [d] ++ [e]) in Hk.
      rewrite app_assoc in Hk. destruct Hwf as [_ Hwf]. apply (Hwf _ _ _ Hk). }
    rewrite (ends_in_element_suffix _ _ Hext Hn) in Hs.
    unfold selected. rewrite take_app_length, drop_app_length.
    rewrite bool_decide_eq_true_2 by reflexivity.
    destruct st; try congruence; exact Hs.
  - intros [[k Hk] Hsel]. unfold selected in Hsel.
    apply andb_true_iff in Hsel as [Ht Hsel]. apply bool_decide_eq_true in Ht.
    apply take_drop_app in Ht.
    destruct (drop (length names) q) as [|d [|e [|? ?]]];
      try (destruct st; congruence).
    assert (Hs : has_suffix e (stage_suffix st) = true)
      by (destruct st; try congruence; exact Hsel).
    subst q.
    assert (Hk' : Unix.nodes fs !! ((names ++ [d]) ++ [e]) = Some k)
      by (rewrite <- app_assoc; exact Hk).
    pose proof Hwf as [_ Hwf']. destruct (Hwf' _ _ _ Hk') as [Hd Hn].
    exists (map (fun e => names ++ [d; e])
              (List.filter (ends_in_element (stage_suffix st)) (entries fs (names ++ [d])))).
    split.
    + apply in_map_iff. exists d. split; [reflexivity|].
      apply list_elem_of_In, elem_of_entries_iff; [exact Hwf|]. exists Unix.Dir. exact Hd.
    + apply in_map_iff. exists e. split; [reflexivity|].
      apply filter_In. split.
      * apply list_elem_of_In, elem_of_entries_iff; [exact Hwf|]. exists k. exact Hk'.
      * rewrite (ends_in_element_suffix _ _ Hext Hn). exact Hs.
Qed.

(** The nodes that the cache stage enumerates are those it selects. *)
Lemma elem_of_cache_nodes fs names q :
  wf_fs (Unix.nodes fs) ->
  q ∈ map (fun c => names ++ [c]) (entries fs names) <->
  is_Some (Unix.nodes fs !! q) /\ selected Cache names q = true.
Proof.
  intros Hwf. rewrite list_elem_of_In, in_map_iff. split.
  - intros (c & <- & Hc). apply list_elem_of_In, elem_of_entries in Hc.
    split; [exact Hc|]. unfold selected.
    rewrite take_app_length, drop_app_length.
    rewrite bool_decide_eq_true_2 by reflexivity. reflexivity.
  - intros [Hk Hsel]. unfold selected in Hsel.
    apply andb_true_iff in Hsel as [Ht Hsel]. apply bool_decide_eq_true in Ht.
    apply take_drop_app in Ht.
    destruct (drop (length names) q) as [|c [|? ?]]; try discriminate.
    subst q. exists c. split; [reflexivity|].
    apply list_elem_of_In, elem_of_entries_iff; assumption.
Qed.

(** The enumeration of a stage, as a list. *)
Lemma stage_glob_tree conf fs st p names :
  wf_fs (Unix.nodes fs) ->
  stage_pattern conf st = Some p ->
  stage_root conf st = abs_path names ->
  names <> [] ->
  Forall entry_name names ->
  length names + 2 < Filepath.pathSeparatorsLimit ->
  Unix.Glob p fs =
    (match st with
     | Cache => cache_matches fs names
     | _ => suffix_matches fs (stage_suffix st) names
     end, None).
Proof.
  intros Hwf Hp Hroot Hne Hns Hlen. unfold Unix.Glob, Filepath.Glob.
  destruct st; cbn [stage_pattern] in Hp; try discriminate; injection Hp as <-;
    cbn [stage_root] in Hroot;
    cbn [st_pattern cache_text json_text yaml_text album_text stage_suffix];
    rewrite Hroot.
  - apply (StageGlob.globWithLimit_cache fs Hwf names _ Hne Hns). lia.
  - apply (StageGlob.globWithLimit_suffix_matches fs Hwf names ".json" _ Hne Hns);
      [reflexivity|reflexivity|exact Hlen].
  - apply (StageGlob.globWithLimit_suffix_matches fs Hwf names ".yml" _ Hne Hns);
      [reflexivity|reflexivity|exact Hlen].
  - apply (StageGlob.globWithLimit_suffix_matches fs Hwf names ".yml" _ Hne Hns);
      [reflexivity|reflexivity|exact Hlen].
Qed.

(** X19: what the stages enumerate on a well-formed Unix file system.
    When the root of a stage is the path of a node, the enumeration
    returns no error, and it returns the paths of these nodes: for the
    cache stage the entries of the root; for the json, the yaml and the
    album stage the entries whose name ends in the suffix of the stage,
    files or directories, of the entries of the root.  An entry of the
    root itself and a node that is deeper are not enumerated. *)
Theorem stages_enumerate_by_depth conf fs st p names :
  wf_fs (Unix.nodes fs) ->
  stage_pattern conf st = Some p ->
  stage_root conf st = abs_path names ->
  names <> [] ->
  Forall entry_name names ->
  length names + 2 < Filepath.pathSeparatorsLimit ->
  (Unix.Glob p fs).2 = None /\
  forall x, x ∈ (Unix.Glob p fs).1 <->
            exists q, x = abs_path q /\ is_Some (Unix.nodes fs !! q) /\
                      selected st names q = true.
Proof.
  intros Hwf Hp Hroot Hne Hns Hlen.
  rewrite (stage_glob_tree conf fs st p names Hwf Hp Hroot Hne Hns Hlen).
  cbn [fst snd]. split; [reflexivity|]. intros x.
  assert (Hst : st <> Index) by (intros ->; discriminate).
  destruct (decide (st = Cache)) as [->|Hc].
  - rewrite cache_matches_entries.
    rewrite <- (map_map (fun c => names ++ [c]) abs_path).
    change (map abs_path ?l) with (abs_path <$> l). rewrite list_elem_of_fmap.
    split; intros (q & Hx & Hq); exists q; (split; [exact Hx|]);
      apply (elem_of_cache_nodes fs names q Hwf); exact Hq.
  - replace (match st with Cache => cache_matches fs names
                         | _ => suffix_matches fs (stage_suffix st) names end)
      with (suffix_matches fs (stage_suffix st) names)
      by (destruct st; try reflexivity; congruence).
    rewrite suffix_matches_nodes.
    change (map abs_path ?l) with (abs_path <$> l). rewrite list_elem_of_fmap.
    split; intros (q & Hx & Hq); exists q; (split; [exact Hx|]);
      apply (elem_of_suffix_nodes fs st names q Hwf Hst Hc); exact Hq.
Qed.

(** ** The sidecar stages on a well-formed file system *)

Module TreeUnlink.

Import TreeFacts TreeRemove.









End TreeUnlink.




(** ** The command only deletes *)

Section OnlyDeletes.

Import World.

Variable c : Config.




End OnlyDeletes.


(** ** The stages on the tree of the confirming world *)


Lemma stages_enumerate_by_depth_witness :
  (Unix.Glob "/data/sidecar/**/*.json" dir_json_fs).2 = None /\
  forall x, x ∈ (Unix.Glob "/data/sidecar/**/*.json" dir_json_fs).1 <->
            exists q, x = abs_path q /\ is_Some (Unix.nodes dir_json_fs !! q) /\
                      selected SidecarJson ["data"; "sidecar"] q = true.
Proof.
  apply (stages_enumerate_by_depth sidecar_conf dir_json_fs SidecarJson
           "/data/sidecar/**/*.json" ["data"; "sidecar"]).
  - apply wf_check_sound. vm_compute. reflexivity.
  - reflexivity.
  - reflexivity.
  - discriminate.
  - repeat constructor; apply entry_nameb_sound; reflexivity.
  - vm_compute. lia.
Defined.


